(** * Grid bot: ladder, reconciler and anchor controller

    A shallow embedding of the TypeScript sources

      - [src/logic/gridContext.ts]    (class GridContext, the price ladder)
      - [src/exchange/orderExecutor.ts] (class OrderExecutor, the reconciler)
      - [src/logic/botEngine.ts]      (class BotEngine, the anchor controller)
      - [src/exchange/exchangeManager.ts] (getMarket)

    Conventions of the embedding.

      - A JavaScript [number] that holds a price, a spread or a tick size is
        an exact rational ([Q]); comparisons are the decidable comparisons of
        [Q]. IEEE-754 rounding of products is not modelled, and every
        concrete input used below is a small integer or dyadic value on
        which double arithmetic is exact.
      - A [number] that holds an index, a window size or a millisecond
        timestamp is an integer ([Z]).
      - A [while] loop whose termination depends on the data is a [Fixpoint]
        over a fuel argument that returns [None] when the fuel runs out.
      - A call that may throw returns a [completion]. *)

From Stdlib Require Import QArith Qround Qabs Lqa ZArith Lia Ascii String.
From Stdlib Require Import DecimalString.
From stdpp Require Import base option list strings gmap pretty relations.

Local Open Scope Z_scope.

(** ** JavaScript numbers and completions *)

Abbreviation number := Q (only parsing).

(** [Math.round]: the nearest integer, halves towards plus infinity. *)
Definition Math_round (x : Q) : Q := inject_Z (Qfloor (x + (1 # 2))).

(** [Math.abs] *)
Definition Math_abs (x : Q) : Q := Qabs x.

(** [a < b] on numbers, as a boolean. *)
Definition num_lt (a b : Q) : bool := if Qlt_le_dec a b then true else false.
(** [a <= b], [a >= b], [a === b] on numbers. *)
Definition num_le (a b : Q) : bool := Qle_bool a b.
Definition num_ge (a b : Q) : bool := Qle_bool b a.
Definition num_gt (a b : Q) : bool := num_lt b a.
Definition num_eq (a b : Q) : bool := Qeq_bool a b.

(** An [Error] object: its message and the ad hoc [code] property that the
    reconciler attaches (empty when the property is not set). *)
Record JsError := mkError { message : string; code : string }.

Inductive completion (A : Type) : Type :=
| Normal (a : A)
| Throw (e : JsError).
Arguments Normal {A} a.
Arguments Throw {A} e.

(** Reading a property of [undefined]. *)
Definition TypeError : JsError :=
  mkError "Cannot read properties of undefined" "".

(** ** Data model ([src/types/grid.ts]) *)

Inductive GridDirection := LONG | SHORT.

#[global] Instance GridDirection_eq_dec : EqDecision GridDirection.
Proof. solve_decision. Defined.

Record GridConfig := mkConfig {
  symbol : string;
  direction : GridDirection;
  leverage : Q;
  upperPrice : Q;
  lowerPrice : Q;
  gridSpread : Q;
  quantityPerGrid : Q
}.

Record GridLevel := mkLevel {
  index : Z;
  price : Q;
  buyOrderId : string;
  sellOrderId : string
}.

(** [levels[idx]] on a JavaScript array: [undefined] outside the array. *)
Definition array_get {A : Type} (l : list A) (idx : Z) : option A :=
  if idx <? 0 then None else l !! Z.to_nat idx.

(** ** JavaScript strings

    A string is a sequence of character codes below 256. *)

Module JsString.

Definition LF : ascii := "010"%char.
Definition comma : ascii := ","%char.

(** The white space and line terminators that [trim] strips. *)
Definition is_space (c : ascii) : bool :=
  let n := N_of_ascii c in
  ((9 <=? n) && (n <=? 13) || (n =? 32) || (n =? 160))%N.

(** [s.split(sep)] for a one-character separator. *)
Fixpoint split (sep : ascii) (s : string) : list string :=
  match s with
  | EmptyString => [EmptyString]
  | String c s' =>
      if Ascii.eqb c sep then EmptyString :: split sep s'
      else match split sep s' with
           | h :: t => String c h :: t
           | [] => [String c EmptyString]
           end
  end.

(** [parts.join(sep)] *)
Definition join (sep : string) (parts : list string) : string :=
  String.concat sep parts.

Fixpoint trimStart (s : string) : string :=
  match s with
  | EmptyString => EmptyString
  | String c s' => if is_space c then trimStart s' else s
  end.

Fixpoint trimEnd (s : string) : string :=
  match s with
  | EmptyString => EmptyString
  | String c s' =>
      match trimEnd s' with
      | EmptyString => if is_space c then EmptyString else String c EmptyString
      | r => String c r
      end
  end.

Definition trim (s : string) : string := trimEnd (trimStart s).

Definition startsWith (s pre : string) : bool := String.prefix pre s.

Fixpoint drop (n : nat) (s : string) : string :=
  match n, s with
  | O, _ => s
  | S n', String _ s' => drop n' s'
  | S _, EmptyString => EmptyString
  end.

(** [s.replace(pat, rep)] with a string pattern: the first occurrence only. *)
Fixpoint replace (s pat rep : string) : string :=
  if String.prefix pat s then rep +:+ drop (String.length pat) s
  else match s with
       | EmptyString => EmptyString
       | String c s' => String c (replace s' pat rep)
       end.

(** [s.includes(pat)] *)
Fixpoint includes (s pat : string) : bool :=
  String.prefix pat s ||
  match s with
  | EmptyString => false
  | String _ s' => includes s' pat
  end.

(** The characters of a string. *)
Fixpoint chars (s : string) : list ascii :=
  match s with
  | EmptyString => []
  | String c s' => c :: chars s'
  end.

(** The last character of a string. *)
Fixpoint lastChar (s : string) : option ascii :=
  match s with
  | EmptyString => None
  | String c EmptyString => Some c
  | String _ s' => lastChar s'
  end.

(** A string that [trimEnd] leaves alone. *)
Definition endsClean (s : string) : Prop :=
  forall c, lastChar s = Some c -> is_space c = false.

End JsString.

(** The conversions between numbers and strings that belong to the
    JavaScript runtime: template-literal printing of a number, [Number],
    [parseFloat] and [parseInt]. A parse that yields [NaN] is [None]. *)
Record JsRuntime := mkRuntime {
  num_toString : Q -> string;
  int_toString : Z -> string;
  js_Number : string -> option Q;
  js_parseFloat : string -> option Q;
  js_parseInt : string -> option Z
}.

(** ** GridContext ([src/logic/gridContext.ts]) *)

Module GridContext.

(** The local helper [roundToTick] of [calculateLevels]. Division by zero
    has no counterpart in [Q]: the helper is only meant for a tick size other
    than zero. *)
Definition roundToTick (tickSize : Q) (p : Q) : Q :=
  let precision := (1 / tickSize)%Q in
  (Math_round (p * precision) / precision)%Q.

(** The [while (currentPrice < upperPrice)] loop: [levels] is the array built
    so far, [currentPrice] the running (pre-round) price, [index] the counter.
    [None] when [fuel] iterations were not enough. *)
Fixpoint calculateLevels_loop (fuel : nat) (upper spread tickSize : Q)
    (currentPrice : Q) (index : Z) (levels : list GridLevel)
    : option (list GridLevel) :=
  if Qlt_le_dec currentPrice upper then
    match fuel with
    | O => None
    | S fuel' =>
        let index := index + 1 in
        let currentPrice := (currentPrice * (1 + spread))%Q in
        calculateLevels_loop fuel' upper spread tickSize currentPrice index
          (levels ++ [mkLevel index (roundToTick tickSize currentPrice) "" ""])
    end
  else Some levels.

Definition calculateLevels (fuel : nat) (config : GridConfig) (tickSize : Q)
    : option (list GridLevel) :=
  let currentPrice := lowerPrice config in
  let index := 0 in
  calculateLevels_loop fuel (upperPrice config) (gridSpread config) tickSize
    currentPrice index
    [mkLevel index (roundToTick tickSize currentPrice) "" ""].

(** The running price after [n] iterations of the loop. *)
Fixpoint runningPrice (lower spread : Q) (n : nat) : Q :=
  match n with
  | O => lower
  | S n' => (runningPrice lower spread n' * (1 + spread))%Q
  end.

(** The level pushed for the running price number [k]. *)
Definition levelAt (lower spread tickSize : Q) (k : nat) : GridLevel :=
  mkLevel (Z.of_nat k) (roundToTick tickSize (runningPrice lower spread k)) "" "".

(** Levels pushed by [n] iterations started at running price [c], counter [i]. *)
Definition pushed (t c s : Q) (i : Z) (n : nat) : list GridLevel :=
  map (fun k => mkLevel (i + Z.of_nat k) (roundToTick t (runningPrice c s k)) "" "")
      (seq 1 n).


(** [getNearestLevels]: the first pair of adjacent levels that brackets
    [currentPrice]; [None] is the [null] of the source. *)
Fixpoint bracket_scan (levels : list GridLevel) (currentPrice : Q)
    : option (GridLevel * GridLevel) :=
  match levels with
  | lower :: ((upper :: _) as rest) =>
      if num_ge currentPrice (price lower) && num_le currentPrice (price upper)
      then Some (lower, upper)
      else bracket_scan rest currentPrice
  | _ => None
  end.

Definition getNearestLevels (config : GridConfig) (levels : list GridLevel)
    (currentPrice : Q) : option (GridLevel * GridLevel) :=
  if (length levels <? 2)%nat then None
  else if num_ge currentPrice (upperPrice config)
          || num_le currentPrice (lowerPrice config) then None
  else bracket_scan levels currentPrice.

(** *** The ledger file *)

Section Ledger.
Context (rt : JsRuntime).
Import JsString.

Definition nl : string := String LF EmptyString.

(** One data row of [saveToCsv]. *)
Definition row (l : GridLevel) : string :=
  int_toString rt (index l) +:+ "," +:+ num_toString rt (price l) +:+ ","
    +:+ buyOrderId l +:+ "," +:+ sellOrderId l.

Definition configMeta (config : GridConfig) : string :=
  "# config:" +:+ num_toString rt (upperPrice config) +:+ ","
    +:+ num_toString rt (lowerPrice config) +:+ ","
    +:+ num_toString rt (gridSpread config) +:+ nl.

Definition header : string := "index,price,buy_order_id,sell_order_id" +:+ nl.

(** [saveToCsv]: the text written to the ledger file. *)
Definition saveToCsv (config : GridConfig) (levels : list GridLevel) : string :=
  let rows := join nl (map row levels) in
  configMeta config +:+ header +:+ rows.

(** The callback of [dataLines.map] in [loadFromCsv]; a field that was not
    produced by the split is [undefined]. [None] when the index or the price
    parses to [NaN], which a [GridLevel] of this model cannot hold. *)
Definition parseRow (line : string) : option GridLevel :=
  let fields := split comma line in
  idx ← fields !! 0%nat ≫= js_parseInt rt;
  p ← fields !! 1%nat ≫= js_parseFloat rt;
  Some (mkLevel idx p (default EmptyString (fields !! 2%nat))
                      (default EmptyString (fields !! 3%nat))).

(** [loadFromCsv] on the text of the ledger file. *)
Definition loadFromCsv (content : string) : option (list GridLevel) :=
  let allLines := split LF (trim content) in
  let dataLines :=
    filter (fun line => negb (startsWith line "#") && negb (startsWith line "index,") = true)
           allLines in
  mapM parseRow dataLines.

(** [checkConfigMatch] on the text of the ledger file. *)
Definition checkConfigMatch (config : GridConfig) (content : string) : bool :=
  let firstLine := default EmptyString (split LF content !! 0%nat) in
  if negb (startsWith firstLine "# config:") then false
  else
    let configStr := replace firstLine "# config:" "" in
    let nums := map (js_Number rt) (split comma configStr) in
    let same (field : option (option Q)) (x : Q) : bool :=
      match field with
      | Some (Some v) => num_eq v x
      | _ => false
      end in
    same (nums !! 0%nat) (upperPrice config)
    && same (nums !! 1%nat) (lowerPrice config)
    && same (nums !! 2%nat) (gridSpread config).

(** [initialize]: [file] is the text at [csvPath], if the file exists. The
    result is the new [levels] array and the text at [csvPath] afterwards. *)
Definition initialize (fuel : nat) (config : GridConfig) (file : option string)
    (tickSize : Q) : option (list GridLevel * string) :=
  let regenerate :=
    levels ← calculateLevels fuel config tickSize;
    Some (levels, saveToCsv config levels) in
  match file with
  | Some content =>
      if checkConfigMatch config content
      then levels ← loadFromCsv content; Some (levels, content)
      else regenerate
  | None => regenerate
  end.

(** [updateOrder]: record an order id on a level and rewrite the ledger. *)
Definition updateOrder (config : GridConfig) (levels : list GridLevel)
    (file : option string) (idx : Z) (buy : bool) (orderId : string)
    : list GridLevel * option string :=
  if (0 <=? idx) && (idx <? Z.of_nat (length levels)) then
    let set (l : GridLevel) :=
      if buy then mkLevel (index l) (price l) orderId (sellOrderId l)
      else mkLevel (index l) (price l) (buyOrderId l) orderId in
    let levels' := alter set (Z.to_nat idx) levels in
    (levels', Some (saveToCsv config levels'))
  else (levels, file).

(** A printed index: not empty, made of digits and minus signs. *)
Definition isIndexText (s : string) : bool :=
  negb (String.eqb s "")
  && forallb (fun c => let n := N_of_ascii c in
                       ((48 <=? n) && (n <=? 57))%N || Ascii.eqb c "-") (chars s).

(** A text that can stand in a comma-separated row: no comma, no line feed. *)
Definition isField (s : string) : bool :=
  forallb (fun c => negb (Ascii.eqb c comma) && negb (Ascii.eqb c LF)) (chars s).

(** A level that the ledger can hold. *)
Definition storable (l : GridLevel) : Prop :=
  isIndexText (int_toString rt (index l)) = true /\
  js_parseInt rt (int_toString rt (index l)) = Some (index l) /\
  isField (num_toString rt (price l)) = true /\
  js_parseFloat rt (num_toString rt (price l)) = Some (price l) /\
  isField (buyOrderId l) = true /\
  isField (sellOrderId l) = true.

(** A number that the fingerprint line can hold. *)
Definition fingerprintable (x : Q) : Prop :=
  isField (num_toString rt x) = true /\ js_Number rt (num_toString rt x) = Some x.

(** The fingerprint line and the header line, without their line feeds. *)
Definition metaLine (config : GridConfig) : string :=
  "# config:" +:+ num_toString rt (upperPrice config) +:+ ","
    +:+ num_toString rt (lowerPrice config) +:+ ","
    +:+ num_toString rt (gridSpread config).

Definition headerLine : string := "index,price,buy_order_id,sell_order_id".

End Ledger.

End GridContext.

(** ** Ladders that an engine can rely on *)

(** The prices of a ladder never decrease from one level to the next. *)
Fixpoint ascending (levels : list GridLevel) : Prop :=
  match levels with
  | a :: ((b :: _) as rest) => (price a <= price b)%Q /\ ascending rest
  | _ => True
  end.

(** Every level records its own position in the ladder. *)
Definition indexed (levels : list GridLevel) : Prop :=
  map index levels = map Z.of_nat (seq 0 (length levels)).

(** ** OrderExecutor ([src/exchange/orderExecutor.ts]) *)

Inductive Side := buy | sell.
Inductive Action := open | close.

#[global] Instance Side_eq_dec : EqDecision Side.
Proof. solve_decision. Defined.
#[global] Instance Action_eq_dec : EqDecision Action.
Proof. solve_decision. Defined.

(** The string a [tradeSide] tag is compared with. *)
Definition Action_tag (a : Action) : string :=
  match a with open => "open" | close => "close" end.

(** An element of [targetLevels]. *)
Module Target.
Record t := mk { price : Q; amount : Q; action : Action }.
End Target.

(** An order as the venue reports it. [price] is [parseFloat(o.price)];
    [posSide] and [tradeSide] are [o.info.posSide] and [o.info.tradeSide],
    the empty string standing for a missing [posSide]. *)
Module Order.
Record t := mk {
  id : string;
  price : Q;
  side : Side;
  posSide : string;
  tradeSide : string
}.
End Order.

(** An element of [batchCreates]. *)
Module Request.
Record t := mk {
  symbol : string;
  type : string;
  side : Side;
  amount : Q;
  price : Q;
  tradeSide : Action;
  timeInForce : string
}.
End Request.

(** The calls a reconciliation sends to the venue, in the order sent. *)
Inductive Call :=
| FetchOpenOrders (symbol : string)
| CancelOrders (ids : list string) (symbol : string)
| CancelOrder (id : string) (symbol : string)
| CreateOrders (batch : list Request.t).

(** The exchange client, over a venue state [V]. [createOrders] answers with
    an array of orders ([Some]) or with something that is no array. *)
Record Gateway (V : Type) := mkGateway {
  fetchOpenOrders : string -> V -> completion (list Order.t) * V;
  cancelOrders : list string -> string -> V -> completion unit * V;
  cancelOrder : string -> string -> V -> completion unit * V;
  createOrders : list Request.t -> V -> completion (option (list Order.t)) * V
}.
Arguments fetchOpenOrders {V}.
Arguments cancelOrders {V}.
Arguments cancelOrder {V}.
Arguments createOrders {V}.

Module OrderExecutor.

Import JsString.

Definition getCacheKey (symbol : string) (direction : GridDirection) : string :=
  symbol +:+ "_" +:+ match direction with LONG => "LONG" | SHORT => "SHORT" end.

(** The executor together with the venue it talks to: the local order cache,
    the venue state and the calls sent so far. *)
Record World (V : Type) := mkWorld {
  localOrderCache : gmap string (gset string);
  venue : V;
  calls : list Call
}.
Arguments mkWorld {V}.
Arguments localOrderCache {V}.
Arguments venue {V}.
Arguments calls {V}.

Definition send {V A} (c : Call) (f : V -> completion A * V) (w : World V)
    : completion A * World V :=
  let '(r, v) := f (venue w) in
  (r, mkWorld (localOrderCache w) v (calls w ++ [c])).

(** The filter of step 2: orders on this strategy's position side. *)
Definition ofStrategy (direction : GridDirection) (o : Order.t) : bool :=
  let targetPosSide := match direction with LONG => "long" | SHORT => "short" end in
  let orderPosSide :=
    if String.eqb (Order.posSide o) "" then
      match Order.side o with buy => "long" | sell => "short" end
    else Order.posSide o in
  String.eqb orderPosSide targetPosSide.

(** The predicate of [currentStrategyOrders.find] in step 3. *)
Definition matchesTarget (target : Target.t) (o : Order.t) : bool :=
  let priceMatch :=
    num_lt (Math_abs (Order.price o - Target.price target)) (1 # 100000000) in
  let actionMatch := String.eqb (Order.tradeSide o) (Action_tag (Target.action target)) in
  priceMatch && actionMatch.

(** Step 3. An order object is identified by its position in
    [currentStrategyOrders]: [ordersToKeep] holds positions. *)
Fixpoint partitionTargets (orders : list Order.t) (targetLevels : list Target.t)
    (ordersToKeep : list nat) (targetsToPlace : list Target.t)
    : list nat * list Target.t :=
  match targetLevels with
  | [] => (ordersToKeep, targetsToPlace)
  | target :: rest =>
      match list_find (fun o => matchesTarget target o = true) orders with
      | Some (i, _) =>
          partitionTargets orders rest (ordersToKeep ++ [i]) targetsToPlace
      | None =>
          partitionTargets orders rest ordersToKeep (targetsToPlace ++ [target])
      end
  end.

(** [currentStrategyOrders.filter(o => !ordersToKeep.includes(o))] *)
Definition ordersToDispose (orders : list Order.t) (ordersToKeep : list nat)
    : list Order.t :=
  map snd
    (filter (fun io => io.1 ∉ ordersToKeep) (imap (fun i o => (i, o)) orders)).

Definition toRequest (symbol : string) (direction : GridDirection)
    (target : Target.t) : Request.t :=
  Request.mk symbol "limit"
    (match direction with LONG => buy | SHORT => sell end)
    (Target.amount target) (Target.price target) (Target.action target)
    "post_only".

(** The fallback of step 5: one [cancelOrder] per id, each rejection
    swallowed by its own [.catch(() => {})]. *)
Fixpoint cancelEach {V} (g : Gateway V) (ids : list string) (symbol : string)
    (w : World V) : World V :=
  match ids with
  | [] => w
  | id :: rest =>
      cancelEach g rest symbol (send (CancelOrder id symbol) (cancelOrder g id symbol) w).2
  end.

(** [NO_POSITION] test on the message of a failed batch create. *)
Definition isNoPosition (e : JsError) : bool :=
  includes (message e) "22002" || includes (message e) "No position to close".

(** The body of the outer [try] block of [syncActiveOrders]. *)
Definition syncActiveOrders_try {V} (g : Gateway V) (symbol : string)
    (direction : GridDirection) (targetLevels : list Target.t) (w : World V)
    : completion unit * World V :=
  let cacheKey := getCacheKey symbol direction in
  let cache0 := default ∅ (localOrderCache w !! cacheKey) in
  let w := mkWorld (<[cacheKey := cache0]> (localOrderCache w)) (venue w) (calls w) in
  (* 1 *)
  match send (FetchOpenOrders symbol) (fetchOpenOrders g symbol) w with
  | (Throw e, w) => (Throw e, w)
  | (Normal openOrders, w) =>
      (* 2 *)
      let currentStrategyOrders := filter (fun o => ofStrategy direction o = true) openOrders in
      (* 2.5 *)
      let remoteIds : gset string := list_to_set (map Order.id currentStrategyOrders) in
      let cache1 := filter (fun cachedId => cachedId ∈ remoteIds) cache0 in
      let w := mkWorld (<[cacheKey := cache1]> (localOrderCache w)) (venue w) (calls w) in
      (* 3 *)
      let '(ordersToKeep, targetsToPlace) :=
        partitionTargets currentStrategyOrders targetLevels [] [] in
      (* 4 *)
      let ordersToCancel := map Order.id (ordersToDispose currentStrategyOrders ordersToKeep) in
      let batchCreates := map (toRequest symbol direction) targetsToPlace in
      (* 5 *)
      let w :=
        if (0 <? length ordersToCancel)%nat then
          match send (CancelOrders ordersToCancel symbol)
                     (cancelOrders g ordersToCancel symbol) w with
          | (Normal _, w) => w
          | (Throw _, w) => cancelEach g ordersToCancel symbol w
          end
        else w in
      (* 6 *)
      if (0 <? length batchCreates)%nat then
        match send (CreateOrders batchCreates) (createOrders g batchCreates) w with
        | (Normal newOrders, w) =>
            let added : gset string :=
              match newOrders with
              | Some os => list_to_set (map Order.id os)
              | None => ∅
              end in
            (Normal tt,
             mkWorld (<[cacheKey := cache1 ∪ added]> (localOrderCache w)) (venue w) (calls w))
        | (Throw e, w) =>
            if isNoPosition e
            then (Throw (mkError (message e) "NO_POSITION"), w)
            else (Normal tt, w)
        end
      else (Normal tt, w)
  end.

(** [syncActiveOrders]: the [try] block under its [catch (error)], which
    logs the error and returns. *)
Definition syncActiveOrders {V} (g : Gateway V) (symbol : string)
    (direction : GridDirection) (targetLevels : list Target.t) (w : World V)
    : completion unit * World V :=
  match syncActiveOrders_try g symbol direction targetLevels w with
  | (Normal r, w) => (Normal r, w)
  | (Throw error, w) => (Normal tt, w)
  end.

(** Two targets that one order can meet: same action, prices closer than
    the matching tolerance. *)
Definition clash (t1 t2 : Target.t) : Prop :=
  Target.action t1 = Target.action t2 /\
  (Qabs (Target.price t1 - Target.price t2) < 1 # 100000000)%Q.

(** No two targets of the list clash. *)
Fixpoint separated (targets : list Target.t) : Prop :=
  match targets with
  | [] => True
  | t :: rest => Forall (fun t' => ~ clash t t') rest /\ separated rest
  end.

(** The first order of [orders] that meets [target], with its position. *)
Definition found (orders : list Order.t) (target : Target.t) : option (nat * Order.t) :=
  list_find (fun o => matchesTarget target o = true) orders.


(** A call that asks the venue for no close order. *)
Definition closeFree (c : Call) : Prop :=
  match c with
  | CreateOrders batch => Forall (fun r => Request.tradeSide r <> close) batch
  | _ => True
  end.

End OrderExecutor.

(** ** BotEngine ([src/logic/botEngine.ts]) *)

Module BotEngine.

Import GridContext OrderExecutor.

(** A [GridContext] instance as the engine sees it. *)
Module Ctx.
Record t := mk { config : GridConfig; levels : list GridLevel }.
End Ctx.

(** A filled order taken from the order stream: [order.side], [order.price]
    and [order.info.tradeSide]. *)
Module Fill.
Record t := mk { side : Side; price : Q; tradeSide : string }.
End Fill.

(** The per-strategy tables of the engine. *)
Record State := mkState {
  anchorIndices : gmap string Z;
  lastAnchorResetTime : gmap string Z;
  isCloseDisabled : gmap string bool
}.

Definition getStratKey (symbol : string) (direction : GridDirection) : string :=
  symbol +:+ "_" +:+ match direction with LONG => "LONG" | SHORT => "SHORT" end.

Definition keyOf (ctx : Ctx.t) : string :=
  getStratKey (symbol (Ctx.config ctx)) (direction (Ctx.config ctx)).

(** [this.isCloseDisabled[stratKey]] used as a condition. *)
Definition closeDisabled (st : State) (stratKey : string) : bool :=
  default false (isCloseDisabled st !! stratKey).

(** [levels[idx].price]-style accesses: a [TypeError] outside the array. *)
Definition level (levels : list GridLevel) (idx : Z) : completion GridLevel :=
  match array_get levels idx with
  | Some l => Normal l
  | None => Throw TypeError
  end.

(** [appConfig.default.order_window || 1] *)
Definition windowSize (order_window : Z) : Z :=
  if order_window =? 0 then 1 else order_window.

(** The first [for] loop of the window computation, entered with counter [i]
    and [n] values of [i] left up to [windowSize]. *)
Fixpoint lowerWindow (n : nat) (i : Z) (config : GridConfig)
    (levels : list GridLevel) (anchorIndex : Z) (targets : list Target.t)
    : completion (list Target.t) :=
  match n with
  | O => Normal targets
  | S n' =>
      let idx := anchorIndex - i in
      if idx <? 0 then Normal targets
      else
        match level levels idx with
        | Throw e => Throw e
        | Normal l =>
            lowerWindow n' (i + 1) config levels anchorIndex
              (targets ++ [Target.mk (price l) (quantityPerGrid config)
                             (match direction config with LONG => open | SHORT => close end)])
        end
  end.

(** The second [for] loop. *)
Fixpoint upperWindow (n : nat) (i : Z) (config : GridConfig)
    (levels : list GridLevel) (anchorIndex : Z) (disabled : bool)
    (targets : list Target.t) : completion (list Target.t) :=
  match n with
  | O => Normal targets
  | S n' =>
      let idx := anchorIndex + i in
      if Z.of_nat (length levels) <=? idx then Normal targets
      else
        let isLongClose := bool_decide (direction config = LONG) in
        if isLongClose && disabled
        then upperWindow n' (i + 1) config levels anchorIndex disabled targets
        else
          match level levels idx with
          | Throw e => Throw e
          | Normal l =>
              upperWindow n' (i + 1) config levels anchorIndex disabled
                (targets ++ [Target.mk (price l) (quantityPerGrid config)
                               (if isLongClose then close else open)])
          end
  end.

(** The third loop, which removes elements from [targets] in place:
    [targets.splice(i, 1); i--] followed by the loop's own [i++] leaves [i]
    where it was. Every iteration removes an element or advances [i], so
    [length targets] iterations are always enough. *)
Fixpoint spliceLoop (fuel : nat) (i : nat) (config : GridConfig)
    (disabled : bool) (targets : list Target.t) : list Target.t :=
  match fuel with
  | O => targets
  | S fuel' =>
      match targets !! i with
      | None => targets
      | Some t =>
          if bool_decide (direction config = SHORT)
             && bool_decide (Target.action t = close)
          then
            if disabled
            then spliceLoop fuel' i config disabled (delete i targets)
            else spliceLoop fuel' (S i) config disabled targets
          else spliceLoop fuel' (S i) config disabled targets
      end
  end.

(** The target set built by one pass of [refreshGridOrdersByAnchor]. *)
Definition buildTargets (config : GridConfig) (levels : list GridLevel)
    (anchorIndex : Z) (order_window : Z) (disabled : bool)
    : completion (list Target.t) :=
  let n := Z.to_nat (windowSize order_window) in
  match lowerWindow n 1 config levels anchorIndex [] with
  | Throw e => Throw e
  | Normal targets =>
      match upperWindow n 1 config levels anchorIndex disabled targets with
      | Throw e => Throw e
      | Normal targets =>
          Normal (spliceLoop (length targets) 0 config disabled targets)
      end
  end.

(** The [while (retrySync)] loop of [refreshGridOrdersByAnchor], run while
    the strategy lock is held. [None] when [fuel] passes were not enough. *)
Fixpoint refreshLoop {V} (fuel : nat) (g : Gateway V) (ctx : Ctx.t)
    (order_window : Z) (st : State) (w : World V)
    : option (completion unit * State * World V) :=
  match fuel with
  | O => None
  | S fuel' =>
      let config := Ctx.config ctx in
      let stratKey := keyOf ctx in
      match anchorIndices st !! stratKey with
      | None => Some (Normal tt, st, w)
      | Some anchorIndex =>
          match buildTargets config (Ctx.levels ctx) anchorIndex order_window
                  (closeDisabled st stratKey) with
          | Throw e => Some (Throw e, st, w)
          | Normal targets =>
              match level (Ctx.levels ctx) anchorIndex with
              | Throw e => Some (Throw e, st, w)
              | Normal _ =>
                  match syncActiveOrders g (symbol config) (direction config) targets w with
                  | (Normal _, w) => Some (Normal tt, st, w)
                  | (Throw error, w) =>
                      if String.eqb (code error) "NO_POSITION" then
                        refreshLoop fuel' g ctx order_window
                          (mkState (anchorIndices st) (lastAnchorResetTime st)
                                   (<[stratKey := true]> (isCloseDisabled st)))
                          w
                      else Some (Throw error, st, w)
                  end
              end
          end
      end
  end.

(** [refreshGridOrdersByAnchor]: the loop above between [acquire()] and
    [release()]; how calls for one key take turns is the subject of
    [Scheduler] below. *)
Definition refreshGridOrdersByAnchor {V} (fuel : nat) (g : Gateway V)
    (ctx : Ctx.t) (order_window : Z) (st : State) (w : World V)
    : option (completion unit * State * World V) :=
  refreshLoop fuel g ctx order_window st w.

(** The index of whichever level of the bracket is closer to [p]. *)
Definition closerIndex (nearest : GridLevel * GridLevel) (p : Q) : Z :=
  if num_lt (Math_abs (price nearest.1 - p)) (Math_abs (price nearest.2 - p))
  then index nearest.1 else index nearest.2.

Definition isTriggeringStrat (order : Fill.t) (config : GridConfig) : bool :=
  bool_decide (Fill.side order = buy) && bool_decide (direction config = LONG)
  || bool_decide (Fill.side order = sell) && bool_decide (direction config = SHORT).

(** The anchor that the fill handler stores ([finalAnchor]). *)
Definition finalAnchor (ctx : Ctx.t) (order : Fill.t) (newAnchor : Z) : Z :=
  let config := Ctx.config ctx in
  if isTriggeringStrat order config then
    match getNearestLevels config (Ctx.levels ctx) (Fill.price order) with
    | Some filledNearest =>
        let filledIdx := closerIndex filledNearest (Fill.price order) in
        if String.eqb (Fill.tradeSide order) "open" then
          match direction config with
          | LONG => Z.max newAnchor filledIdx
          | SHORT => Z.min newAnchor filledIdx
          end
        else newAnchor
    | None => newAnchor
    end
  else newAnchor.

(** The callback that [watchOrdersLoop] runs for one related context, up to
    its call of [refreshGridOrdersByAnchor]; the boolean tells whether that
    call is made. *)
Definition onFill (ctx : Ctx.t) (order : Fill.t) (referencePrice : Q)
    (st : State) : State * bool :=
  let config := Ctx.config ctx in
  let stratKey := keyOf ctx in
  match getNearestLevels config (Ctx.levels ctx) referencePrice with
  | None => (st, false)
  | Some nearest =>
      let newAnchor := closerIndex nearest referencePrice in
      let oldAnchor := anchorIndices st !! stratKey in
      let final := finalAnchor ctx order newAnchor in
      let st := mkState (<[stratKey := final]> (anchorIndices st))
                        (lastAnchorResetTime st) (isCloseDisabled st) in
      if negb (bool_decide (oldAnchor = Some newAnchor)) || isTriggeringStrat order config
      then
        let st :=
          if isTriggeringStrat order config && closeDisabled st stratKey
          then mkState (anchorIndices st) (lastAnchorResetTime st)
                       (<[stratKey := false]> (isCloseDisabled st))
          else st in
        (st, true)
      else (st, false)
  end.

(** [currentGridDiff] of [watchTickerLoop]. *)
Definition currentGridDiff (levels : list GridLevel) (anchorIdx : Z) : completion Q :=
  let diff (hi lo : Z) : completion Q :=
    match level levels hi with
    | Throw e => Throw e
    | Normal h =>
        match level levels lo with
        | Throw e => Throw e
        | Normal l => Normal (price h - price l)%Q
        end
    end in
  if anchorIdx <? Z.of_nat (length levels) - 1 then diff (anchorIdx + 1) anchorIdx
  else if 0 <? anchorIdx then diff anchorIdx (anchorIdx - 1)
  else diff 1 0.

(** One pass of the [try] block of [watchTickerLoop] for a ticker whose last
    price is [currentPrice], [now] being the reading of [Date.now()]. The
    boolean tells whether the anchor was reset (and a refresh requested). *)
Definition onTicker (ctx : Ctx.t) (currentPrice : Q) (now : Z) (st : State)
    : completion (State * bool) :=
  let config := Ctx.config ctx in
  let levels := Ctx.levels ctx in
  let stratKey := keyOf ctx in
  match anchorIndices st !! stratKey with
  | None => Normal (st, false)
  | Some anchorIdx =>
      match level levels anchorIdx with
      | Throw e => Throw e
      | Normal anchorLevel =>
          let anchorPrice := price anchorLevel in
          match level levels 1 with
          | Throw e => Throw e
          | Normal _ =>
              match currentGridDiff levels anchorIdx with
              | Throw e => Throw e
              | Normal diff =>
                  let threshold := (diff * 2)%Q in
                  if num_gt (Math_abs (currentPrice - anchorPrice)) threshold then
                    let lastReset := default 0 (lastAnchorResetTime st !! stratKey) in
                    if now - lastReset <? 5000 then Normal (st, false)
                    else
                      match getNearestLevels config levels currentPrice with
                      | None => Normal (st, false)
                      | Some nearest =>
                          let newAnchor := closerIndex nearest currentPrice in
                          if negb (newAnchor =? anchorIdx) then
                            Normal (mkState (<[stratKey := newAnchor]> (anchorIndices st))
                                            (<[stratKey := now]> (lastAnchorResetTime st))
                                            (isCloseDisabled st), true)
                          else Normal (st, false)
                      end
                  else Normal (st, false)
              end
          end
      end
  end.

(** What the two event loops feed to the engine. *)
Inductive Event :=
| TickerEvent (ctx : Ctx.t) (currentPrice : Q) (now : Z)
| FillEvent (ctx : Ctx.t) (order : Fill.t) (referencePrice : Q).

(** A drift reset: the strategy key and the clock reading it recorded. *)
Definition Reset : Type := string * Z.

(** The engine state after an event, and the drift reset it caused, if any.
    An exception in the ticker pass is logged by the loop's [catch]. *)
Definition step (st : State) (ev : Event) : State * list Reset :=
  match ev with
  | TickerEvent ctx currentPrice now =>
      match onTicker ctx currentPrice now st with
      | Normal (st', true) => (st', [(keyOf ctx, now)])
      | Normal (st', false) => (st', [])
      | Throw _ => (st, [])
      end
  | FillEvent ctx order referencePrice => ((onFill ctx order referencePrice st).1, [])
  end.

Fixpoint run (st : State) (evs : list Event) : State * list Reset :=
  match evs with
  | [] => (st, [])
  | ev :: rest =>
      let '(st1, r1) := step st ev in
      let '(st2, r2) := run st1 rest in
      (st2, r1 ++ r2)
  end.

(** What the in-place removal of the third loop keeps. *)
Definition kept (config : GridConfig) (disabled : bool) (t : Target.t) : Prop :=
  ~ (direction config = SHORT /\ Target.action t = close /\ disabled = true).

#[global] Instance kept_dec config disabled t : Decision (kept config disabled t).
Proof. unfold kept. apply _. Defined.

(** [lastAnchorResetTime[stratKey] || 0] *)
Definition lastReset (st : State) (key : string) : Z :=
  default 0 (lastAnchorResetTime st !! key).

(** Any two drift resets of one strategy are at least 5000 ms apart. *)
Definition spaced (resets : list Reset) : Prop :=
  forall i j key t1 t2, (i < j)%nat ->
    resets !! i = Some (key, t1) -> resets !! j = Some (key, t2) -> t1 + 5000 <= t2.


(** The local spacing in the words of the specification: the distance from
    the anchor level to its neighbour in the direction of travel, or to its
    only neighbour at a boundary of the ladder. *)
Definition spacingTowards (levels : list GridLevel) (anchorIdx : Z)
    (tickerPrice : Q) : option Q :=
  anchor ← array_get levels anchorIdx;
  let up := (fun a => price a - price anchor)%Q <$> array_get levels (anchorIdx + 1) in
  let down := (fun b => price anchor - price b)%Q <$> array_get levels (anchorIdx - 1) in
  if num_lt (price anchor) tickerPrice
  then match up with Some d => Some d | None => down end
  else match down with Some d => Some d | None => up end.

End BotEngine.

(** The action of the targets below the anchor and above it. *)
Definition lowerAction (config : GridConfig) : Action :=
  match direction config with LONG => open | SHORT => close end.
Definition upperAction (config : GridConfig) : Action :=
  match direction config with LONG => close | SHORT => open end.

(** ** The engine as a whole: start-up and the two event loops *)

Module Engine.

Import GridContext OrderExecutor BotEngine.

(** [initialPositioning]: [ticker] is the outcome of the [fetchTicker] call,
    holding [ticker.last]. The anchor is the [index] of the lower level of
    the bracket. *)
Definition initialPositioning {V} (fuel : nat) (g : Gateway V) (ctx : Ctx.t)
    (order_window : Z) (ticker : completion Q) (st : State) (w : World V)
    : option (completion unit * State * World V) :=
  match ticker with
  | Throw e => Some (Throw e, st, w)
  | Normal currentPrice =>
      match getNearestLevels (Ctx.config ctx) (Ctx.levels ctx) currentPrice with
      | None => Some (Normal tt, st, w)
      | Some nearest =>
          let st := mkState (<[keyOf ctx := index nearest.1]> (anchorIndices st))
                            (lastAnchorResetTime st) (isCloseDisabled st) in
          refreshGridOrdersByAnchor fuel g ctx order_window st w
      end
  end.

(** What the engine reacts to: the start-up of a strategy, a ticker of its
    price loop (which runs only while [auto_initial_position] is off), a
    fill taken from the order stream, for one of the contexts it relates
    to. *)
Inductive Input :=
| Boot (ctx : Ctx.t) (ticker : completion Q)
| Ticker (ctx : Ctx.t) (currentPrice : Q) (now : Z)
| Filled (ctx : Ctx.t) (order : Fill.t) (referencePrice : Q).

Definition ctxOf (i : Input) : Ctx.t :=
  match i with Boot ctx _ | Ticker ctx _ _ | Filled ctx _ _ => ctx end.

(** A refresh called from inside one of the event loops: whatever it throws
    is logged by the [catch] of the loop. *)
Definition refreshCaught {V} (fuel : nat) (g : Gateway V) (ctx : Ctx.t)
    (order_window : Z) (st : State) (w : World V)
    : option (completion unit * State * World V) :=
  match refreshGridOrdersByAnchor fuel g ctx order_window st w with
  | Some (_, st, w) => Some (Normal tt, st, w)
  | None => None
  end.

(** The reaction to one input, inputs being handled one after the other.
    An exception during start-up propagates out of [start]; one inside an
    event loop is logged by the loop. *)
Definition react {V} (fuel : nat) (g : Gateway V) (order_window : Z)
    (i : Input) (st : State) (w : World V)
    : option (completion unit * State * World V) :=
  match i with
  | Boot ctx ticker => initialPositioning fuel g ctx order_window ticker st w
  | Ticker ctx currentPrice now =>
      match onTicker ctx currentPrice now st with
      | Throw _ => Some (Normal tt, st, w)
      | Normal (st, false) => Some (Normal tt, st, w)
      | Normal (st, true) => refreshCaught fuel g ctx order_window st w
      end
  | Filled ctx order referencePrice =>
      match onFill ctx order referencePrice st with
      | (st, true) => refreshCaught fuel g ctx order_window st w
      | (st, false) => Some (Normal tt, st, w)
      end
  end.

(** A run of the engine: it ends with the first exception that start-up
    lets through. *)
Fixpoint runAll {V} (fuel : nat) (g : Gateway V) (order_window : Z)
    (inputs : list Input) (st : State) (w : World V)
    : option (completion unit * State * World V) :=
  match inputs with
  | [] => Some (Normal tt, st, w)
  | i :: rest =>
      match react fuel g order_window i st w with
      | Some (Normal _, st, w) => runAll fuel g order_window rest st w
      | other => other
      end
  end.

(** The engine before [start]. *)
Definition fresh : State := mkState ∅ ∅ ∅.

(** The anchor of a strategy, when set, is a position of its ladder, and
    the ladder has the two levels that the drift handler reads. *)
Definition anchored (ctx : Ctx.t) (st : State) : Prop :=
  forall a, anchorIndices st !! keyOf ctx = Some a ->
    (2 <= length (Ctx.levels ctx))%nat /\ 0 <= a < Z.of_nat (length (Ctx.levels ctx)).

(** An input after which the engine is as before: a ticker of a price loop
    before any anchor is set, or a start-up at a price for which the ladder
    has no nearest levels. *)
Definition quiet (i : Input) : Prop :=
  match i with
  | Boot ctx (Normal p) => getNearestLevels (Ctx.config ctx) (Ctx.levels ctx) p = None
  | Boot _ (Throw _) => False
  | Ticker _ _ _ => True
  | Filled _ _ _ => False
  end.

End Engine.

(** ** Single orders, start-up position and shutdown *)

(** The arguments of one [createOrder] call: a limit order carries a price
    and a [timeInForce], a market order neither. *)
Module NewOrder.
Record t := mk {
  symbol : string;
  type : string;
  side : Side;
  amount : Q;
  price : option Q;
  tradeSide : Action;
  timeInForce : option string
}.
End NewOrder.

(** An entry of [fetchPositions]: [p.symbol], [p.side] and [p.contracts]
    ([None] when the field is missing). *)
Module Position.
Record t := mk {
  symbol : string;
  side : string;
  contracts : option Q
}.
End Position.

(** What is read of a [fetchBalance] answer: [balance["USDT"]], when
    present, with its [total], and [balance.total["USDT"]]. *)
Module Balance.
Record t := mk {
  usdt : option (option Q);
  totalUsdt : option Q
}.
End Balance.

(** The calls of the exchange client that the reconciliation does not use,
    over a venue state [V]. *)
Module Client.

Inductive Call :=
| CreateOrder (o : NewOrder.t)
| CancelAllOrders (symbol : string)
| FlashClosePositions (marketId : string)
| FetchPositions (symbols : list string)
| FetchTicker (symbol : string)
| FetchBalance.

(** [market] is the lookup [client.market(symbol)] in the markets loaded at
    start-up, answering with the market's [id]; [fetchTicker] answers with
    [ticker.last]. *)
Record t (V : Type) := mk {
  createOrder : NewOrder.t -> V -> completion Order.t * V;
  cancelAllOrders : string -> V -> completion unit * V;
  market : string -> completion (option string);
  flashClosePositions : string -> V -> completion unit * V;
  fetchPositions : list string -> V -> completion (list Position.t) * V;
  fetchTicker : string -> V -> completion Q * V;
  fetchBalance : V -> completion Balance.t * V
}.
Arguments createOrder {V}.
Arguments cancelAllOrders {V}.
Arguments market {V}.
Arguments flashClosePositions {V}.
Arguments fetchPositions {V}.
Arguments fetchTicker {V}.
Arguments fetchBalance {V}.

(** The orders that a sequence of calls asks the venue to create. *)
Definition created (calls : list Call) : list NewOrder.t :=
  omap (fun c => match c with CreateOrder o => Some o | _ => None end) calls.

(** The venue and the calls sent to it so far. *)
Record Desk (V : Type) := mkDesk { venue : V; sent : list Call }.
Arguments mkDesk {V}.
Arguments venue {V}.
Arguments sent {V}.

Definition send {V A} (c : Call) (f : V -> completion A * V) (d : Desk V)
    : completion A * Desk V :=
  let '(r, v) := f (venue d) in
  (r, mkDesk v (sent d ++ [c])).

End Client.

(** The methods of [OrderExecutor] that send one call. *)
Module Orders.

Import JsString Client.

(** [placeGridOrder]: the order, [null] when the venue cancelled a post-only
    order, or the venue's error, tagged NO_POSITION when it says so. *)
Definition placeGridOrder {V} (cl : Client.t V) (symbol : string) (price amount : Q)
    (direction : GridDirection) (action : Action) (d : Desk V)
    : completion (option Order.t) * Desk V :=
  let side := match direction with LONG => buy | SHORT => sell end in
  let order := NewOrder.mk symbol "limit" side amount (Some price) action (Some "post_only") in
  match send (CreateOrder order) (createOrder cl order) d with
  | (Normal order, d) => (Normal (Some order), d)
  | (Throw error, d) =>
      if includes (message error) "Post only order" || includes (message error) "post_only"
      then (Normal None, d)
      else if includes (message error) "22002"
              || includes (message error) "No position to close"
      then (Throw (mkError (message error) "NO_POSITION"), d)
      else (Throw error, d)
  end.

(** [placeMarketOrder]: a market order that opens; an error is rethrown. *)
Definition placeMarketOrder {V} (cl : Client.t V) (symbol : string) (side : Side)
    (amount : Q) (d : Desk V) : completion Order.t * Desk V :=
  let order := NewOrder.mk symbol "market" side amount None open None in
  send (CreateOrder order) (createOrder cl order) d.

(** [cancelAllOrders]: an error is logged and dropped. *)
Definition cancelAllOrders {V} (cl : Client.t V) (symbol : string) (d : Desk V) : Desk V :=
  (send (CancelAllOrders symbol) (Client.cancelAllOrders cl symbol) d).2.

(** [ExchangeManager.getMarket] followed by [.id]. The message is the
    UTF-8 text of the source. *)
Definition getMarket {V} (cl : Client.t V) (symbol : string) : completion string :=
  match market cl symbol with
  | Throw e => Throw e
  | Normal None => Throw (mkError ("未找到交易对信息: " +:+ symbol) "")
  | Normal (Some id) => Normal id
  end.

(** [flashClosePositions]: every error, that of the market lookup
    included, is logged and dropped. *)
Definition flashClosePositions {V} (cl : Client.t V) (symbol : string) (d : Desk V)
    : Desk V :=
  match getMarket cl symbol with
  | Throw _ => d
  | Normal id => (send (FlashClosePositions id) (Client.flashClosePositions cl id) d).2
  end.

End Orders.

Module Lifecycle.

Import GridContext BotEngine Orders.

(** How a call of [checkAndBuildInitialPosition] ends: it returns, it ends
    the process with [process.exit(0)], or it throws. *)
Inductive Ending :=
| Returned
| Exited
| Threw (e : JsError).

(** The two counting loops: one [quantityPerGrid] for every level priced
    above (LONG) or below (SHORT) the current price. *)
Definition requiredQty (config : GridConfig) (levels : list GridLevel) (currentPrice : Q) : Q :=
  fold_left
    (fun requiredQty level =>
       if match direction config with
          | LONG => num_gt (price level) currentPrice
          | SHORT => num_lt (price level) currentPrice
          end
       then (requiredQty + quantityPerGrid config)%Q else requiredQty)
    levels 0%Q.

(** A level priced beyond the current price: above it for a LONG strategy,
    below it for a SHORT one. *)
Definition beyond (config : GridConfig) (currentPrice : Q) (l : GridLevel) : Prop :=
  match direction config with
  | LONG => (currentPrice < price l)%Q
  | SHORT => (price l < currentPrice)%Q
  end.

#[global] Instance beyond_dec config currentPrice l : Decision (beyond config currentPrice l).
Proof.
  unfold beyond. destruct (direction config).
  - destruct (Qlt_le_dec currentPrice (price l)); [by left|right; lra].
  - destruct (Qlt_le_dec (price l) currentPrice); [by left|right; lra].
Defined.

(** [balance["USDT"] ? balance["USDT"].total : balance.total["USDT"] || 0];
    [None] is [undefined]. *)
Definition equityOf (balance : Balance.t) : option Q :=
  match Balance.usdt balance with
  | Some total => total
  | None =>
      match Balance.totalUsdt balance with
      | Some x => if Qeq_bool x 0 then Some 0%Q else Some x
      | None => Some 0%Q
      end
  end.

(** [positions.find(p => p.symbol === config.symbol && p.side === targetSide)]:
    the first position of the strategy's symbol and side. *)
Definition existingPosition (config : GridConfig) (positions : list Position.t)
    : option Position.t :=
  let targetSide := match direction config with LONG => "long" | SHORT => "short" end in
  snd <$> list_find (fun p => String.eqb (Position.symbol p) (symbol config)
                              && String.eqb (Position.side p) targetSide = true)
                    positions.

(** [existingPosition && existingPosition.contracts > 0]. *)
Definition hasPosition (config : GridConfig) (positions : list Position.t) : bool :=
  match existingPosition config positions with
  | Some p => match Position.contracts p with Some c => num_gt c 0 | None => false end
  | None => false
  end.

(** [checkAndBuildInitialPosition]. [confirm] is the answer that
    [askConfirmation] resolves to, should the question be asked. *)
Definition checkAndBuildInitialPosition {V} (cl : Client.t V)
    (auto_initial_position : bool) (confirm : bool) (ctx : Ctx.t) (d : Client.Desk V)
    : Ending * Client.Desk V :=
  if negb auto_initial_position then (Returned, d)
  else
    let config := Ctx.config ctx in
    match Client.send (Client.FetchPositions [symbol config])
                      (Client.fetchPositions cl [symbol config]) d with
    | (Throw _, d) => (Returned, d)
    | (Normal positions, d) =>
        if hasPosition config positions then (Returned, d)
        else
          match Client.send (Client.FetchTicker (symbol config))
                            (Client.fetchTicker cl (symbol config)) d with
          | (Throw e, d) => (Threw e, d)
          | (Normal currentPrice, d) =>
              let requiredQty := requiredQty config (Ctx.levels ctx) currentPrice in
              if num_le requiredQty 0 then (Returned, d)
              else
                match Client.send Client.FetchBalance (Client.fetchBalance cl) d with
                | (Throw e, d) => (Threw e, d)
                | (Normal balance, d) =>
                    let equity := equityOf balance in
                    let leverage :=
                      if Qeq_bool (leverage config) 0 then 1%Q else leverage config in
                    let positionValue := (requiredQty * currentPrice)%Q in
                    let threshold := (fun equity => equity * leverage / 2)%Q <$> equity in
                    let exceeds :=
                      match threshold with
                      | Some threshold => num_gt positionValue threshold
                      | None => false
                      end in
                    if exceeds && negb confirm then (Exited, d)
                    else
                      let side := match direction config with LONG => buy | SHORT => sell end in
                      match placeMarketOrder cl (symbol config) side requiredQty d with
                      | (Normal _, d) => (Returned, d)
                      | (Throw e, d) => (Threw e, d)
                      end
                end
          end
    end.

(** The body of the loop of [stop] for one context. *)
Definition stopOne {V} (cl : Client.t V) (cancel_all_on_stop close_all_on_stop : bool)
    (acc : list string * Client.Desk V) (ctx : Ctx.t) : list string * Client.Desk V :=
  let '(processedSymbols, d) := acc in
  let symbol := symbol (Ctx.config ctx) in
  if bool_decide (symbol ∈ processedSymbols) then (processedSymbols, d)
  else
    let d := if cancel_all_on_stop then cancelAllOrders cl symbol d else d in
    let d := if close_all_on_stop then flashClosePositions cl symbol d else d in
    (processedSymbols ++ [symbol], d).

(** [stop]: the clean-up over [gridContexts], after [isRunning] is
    cleared. *)
Definition stop {V} (cl : Client.t V) (cancel_all_on_stop close_all_on_stop : bool)
    (gridContexts : list Ctx.t) (d : Client.Desk V) : Client.Desk V :=
  (fold_left (stopOne cl cancel_all_on_stop close_all_on_stop) gridContexts ([], d)).2.

(** The calls that [stop] sends for one symbol. *)
Definition stopCalls {V} (cl : Client.t V) (cancel_all_on_stop close_all_on_stop : bool)
    (symbol : string) : list Client.Call :=
  (if cancel_all_on_stop then [Client.CancelAllOrders symbol] else [])
  ++ (if close_all_on_stop
      then match getMarket cl symbol with
           | Normal id => [Client.FlashClosePositions id]
           | Throw _ => []
           end
      else []).

End Lifecycle.


(** ** Interleaving of refreshes

    The engine runs on one JavaScript thread: a call of
    [refreshGridOrdersByAnchor] runs undisturbed between two [await]s, and
    calls started by different event loops interleave at their [await]s.
    A call is therefore a task that moves through the control points below;
    [stratLocks] maps a strategy key to the state of its [Mutex] (an entry
    that [getLock] has not created yet counts as unlocked, and [getLock]
    itself has no [await]). *)
Module Scheduler.

Inductive Point :=
| Acquiring   (* awaiting [getLock(stratKey).acquire()] *)
| Building    (* lock held; at the head of [while (retrySync)] *)
| Syncing     (* lock held; awaiting [syncActiveOrders] *)
| Released.   (* after [release()] in the [finally] block *)

#[global] Instance Point_eq_dec : EqDecision Point.
Proof. solve_decision. Defined.

(** What called [refreshGridOrdersByAnchor]. *)
Inductive Trigger :=
| Startup     (* [initialPositioning] *)
| OnFill      (* the callback of [watchOrdersLoop] *)
| OnDrift.    (* [watchTickerLoop] *)

Record Task := mkTask { source : Trigger; stratKey : string; point : Point }.

Record System := mkSystem {
  stratLocks : gmap string bool;
  tasks : list Task
}.

(** [isLocked()] of the mutex of a key. *)
Definition locked (s : System) (key : string) : bool :=
  default false (stratLocks s !! key).

(** The task is between [acquire()] and [release()]. *)
Definition holding (t : Task) : Prop := point t = Building \/ point t = Syncing.

Definition moveTo (s : System) (i : nat) (src : Trigger) (key : string)
    (p : Point) (lock : option bool) : System :=
  mkSystem (match lock with
            | Some b => <[key := b]> (stratLocks s)
            | None => stratLocks s
            end)
           (<[i := mkTask src key p]> (tasks s)).

Inductive step (s : System) : System -> Prop :=
| step_trigger src key :
    (* an event loop calls [refreshGridOrdersByAnchor] *)
    step s (mkSystem (stratLocks s) (tasks s ++ [mkTask src key Acquiring]))
| step_acquire i src key :
    (* [acquire()] resolves: the mutex was free and is now taken *)
    tasks s !! i = Some (mkTask src key Acquiring) -> locked s key = false ->
    step s (moveTo s i src key Building (Some true))
| step_sync i src key :
    (* the targets are built and [syncActiveOrders] is called *)
    tasks s !! i = Some (mkTask src key Building) ->
    step s (moveTo s i src key Syncing None)
| step_leave i src key :
    (* [break] on a missing anchor, or an exception: [finally] releases *)
    tasks s !! i = Some (mkTask src key Building) ->
    step s (moveTo s i src key Released (Some false))
| step_retry i src key :
    (* [syncActiveOrders] threw NO_POSITION: [retrySync = true] *)
    tasks s !! i = Some (mkTask src key Syncing) ->
    step s (moveTo s i src key Building None)
| step_finish i src key :
    (* [syncActiveOrders] returned, or threw another error: [finally] releases *)
    tasks s !! i = Some (mkTask src key Syncing) ->
    step s (moveTo s i src key Released (Some false)).

Definition initial : System := mkSystem ∅ [].

Definition reachable (s : System) : Prop := rtc step initial s.

(** At most one task holds the lock of a key, and the mutex of a key that is
    held is locked. *)
Definition exclusive (s : System) : Prop :=
  (forall i j ti tj, tasks s !! i = Some ti -> tasks s !! j = Some tj ->
     holding ti -> holding tj -> stratKey ti = stratKey tj -> i = j) /\
  (forall i t, tasks s !! i = Some t -> holding t -> locked s (stratKey t) = true).

(** A mutex that is taken is held by some call: no lock is left behind. *)
Definition tight (s : System) : Prop :=
  forall key, locked s key = true ->
    exists i t, tasks s !! i = Some t /\ stratKey t = key /\ holding t.

End Scheduler.

(** ** Venues and concrete inputs *)

(** A strategy on the band [lower, upper]. *)
Definition demoConfig (lower upper spread : Q) : GridConfig :=
  mkConfig "SOL/USDT:USDT" LONG 10 upper lower spread 1.

(** A runtime that prints and parses integers in decimal; it is exact on
    integer-valued numbers, the only ones it is applied to below. *)
Definition decimalRuntime : JsRuntime := {|
  num_toString q := NilZero.string_of_int (Z.to_int (Qnum q));
  int_toString z := NilZero.string_of_int (Z.to_int z);
  js_Number s := (fun i => inject_Z (Z.of_int i)) <$> NilZero.int_of_string s;
  js_parseFloat s := (fun i => inject_Z (Z.of_int i)) <$> NilZero.int_of_string s;
  js_parseInt s := Z.of_int <$> NilZero.int_of_string s
|}.

(** A venue with no resting order that rejects every batch create with the
    exchange's "no position" error. *)
Definition noPositionVenue : Gateway unit := {|
  fetchOpenOrders _ v := (Normal [], v);
  cancelOrders _ _ v := (Normal tt, v);
  cancelOrder _ _ v := (Normal tt, v);
  createOrders _ v := (Throw (mkError "bitget 22002 No position to close" ""), v)
|}.

Definition emptyWorld {V} (v : V) : OrderExecutor.World V :=
  OrderExecutor.mkWorld ∅ v [].

(** A venue that executes every batch it is sent: a cancel removes the
    orders with the given ids, a create rests one order per request, after
    the orders already resting, under a fresh id. *)
Module Venue.

Record t := mk { resting : list Order.t; nextId : nat }.

Definition place (n : nat) (r : Request.t) : Order.t :=
  Order.mk (pretty n) (Request.price r) (Request.side r)
    (match Request.side r with buy => "long" | sell => "short" end)
    (Action_tag (Request.tradeSide r)).

Definition ideal : Gateway t := {|
  fetchOpenOrders _ v := (Normal (resting v), v);
  cancelOrders ids _ v :=
    (Normal tt, mk (filter (fun o => Order.id o ∉ ids) (resting v)) (nextId v));
  cancelOrder id _ v :=
    (Normal tt, mk (filter (fun o => Order.id o ≠ id) (resting v)) (nextId v));
  createOrders batch v :=
    let new := imap (fun i r => place (nextId v + i) r) batch in
    (Normal (Some new), mk (resting v ++ new) (nextId v + length batch))
|}.

End Venue.

(** The orders of a venue that belong to a strategy. *)
Definition strategyOrders (direction : GridDirection) (v : Venue.t) : list Order.t :=
  filter (fun o => OrderExecutor.ofStrategy direction o = true) (Venue.resting v).

(** The venue before anything was placed. *)
Definition emptyVenue : Venue.t := Venue.mk [] 0.

(** The context of a strategy whose ladder was built with tick size 1. *)
Definition demoCtx (fuel : nat) (config : GridConfig) : BotEngine.Ctx.t :=
  BotEngine.Ctx.mk config (default [] (GridContext.calculateLevels fuel config 1)).

(** An engine that tracks one strategy, anchored at [anchorIndex]. *)
Definition anchoredAt (ctx : BotEngine.Ctx.t) (anchorIndex : Z) : BotEngine.State :=
  BotEngine.mkState {[ BotEngine.keyOf ctx := anchorIndex ]} ∅ ∅.

(** A client for one account whose calls all succeed: it holds no position,
    quotes [last] and reports an equity of [equity] in [balance.total]. *)
Definition paperClient (last equity : Q) : Client.t unit := {|
  Client.createOrder o v :=
    (Normal (Order.mk "1" (default 0%Q (NewOrder.price o)) (NewOrder.side o) ""
               (Action_tag (NewOrder.tradeSide o))), v);
  Client.cancelAllOrders _ v := (Normal tt, v);
  Client.market s := Normal (Some s);
  Client.flashClosePositions _ v := (Normal tt, v);
  Client.fetchPositions _ v := (Normal [], v);
  Client.fetchTicker _ v := (Normal last, v);
  Client.fetchBalance v := (Normal (Balance.mk None (Some equity)), v)
|}.

(** * Properties *)

(** ** The ladder: rounding, the loop and its running price *)

Section LadderFacts.
Import GridContext.

Lemma Math_round_upper (x : Q) : (Math_round x <= x + (1#2))%Q.
Proof. unfold Math_round. apply Qfloor_le. Qed.

Lemma Math_round_lower (x : Q) : (x - (1#2) < Math_round x)%Q.
Proof.
  unfold Math_round.
  pose proof (Qlt_floor (x + (1#2))) as H.
  rewrite inject_Z_plus in H. change (inject_Z 1) with 1%Q in H.
  set (f := inject_Z _) in *. lra.
Qed.

Lemma Math_round_mono (x y : Q) : (x <= y)%Q -> (Math_round x <= Math_round y)%Q.
Proof.
  intros H. unfold Math_round. rewrite <- Zle_Qle.
  apply Qfloor_resp_le. lra.
Qed.

Lemma Math_round_step (x y : Q) : (x + 1 <= y)%Q -> (Math_round x < Math_round y)%Q.
Proof.
  intros H.
  pose proof (Math_round_upper x). pose proof (Math_round_lower y).
  unfold Math_round in *. rewrite <- Zlt_Qlt.
  set (a := Qfloor (x + _)) in *. set (b := Qfloor (y + _)) in *.
  destruct (Z_lt_le_dec a b) as [Hlt|Hle]; [exact Hlt|].
  rewrite Zle_Qle in Hle.
  lra.
Qed.

Lemma roundToTick_eq (t p : Q) : (0 < t)%Q -> (roundToTick t p == Math_round (p * (1 / t)) * t)%Q.
Proof. intros H. unfold roundToTick. cbv zeta. field. lra. Qed.

Lemma roundToTick_near (t p : Q) : (0 < t)%Q -> (Qabs (roundToTick t p - p) <= t * (1 # 2))%Q.
Proof.
  intros H. rewrite roundToTick_eq by done.
  pose proof (Math_round_upper (p * (1/t))) as Hu.
  pose proof (Math_round_lower (p * (1/t))) as Hl.
  set (r := Math_round _) in *.
  assert (E : (p == (p * (1/t)) * t)%Q) by (field; lra).
  set (q := (p * (1/t))%Q) in *.
  clearbody r q.
  assert (0 <= (q + (1#2) - r) * t)%Q by (apply Qmult_le_0_compat; lra).
  assert (0 <= (r - (q - (1#2))) * t)%Q by (apply Qmult_le_0_compat; lra).
  apply Qabs_case; intros; lra.
Qed.

Lemma roundToTick_mono (t p q : Q) :
  (0 < t)%Q -> (p <= q)%Q -> (roundToTick t p <= roundToTick t q)%Q.
Proof.
  intros Ht Hpq. rewrite !roundToTick_eq by done.
  apply Qmult_le_compat_r; [|lra].
  apply Math_round_mono.
  apply Qmult_le_compat_r; [done|].
  apply Qlt_le_weak, Qlt_shift_div_l; lra.
Qed.

Lemma roundToTick_step (t p q : Q) :
  (0 < t)%Q -> (p + t <= q)%Q -> (roundToTick t p < roundToTick t q)%Q.
Proof.
  intros Ht Hpq. rewrite !roundToTick_eq by done.
  apply Qmult_lt_compat_r; [done|].
  apply Math_round_step.
  assert (E : (p * (1 / t) + 1 == (p + t) * (1 / t))%Q) by (field; lra).
  rewrite E. apply Qmult_le_compat_r; [done|].
  apply Qlt_le_weak, Qlt_shift_div_l; lra.
Qed.

Lemma runningPrice_shift (c s : Q) (k : nat) :
  runningPrice (c * (1 + s)) s k = runningPrice c s (S k).
Proof. induction k as [|k IH]; [done|]. simpl in *. by rewrite IH. Qed.

Lemma pushed_S t c s i n :
  pushed t c s i (S n) =
  mkLevel (i + 1) (roundToTick t (c * (1 + s))) "" "" :: pushed t (c * (1 + s))%Q s (i + 1) n.
Proof.
  unfold pushed. rewrite <- cons_seq. cbn [map]. f_equal.
  rewrite <- seq_shift, map_map. apply map_ext. intros k.
  rewrite runningPrice_shift. f_equal. lia.
Qed.

Lemma loop_inv fuel upper s t : forall c i acc r,
  calculateLevels_loop fuel upper s t c i acc = Some r ->
  exists n, (n <= fuel)%nat /\
    (forall k, (k < n)%nat -> (runningPrice c s k < upper)%Q) /\
    (upper <= runningPrice c s n)%Q /\
    r = acc ++ pushed t c s i n.
Proof.
  induction fuel as [|fuel IH]; intros c i acc r; simpl.
  - destruct (Qlt_le_dec c upper); [done|]. intros [= <-].
    exists 0%nat. split_and!; [lia| intros; lia | done | by rewrite app_nil_r].
  - destruct (Qlt_le_dec c upper) as [Hlt|Hge].
    + intros H. apply IH in H as (n & Hn & Hbelow & Hstop & ->).
      exists (S n). split_and!.
      * lia.
      * intros [|k] Hk; [done|]. rewrite <- runningPrice_shift. apply Hbelow. lia.
      * by rewrite <- runningPrice_shift.
      * rewrite pushed_S, <- app_assoc. done.
    + intros [= <-]. exists 0%nat.
      split_and!; [lia| intros; lia | done | by rewrite app_nil_r].
Qed.




Lemma runningPrice_bernoulli (lower s : Q) (n : nat) :
  (0 < lower)%Q -> (0 <= s)%Q ->
  (lower * (1 + inject_Z (Z.of_nat n) * s) <= runningPrice lower s n)%Q.
Proof.
  intros Hl Hs. induction n as [|n IH].
  - change (lower * (1 + 0 * s) <= lower)%Q. lra.
  - rewrite Nat2Z.inj_succ, <- Z.add_1_r, inject_Z_plus.
    change (inject_Z 1) with 1%Q. cbn [runningPrice].
    set (m := inject_Z (Z.of_nat n)) in *.
    assert (0 <= m)%Q by (subst m; change 0%Q with (inject_Z 0); rewrite <- Zle_Qle; lia).
    set (r := runningPrice lower s n) in *. clearbody r m.
    assert (0 <= lower * m * s * s)%Q by (repeat apply Qmult_le_0_compat; lra).
    assert (0 <= (r - lower * (1 + m * s)) * (1 + s))%Q by (apply Qmult_le_0_compat; lra).
    lra.
Qed.

Lemma runningPrice_pos (lower s : Q) (n : nat) :
  (0 < lower)%Q -> (0 <= s)%Q -> (0 < runningPrice lower s n)%Q.
Proof.
  intros Hl Hs. pose proof (runningPrice_bernoulli lower s n Hl Hs) as H.
  set (m := inject_Z (Z.of_nat n)) in *.
  assert (0 <= m)%Q by (subst m; change 0%Q with (inject_Z 0); rewrite <- Zle_Qle; lia).
  assert (0 <= lower * (m * s))%Q by (repeat apply Qmult_le_0_compat; lra).
  lra.
Qed.

Lemma runningPrice_nonpos (lower s : Q) (n : nat) :
  (lower <= 0)%Q -> (0 <= s)%Q -> (runningPrice lower s n <= lower)%Q.
Proof.
  intros Hl Hs. induction n as [|n IH]; simpl; [lra|].
  set (r := runningPrice lower s n) in *. clearbody r.
  assert (0 <= (- r) * s)%Q by (apply Qmult_le_0_compat; lra). lra.
Qed.



(** What a finished run of [calculateLevels] looks like. *)
Lemma calculateLevels_inv fuel config t r :
  calculateLevels fuel config t = Some r ->
  exists n, (n <= fuel)%nat /\
    (forall k, (k < n)%nat -> (runningPrice (lowerPrice config) (gridSpread config) k < upperPrice config)%Q) /\
    (upperPrice config <= runningPrice (lowerPrice config) (gridSpread config) n)%Q /\
    r = map (levelAt (lowerPrice config) (gridSpread config) t) (seq 0 (S n)).
Proof.
  unfold calculateLevels. intros H.
  apply loop_inv in H as (n & Hn & Hbelow & Hstop & ->).
  exists n. split_and!; try done.
Qed.

Lemma calculateLevels_lookup lower s t n i l :
  map (levelAt lower s t) (seq 0 n) !! i = Some l ->
  (i < n)%nat /\ l = levelAt lower s t i.
Proof.
  rewrite list_lookup_fmap. intros H.
  destruct (seq 0 n !! i) as [k|] eqn:E; [|done].
  apply lookup_seq in E as [-> ?]. simpl in H. by inversion H.
Qed.



Lemma calculateLevels_single config t fuel :
  (upperPrice config <= lowerPrice config)%Q ->
  calculateLevels fuel config t =
    Some [mkLevel 0 (roundToTick t (lowerPrice config)) "" ""].
Proof.
  intros H. unfold calculateLevels.
  destruct fuel; simpl; destruct (Qlt_le_dec _ _); (done || lra).
Qed.

(** C4, counterexample. With [upperPrice = 1 <= lowerPrice = 2] the claim
    asks for a [ConfigError]; [calculateLevels] returns a ladder instead: the
    loop condition fails at once and the single level pushed before the loop
    is the result. *)
Lemma calculateLevels_inverted_band_builds :
  let config := demoConfig 2 1 (1 # 8) in
  (upperPrice config <= lowerPrice config)%Q /\
  exists level, calculateLevels 0 config 1 = Some [level] /\ (price level == 2)%Q.
Proof.
  split; [by vm_compute|]. eexists. split; [vm_compute; reflexivity|]. by vm_compute.
Qed.



Lemma runningPrice_ge_lower (lower s : Q) (n : nat) :
  (0 < lower)%Q -> (0 <= s)%Q -> (lower <= runningPrice lower s n)%Q.
Proof.
  intros Hl Hs. eapply Qle_trans; [|by apply runningPrice_bernoulli].
  set (m := inject_Z (Z.of_nat n)).
  assert (0 <= m)%Q by (subst m; change 0%Q with (inject_Z 0); rewrite <- Zle_Qle; lia).
  clearbody m.
  assert (0 <= lower * (m * s))%Q by (repeat apply Qmult_le_0_compat; lra).
  lra.
Qed.

Lemma calculateLevels_shape config t fuel levels :
  (lowerPrice config < upperPrice config)%Q ->
  (0 < gridSpread config)%Q ->
  (0 < t)%Q ->
  calculateLevels fuel config t = Some levels ->
  let lower := lowerPrice config in
  let s := gridSpread config in
  (exists first, levels !! 0%nat = Some first /\ price first = roundToTick t lower) /\
  (forall i a b, levels !! i = Some a -> levels !! S i = Some b ->
     (price a <= price b)%Q /\
     ((t <= lower * s)%Q -> (price a < price b)%Q) /\
     (Qabs (price b - price a * (1 + s)) <= t * (2 + s) * (1 # 2))%Q) /\
  (exists n, length levels = S n /\
     (upperPrice config <= runningPrice lower s n)%Q /\
     (forall k, (k < n)%nat -> (runningPrice lower s k < upperPrice config)%Q) /\
     (forall k l, levels !! k = Some l ->
        index l = Z.of_nat k /\ price l = roundToTick t (runningPrice lower s k))).
Proof.
  intros Hlu Hs Ht Hrun lower s.
  apply calculateLevels_inv in Hrun as (n & _ & Hbelow & Hstop & ->).
  fold lower s in Hbelow, Hstop, Hlu, Hs |- *. clearbody lower s.
  assert (Hpos : (0 < lower)%Q).
  { destruct (Qlt_le_dec 0 lower) as [|Hneg]; [done|].
    pose proof (runningPrice_nonpos lower s n Hneg (Qlt_le_weak _ _ Hs)).
    lra. }
  split_and!.
  - exists (levelAt lower s t 0). done.
  - intros i a b Ha Hb.
    apply calculateLevels_lookup in Ha as [_ ->].
    apply calculateLevels_lookup in Hb as [_ ->].
    cbn [levelAt price runningPrice].
    pose proof (runningPrice_ge_lower lower s i Hpos (Qlt_le_weak _ _ Hs)) as Hge.
    set (r := runningPrice lower s i) in *.
    assert (0 <= r * s)%Q by (apply Qmult_le_0_compat; lra).
    split_and!.
    + apply roundToTick_mono; [done|]. lra.
    + intros Htick. apply roundToTick_step; [done|].
      assert (0 <= (r - lower) * s)%Q by (apply Qmult_le_0_compat; lra). lra.
    + pose proof (roundToTick_near t r Ht) as H1.
      pose proof (roundToTick_near t (r * (1 + s)) Ht) as H2.
      set (p := roundToTick t r) in *. set (q := roundToTick t (r * (1 + s))) in *.
      clearbody p q r.
      apply Qabs_Qle_condition in H1 as [H1a H1b].
      apply Qabs_Qle_condition in H2 as [H2a H2b].
      assert (0 <= (t * (1#2) - (p - r)) * s)%Q by (apply Qmult_le_0_compat; lra).
      assert (0 <= ((p - r) + t * (1#2)) * s)%Q by (apply Qmult_le_0_compat; lra).
      apply Qabs_Qle_condition. split; lra.
  - exists n. split_and!.
    + by rewrite length_map, length_seq.
    + done.
    + done.
    + intros k l Hk. apply calculateLevels_lookup in Hk as [_ ->]. done.
Qed.





(** C4, amended. [calculateLevels] and [initialize] validate nothing and
    raise no error: for every config with [upperPrice <= lowerPrice],
    whatever its [gridSpread], and every positive tick size,
    [calculateLevels] returns the one-level ladder
    holding [lowerPrice] rounded to the tick, and [initialize] without a
    ledger file stores that ladder and writes it out. *)
Theorem calculateLevels_no_validation rt config t fuel :
  (0 < t)%Q ->
  (upperPrice config <= lowerPrice config)%Q ->
  let only := mkLevel 0 (roundToTick t (lowerPrice config)) "" "" in
  calculateLevels fuel config t = Some [only] /\
  initialize rt fuel config None t = Some ([only], saveToCsv rt config [only]).
Proof.
  intros _ H only. pose proof (calculateLevels_single config t fuel H) as E.
  split; [exact E|]. unfold initialize. by rewrite E.
Qed.

(** C4, witness: the inverted band [2, 1]. *)
Lemma calculateLevels_no_validation_witness :
  let config := demoConfig 2 1 (1 # 8) in
  initialize decimalRuntime 0 config None 1 =
    Some ([mkLevel 0 (roundToTick 1 2) "" ""],
          saveToCsv decimalRuntime config [mkLevel 0 (roundToTick 1 2) "" ""]).
Proof.
  intros config.
  apply (calculateLevels_no_validation decimalRuntime config 1 0); by vm_compute.
Defined.

End LadderFacts.

(** ** The reconciler swallows every failure *)

Section ReconcilerFacts.
Import OrderExecutor BotEngine.

Lemma syncActiveOrders_never_throws {V} (g : Gateway V) sym dir targets w :
  (syncActiveOrders g sym dir targets w).1 = Normal tt.
Proof.
  unfold syncActiveOrders.
  destruct (syncActiveOrders_try g sym dir targets w) as [[[]|e] w']; done.
Qed.


(** No refresh ever takes the NO_POSITION branch: one pass, and the tables
    of the engine are left as they were. *)
Lemma refreshLoop_single_pass {V} (g : Gateway V) fuel ctx order_window st w :
  exists r w', refreshLoop (S fuel) g ctx order_window st w = Some (r, st, w').
Proof.
  cbn [refreshLoop].
  destruct (anchorIndices st !! keyOf ctx) as [anchorIndex|]; [|eauto].
  destruct (buildTargets _ _ _ _ _) as [targets|e]; [|eauto].
  destruct (level _ _) as [l|e]; [|eauto].
  pose proof (syncActiveOrders_never_throws g (symbol (Ctx.config ctx))
                (direction (Ctx.config ctx)) targets w) as Hsync.
  destruct (syncActiveOrders _ _ _ _ _) as [[r|e] w']; cbn in Hsync; [eauto|done].
Qed.

(** C1, the code at the failing input. The venue rejects the batch create
    with the exchange's "no position to close" error. The [try] block of
    [syncActiveOrders] does build and throw the error coded NO_POSITION, but
    the [throw] sits inside the outer [try], whose [catch] logs and returns:
    [syncActiveOrders] completes normally, and the refresh that called it
    ends after one pass without disabling close orders. *)
Theorem syncActiveOrders_swallows_no_position :
  let ctx := demoCtx 6 (demoConfig 16 32 (1 # 8)) in
  let st := anchoredAt ctx 5 in
  let w := emptyWorld tt in
  let targets := [Target.mk 26 1 open; Target.mk 32 1 close] in
  (exists e, (syncActiveOrders_try noPositionVenue "SOL/USDT:USDT" LONG targets w).1 = Throw e
             /\ code e = "NO_POSITION") /\
  (syncActiveOrders noPositionVenue "SOL/USDT:USDT" LONG targets w).1 = Normal tt /\
  exists w', refreshGridOrdersByAnchor 1 noPositionVenue ctx 1 st w = Some (Normal tt, st, w') /\
             closeDisabled st (keyOf ctx) = false.
Proof.
  intros ctx st w targets. split_and!.
  - eexists. split; [vm_compute; reflexivity|reflexivity].
  - apply syncActiveOrders_never_throws.
  - eexists. split; [vm_compute; reflexivity|reflexivity].
Qed.

End ReconcilerFacts.

(** ** The target window *)

Section WindowFacts.
Import GridContext OrderExecutor BotEngine.

Section Window.
Context (config : GridConfig) (levels : list GridLevel) (anchorIndex : Z).

Lemma array_get_Some {A} (l : list A) (idx : Z) :
  0 <= idx < Z.of_nat (length l) -> is_Some (array_get l idx).
Proof.
  intros H. unfold array_get. destruct (Z.ltb_spec idx 0); [lia|].
  apply lookup_lt_is_Some. lia.
Qed.

Lemma level_Normal idx :
  0 <= idx < Z.of_nat (length levels) -> exists l, level levels idx = Normal l.
Proof.
  intros H. unfold level. destruct (array_get_Some levels idx H) as [l ->]. eauto.
Qed.

(** The lower window only adds targets of the lower-side action. *)
Lemma lowerWindow_actions n : forall i targets r,
  lowerWindow n i config levels anchorIndex targets = Normal r ->
  Forall (fun t => t ∈ targets \/
            Target.action t = match direction config with LONG => open | SHORT => close end) r.
Proof.
  induction n as [|n IH]; intros i targets r; simpl.
  - intros [= <-]. apply Forall_forall. auto.
  - destruct (anchorIndex - i <? 0).
    + intros [= <-]. apply Forall_forall. auto.
    + destruct (level levels (anchorIndex - i)) as [l|e]; [|done].
      intros H. apply IH in H. eapply Forall_impl; [exact H|].
      intros t [Ht| ->]; [|by right].
      apply elem_of_app in Ht as [Ht|Ht]; [by left|].
      apply list_elem_of_singleton in Ht as ->. by right.
Qed.

Lemma lowerWindow_total n : forall i targets,
  0 < i -> anchorIndex < Z.of_nat (length levels) ->
  exists r, lowerWindow n i config levels anchorIndex targets = Normal r.
Proof.
  induction n as [|n IH]; intros i targets Hi Ha; simpl; [eauto|].
  destruct (Z.ltb_spec (anchorIndex - i) 0); [eauto|].
  destruct (level_Normal (anchorIndex - i)) as [l ->]; [lia|].
  apply IH; lia.
Qed.

(** The upper window only adds targets of the upper-side action, and none
    at all for a LONG strategy whose close orders are disabled. *)
Lemma upperWindow_actions disabled n : forall i targets r,
  upperWindow n i config levels anchorIndex disabled targets = Normal r ->
  Forall (fun t => t ∈ targets \/
            (Target.action t = match direction config with LONG => close | SHORT => open end
             /\ (direction config = LONG -> disabled = false))) r.
Proof.
  induction n as [|n IH]; intros i targets r; simpl.
  - intros [= <-]. apply Forall_forall. auto.
  - destruct (Z.of_nat (length levels) <=? anchorIndex + i).
    + intros [= <-]. apply Forall_forall. auto.
    + destruct (bool_decide (direction config = LONG) && disabled) eqn:E.
      * apply IH.
      * destruct (level levels (anchorIndex + i)) as [l|e]; [|done].
        intros H. apply IH in H. eapply Forall_impl; [exact H|].
        intros t [Ht|Ht]; [|by right].
        apply elem_of_app in Ht as [Ht|Ht]; [by left|].
        apply list_elem_of_singleton in Ht as ->. right. cbn.
        destruct (direction config), disabled; naive_solver.
Qed.

Lemma upperWindow_total disabled n : forall i targets,
  0 < i -> 0 <= anchorIndex ->
  exists r, upperWindow n i config levels anchorIndex disabled targets = Normal r.
Proof.
  induction n as [|n IH]; intros i targets Hi Ha; simpl; [eauto|].
  destruct (Z.leb_spec (Z.of_nat (length levels)) (anchorIndex + i)); [eauto|].
  destruct (bool_decide (direction config = LONG) && disabled); [apply IH; lia|].
  destruct (level_Normal (anchorIndex + i)) as [l ->]; [lia|].
  apply IH; lia.
Qed.

Lemma spliceLoop_filter disabled fuel : forall i targets,
  (length targets <= i + fuel)%nat ->
  spliceLoop fuel i config disabled targets =
    take i targets ++ filter (kept config disabled) (drop i targets).
Proof.
  induction fuel as [|fuel IH]; intros i targets Hlen; simpl.
  - rewrite drop_ge by lia. rewrite take_ge by lia. by rewrite app_nil_r.
  - destruct (targets !! i) as [t|] eqn:Ht.
    + rewrite (drop_S _ _ _ Ht).
      pose proof (lookup_lt_Some _ _ _ Ht) as Hi.
      assert (Hadv : spliceLoop fuel (S i) config disabled targets =
                     take i targets ++ t :: filter (kept config disabled) (drop (S i) targets)).
      { rewrite IH by lia. rewrite (take_S_r _ _ _ Ht), <- app_assoc. done. }
      destruct (bool_decide (direction config = SHORT) && bool_decide (Target.action t = close)) eqn:E.
      * apply andb_prop in E as [E1 E2]; apply bool_decide_eq_true in E1, E2.
        destruct disabled.
        -- rewrite IH by (rewrite length_delete by eauto; lia).
           rewrite delete_take_drop.
           rewrite take_app_length' by (rewrite length_take_le; lia).
           rewrite drop_app_length' by (rewrite length_take_le; lia).
           rewrite filter_cons_False; [done|]. unfold kept. intros Hk. by apply Hk.
        -- rewrite Hadv, filter_cons_True; [done|]. unfold kept. by intros (_ & _ & ?).
      * rewrite Hadv, filter_cons_True; [done|]. unfold kept.
        intros (H1 & H2 & _). rewrite !bool_decide_eq_true_2 in E by done. done.
    + apply lookup_ge_None in Ht.
      rewrite drop_ge by lia. rewrite take_ge by lia. by rewrite app_nil_r.
Qed.

Lemma buildTargets_no_close order_window targets :
  buildTargets config levels anchorIndex order_window true = Normal targets ->
  Forall (fun t => Target.action t <> close) targets.
Proof.
  unfold buildTargets.
  destruct (lowerWindow _ _ _ _ _ _) as [lo|e] eqn:Hlo; [|done].
  destruct (upperWindow _ _ _ _ _ _ _) as [up|e] eqn:Hup; [|done].
  intros [= <-].
  rewrite spliceLoop_filter by lia. rewrite take_0, drop_0, app_nil_l.
  apply lowerWindow_actions in Hlo. apply upperWindow_actions in Hup.
  apply Forall_forall. intros t [Hkept Ht]%list_elem_of_filter.
  rewrite Forall_forall in Hlo, Hup.
  intros Hclose. apply Hkept.
  destruct (Hup t Ht) as [Hin|[Hact Hdis]].
  - destruct (Hlo t Hin) as [Hnil|Hact]; [by apply not_elem_of_nil in Hnil|].
    destruct (direction config); [congruence|done].
  - destruct (direction config); [by specialize (Hdis eq_refl)|congruence].
Qed.

Lemma buildTargets_total order_window disabled :
  0 <= anchorIndex < Z.of_nat (length levels) ->
  exists targets, buildTargets config levels anchorIndex order_window disabled = Normal targets.
Proof.
  intros H. unfold buildTargets.
  destruct (lowerWindow_total (Z.to_nat (windowSize order_window)) 1 []) as [lo ->]; [lia..|].
  destruct (upperWindow_total disabled (Z.to_nat (windowSize order_window)) 1 lo) as [up ->]; [lia..|].
  eauto.
Qed.

End Window.

Lemma level_lookup levels (n : nat) l :
  levels !! n = Some l -> level levels (Z.of_nat n) = Normal l.
Proof.
  intros H. unfold level, array_get.
  destruct (Z.ltb_spec (Z.of_nat n) 0); [lia|]. by rewrite Nat2Z.id, H.
Qed.

Lemma buildTargets_example config levels l4 l6 :
  direction config = LONG ->
  levels !! 4%nat = Some l4 -> levels !! 6%nat = Some l6 ->
  buildTargets config levels 5 1 false =
    Normal [Target.mk (price l4) (quantityPerGrid config) open;
            Target.mk (price l6) (quantityPerGrid config) close] /\
  buildTargets config levels 5 1 true =
    Normal [Target.mk (price l4) (quantityPerGrid config) open].
Proof.
  intros Hdir H4 H6.
  pose proof (lookup_lt_Some _ _ _ H6) as Hlen.
  apply level_lookup in H4, H6.
  unfold buildTargets. change (Z.to_nat (windowSize 1)) with 1%nat.
  cbn [lowerWindow upperWindow]. change (5 - 1) with (Z.of_nat 4).
  change (5 + 1) with (Z.of_nat 6). rewrite H4.
  change (Z.of_nat 4 <? 0) with false. cbn iota.
  destruct (Z.leb_spec (Z.of_nat (length levels)) (Z.of_nat 6)); [lia|].
  rewrite Hdir. cbn. rewrite H6. cbn.
  rewrite !bool_decide_eq_true_2 by done. cbn. rewrite Hdir.
  rewrite !bool_decide_eq_false_2 by done. done.
Qed.

(** C3. With [closeDisabled] set, the target set built by a refresh holds
    no target whose action is [close], for LONG and SHORT strategies and
    every window size; a target set is built whenever the anchor is an index
    of the ladder. For a LONG strategy with anchor 5 and window 1 the targets
    are level 4 (open) and level 6 (close) when close is enabled, and level 4
    (open) alone when it is disabled. *)
Theorem buildTargets_closeDisabled :
  (forall config levels anchorIndex order_window targets,
     buildTargets config levels anchorIndex order_window true = Normal targets ->
     Forall (fun t => Target.action t <> close) targets) /\
  (forall config levels anchorIndex order_window disabled,
     0 <= anchorIndex < Z.of_nat (length levels) ->
     exists targets,
       buildTargets config levels anchorIndex order_window disabled = Normal targets) /\
  (forall config levels l4 l6,
     direction config = LONG ->
     levels !! 4%nat = Some l4 -> levels !! 6%nat = Some l6 ->
     buildTargets config levels 5 1 false =
       Normal [Target.mk (price l4) (quantityPerGrid config) open;
               Target.mk (price l6) (quantityPerGrid config) close] /\
     buildTargets config levels 5 1 true =
       Normal [Target.mk (price l4) (quantityPerGrid config) open]).
Proof.
  split_and!.
  - intros. by eapply buildTargets_no_close.
  - intros. by apply buildTargets_total.
  - intros. by apply buildTargets_example.
Qed.

(** C3, witness: the seven-level ladder of the band [16, 32]. *)
Lemma buildTargets_closeDisabled_witness :
  let ctx := demoCtx 6 (demoConfig 16 32 (1 # 8)) in
  exists l4, Ctx.levels ctx !! 4%nat = Some l4 /\
    buildTargets (Ctx.config ctx) (Ctx.levels ctx) 5 1 true =
      Normal [Target.mk (price l4) 1 open].
Proof.
  intros ctx. eexists. split; [reflexivity|].
  eapply (proj2 (proj2 (proj2 buildTargets_closeDisabled) (Ctx.config ctx) (Ctx.levels ctx) _ _
                   eq_refl eq_refl eq_refl)).
Defined.


End WindowFacts.

(** ** The fill handler *)

Section FillFacts.
Import GridContext OrderExecutor BotEngine.




End FillFacts.

(** ** The drift handler *)

Section DriftFacts.
Import GridContext OrderExecutor BotEngine.

Lemma onTicker_reset ctx currentPrice now st st' :
  onTicker ctx currentPrice now st = Normal (st', true) ->
  exists anchorIdx anchorLevel diff nearest,
    anchorIndices st !! keyOf ctx = Some anchorIdx /\
    level (Ctx.levels ctx) anchorIdx = Normal anchorLevel /\
    currentGridDiff (Ctx.levels ctx) anchorIdx = Normal diff /\
    (diff * 2 < Qabs (currentPrice - price anchorLevel))%Q /\
    lastReset st (keyOf ctx) + 5000 <= now /\
    getNearestLevels (Ctx.config ctx) (Ctx.levels ctx) currentPrice = Some nearest /\
    closerIndex nearest currentPrice <> anchorIdx /\
    st' = mkState (<[keyOf ctx := closerIndex nearest currentPrice]> (anchorIndices st))
                  (<[keyOf ctx := now]> (lastAnchorResetTime st))
                  (isCloseDisabled st).
Proof.
  unfold onTicker.
  destruct (anchorIndices st !! keyOf ctx) as [anchorIdx|]; [|done].
  destruct (level (Ctx.levels ctx) anchorIdx) as [anchorLevel|] eqn:Hl; [|done].
  destruct (level (Ctx.levels ctx) 1); [|done].
  destruct (currentGridDiff (Ctx.levels ctx) anchorIdx) as [diff|] eqn:Hd; [|done].
  unfold num_gt, num_lt, Math_abs.
  destruct (Qlt_le_dec (diff * 2) _) as [Hthr|]; [|done].
  fold (lastReset st (keyOf ctx)).
  destruct (Z.ltb_spec (now - lastReset st (keyOf ctx)) 5000); [done|].
  destruct (getNearestLevels _ _ _) as [nearest|]; [|done].
  destruct (Z.eqb_spec (closerIndex nearest currentPrice) anchorIdx); [done|].
  cbn. intros [= <-].
  exists anchorIdx, anchorLevel, diff, nearest. split_and!; (done || lia).
Qed.

Lemma onTicker_no_reset ctx currentPrice now st st' :
  onTicker ctx currentPrice now st = Normal (st', false) -> st' = st.
Proof.
  unfold onTicker.
  repeat (match goal with
          | |- context [match ?x with _ => _ end] => destruct x
          end; try done); cbn; congruence.
Qed.

(** The spacing that [currentGridDiff] measures: up to the next level, or
    down to the previous one when the anchor is the last level. *)
Lemma currentGridDiff_spec levels anchorIdx anchorLevel diff :
  level levels anchorIdx = Normal anchorLevel ->
  currentGridDiff levels anchorIdx = Normal diff ->
  (exists above, level levels (anchorIdx + 1) = Normal above /\
                 diff = (price above - price anchorLevel)%Q) \/
  (anchorIdx = Z.of_nat (length levels) - 1 /\
   exists below, level levels (anchorIdx - 1) = Normal below /\
                 diff = (price anchorLevel - price below)%Q).
Proof.
  intros Hl. unfold currentGridDiff.
  assert (Hr : 0 <= anchorIdx < Z.of_nat (length levels)).
  { unfold level, array_get in Hl. destruct (Z.ltb_spec anchorIdx 0); [done|].
    destruct (levels !! Z.to_nat anchorIdx) eqn:E; [|done].
    apply lookup_lt_Some in E. lia. }
  destruct (Z.ltb_spec anchorIdx (Z.of_nat (length levels) - 1)).
  - rewrite Hl. destruct (level levels (anchorIdx + 1)) as [above|]; [|done].
    intros [= <-]. left. eauto.
  - destruct (Z.ltb_spec 0 anchorIdx).
    + rewrite Hl. destruct (level levels (anchorIdx - 1)) as [below|]; [|done].
      intros [= <-]. right. split; [lia|]. eauto.
    + assert (anchorIdx = 0) as -> by lia.
      unfold level at 1, array_get. cbn.
      rewrite lookup_ge_None_2 by lia. done.
Qed.

(** No clock reading recorded for a strategy ever decreases. *)
Lemma step_lastReset_mono st ev key :
  lastReset st key <= lastReset (step st ev).1 key.
Proof.
  destruct ev as [ctx p now|ctx order ref]; cbn.
  - destruct (onTicker ctx p now st) as [[st' [|]]|] eqn:E; cbn; [|by apply onTicker_no_reset in E as ->|done].
    apply onTicker_reset in E as (?&?&?&?&_&_&_&_&Hcool&_&_&->).
    unfold lastReset in *. cbn.
    destruct (decide (key = keyOf ctx)) as [->|Hne].
    + rewrite lookup_insert_eq. cbn. lia.
    + by rewrite lookup_insert_ne.
  - unfold onFill. destruct (getNearestLevels _ _ _); [|done].
    cbv zeta. destruct (negb _ || _); [destruct (_ && _)|]; done.
Qed.

Lemma step_reset st ev key t :
  (key, t) ∈ (step st ev).2 ->
  lastReset st key + 5000 <= t /\ lastReset (step st ev).1 key = t.
Proof.
  destruct ev as [ctx p now|ctx order ref]; cbn; [|by intros ?%not_elem_of_nil].
  destruct (onTicker ctx p now st) as [[st' [|]]|] eqn:E; cbn;
    [|by intros ?%not_elem_of_nil..].
  intros [= -> ->]%list_elem_of_singleton.
  apply onTicker_reset in E as (?&?&?&?&_&_&_&_&Hcool&_&_&->).
  split; [done|]. unfold lastReset. cbn. by rewrite lookup_insert_eq.
Qed.

Lemma run_cons st ev rest :
  run st (ev :: rest) =
    ((run (step st ev).1 rest).1, (step st ev).2 ++ (run (step st ev).1 rest).2).
Proof. cbn. destruct (step st ev), (run _ rest). done. Qed.

Lemma run_lastReset_mono evs : forall st key,
  lastReset st key <= lastReset (run st evs).1 key.
Proof.
  induction evs as [|ev rest IH]; intros st key; [done|].
  rewrite run_cons. cbn. etrans; [apply step_lastReset_mono|apply IH].
Qed.

Lemma run_resets_after evs : forall st key t,
  (key, t) ∈ (run st evs).2 -> lastReset st key + 5000 <= t.
Proof.
  induction evs as [|ev rest IH]; intros st key t; [by intros ?%not_elem_of_nil|].
  rewrite run_cons. cbn. intros [H|H]%elem_of_app.
  - by apply step_reset in H as [? _].
  - apply IH in H. pose proof (step_lastReset_mono st ev key). lia.
Qed.

Lemma run_spaced evs : forall st, spaced (run st evs).2.
Proof.
  induction evs as [|ev rest IH]; intros st.
  { intros i j key t1 t2 _ H. cbn in H. by rewrite lookup_nil in H. }
  rewrite run_cons. cbn. intros i j key t1 t2 Hij H1 H2.
  assert (Hone : (length (step st ev).2 <= 1)%nat).
  { destruct ev; cbn; [|lia]. destruct (onTicker _ _ _ _) as [[? []]|]; cbn; lia. }
  apply lookup_app_Some in H1, H2.
  destruct H2 as [H2|[Hj H2]].
  { apply lookup_lt_Some in H2. pose proof (Nat.lt_le_trans _ _ _ H2 Hone). lia. }
  destruct H1 as [H1|[Hi H1]].
  - apply list_elem_of_lookup_2 in H1, H2.
    apply step_reset in H1 as [_ <-]. by apply run_resets_after in H2.
  - eapply IH; [|exact H1|exact H2]. lia.
Qed.

(** C8, counterexample. On the ladder 10, 11, 13, 14, 16 with the anchor
    at 13, a ticker at 10.5 travels down, towards the neighbour 11 at
    distance 2; [|10.5 - 13| = 2.5] does not exceed twice that spacing, yet
    the reset fires, because [currentGridDiff] measures the spacing up to 14. *)
Lemma drift_reset_below_travel_spacing :
  let ctx := demoCtx 4 (demoConfig 10 15 (1 # 8)) in
  let st := anchoredAt ctx 2 in
  let tickerPrice := (21 # 2)%Q in
  (exists st', onTicker ctx tickerPrice 5000 st = Normal (st', true)) /\
  exists anchorLevel spacing,
    array_get (Ctx.levels ctx) 2 = Some anchorLevel /\
    spacingTowards (Ctx.levels ctx) 2 tickerPrice = Some spacing /\
    ~ (spacing * 2 < Qabs (tickerPrice - price anchorLevel))%Q.
Proof.
  split.
  - eexists. vm_compute. reflexivity.
  - do 2 eexists. split; [vm_compute; reflexivity|]. split; [vm_compute; reflexivity|].
    by vm_compute.
Qed.

(** C8, amended. A drift reset happens only when [|tickerPrice -
    anchorPrice|] exceeds twice the spacing from the anchor level up to the
    next level (down to the previous level when the anchor is the last
    level) and at least 5000 ms have passed since the last drift reset of
    that strategy; the reset records the clock reading. Consequently, in
    every run of the event loops, two drift resets of one strategy are at
    least 5000 ms apart. *)
Theorem drift_reset_guard :
  (forall ctx currentPrice now st st',
     onTicker ctx currentPrice now st = Normal (st', true) ->
     exists anchorIdx anchorLevel diff,
       anchorIndices st !! keyOf ctx = Some anchorIdx /\
       level (Ctx.levels ctx) anchorIdx = Normal anchorLevel /\
       ((exists above, level (Ctx.levels ctx) (anchorIdx + 1) = Normal above /\
                       diff = (price above - price anchorLevel)%Q) \/
        (anchorIdx = Z.of_nat (length (Ctx.levels ctx)) - 1 /\
         exists below, level (Ctx.levels ctx) (anchorIdx - 1) = Normal below /\
                       diff = (price anchorLevel - price below)%Q)) /\
       (diff * 2 < Qabs (currentPrice - price anchorLevel))%Q /\
       lastReset st (keyOf ctx) + 5000 <= now /\
       lastReset st' (keyOf ctx) = now) /\
  (forall st evs, spaced (run st evs).2).
Proof.
  split; [|intros st evs; apply run_spaced].
  intros ctx currentPrice now st st' H.
  apply onTicker_reset in H as (anchorIdx & anchorLevel & diff & nearest &
                                  Ha & Hl & Hd & Hthr & Hcool & _ & _ & ->).
  exists anchorIdx, anchorLevel, diff. split_and!; try done.
  - by eapply currentGridDiff_spec.
  - unfold lastReset. cbn. by rewrite lookup_insert_eq.
Qed.

(** C8, witness: three tickers at 5000, 6000 and 10000 ms; the second one
    falls into the cooldown. *)
Lemma drift_reset_guard_witness :
  let ctx := demoCtx 6 (demoConfig 16 32 (1 # 8)) in
  let evs := [TickerEvent ctx (33 # 2) 5000; TickerEvent ctx (41 # 2) 6000;
              TickerEvent ctx (41 # 2) 10000] in
  (run (anchoredAt ctx 3) evs).2 = [(keyOf ctx, 5000); (keyOf ctx, 10000)] /\
  spaced (run (anchoredAt ctx 3) evs).2.
Proof.
  intros ctx evs. split; [vm_compute; reflexivity|]. apply (proj2 drift_reset_guard).
Defined.


End DriftFacts.

(** ** A second reconciliation on an unchanged venue *)

Section IdempotenceFacts.
Import OrderExecutor BotEngine.

Lemma partitionTargets_spec orders targets : forall keep place,
  partitionTargets orders targets keep place =
    (keep ++ omap (fun t => fst <$> found orders t) targets,
     place ++ filter (fun t => found orders t = None) targets).
Proof.
  induction targets as [|t rest IH]; intros keep place; cbn [partitionTargets omap list_omap].
  - by rewrite !app_nil_r.
  - change (list_find _ orders) with (found orders t).
    destruct (found orders t) as [[i o]|] eqn:E.
    + rewrite IH, filter_cons_False by (rewrite E; done).
      cbn. by rewrite <- app_assoc.
    + rewrite IH, filter_cons_True by done.
      cbn. by rewrite <- app_assoc.
Qed.

Lemma ordersToDispose_elem orders keep o :
  o ∈ ordersToDispose orders keep <-> exists i, orders !! i = Some o /\ i ∉ keep.
Proof.
  unfold ordersToDispose. rewrite list_elem_of_fmap. split.
  - intros [[i o'] [-> [Hk Hin]%list_elem_of_filter]].
    apply list_elem_of_lookup in Hin as [k Hk'].
    rewrite list_lookup_imap in Hk'.
    destruct (orders !! k) eqn:E; [|done]. cbn in Hk'. inversion Hk'; subst. eauto.
  - intros (i & Hi & Hk). exists (i, o). split; [done|].
    apply list_elem_of_filter. split; [done|].
    apply list_elem_of_lookup. exists i. rewrite list_lookup_imap, Hi. done.
Qed.

Lemma ordersToDispose_nil orders keep :
  (forall i, (i < length orders)%nat -> i ∈ keep) -> ordersToDispose orders keep = [].
Proof.
  intros H. destruct (ordersToDispose orders keep) as [|o rest] eqn:E; [done|].
  assert (Ho : o ∈ ordersToDispose orders keep) by (rewrite E; left).
  apply ordersToDispose_elem in Ho as (i & Hi & Hk).
  apply lookup_lt_Some in Hi. by apply H in Hi.
Qed.

Lemma filter_all {A} (P : A -> Prop) `{!forall x, Decision (P x)} (l : list A) :
  (forall x, x ∈ l -> P x) -> filter P l = l.
Proof.
  induction l as [|x l IH]; intros Hall; [done|].
  rewrite filter_cons_True by (apply Hall; left). f_equal. apply IH.
  intros y Hy. apply Hall. by right.
Qed.

Lemma syncActiveOrders_ideal symbol dir targets w :
  let L := strategyOrders dir (venue w) in
  let keep := omap (fun t => fst <$> found L t) targets in
  let place := filter (fun t => found L t = None) targets in
  let ids := map Order.id (ordersToDispose L keep) in
  let batch := map (toRequest symbol dir) place in
  let w' := (syncActiveOrders Venue.ideal symbol dir targets w).2 in
  calls w' = calls w ++ [FetchOpenOrders symbol]
               ++ (if ids is [] then [] else [CancelOrders ids symbol])
               ++ (if batch is [] then [] else [CreateOrders batch]) /\
  Venue.resting (venue w') =
    filter (fun o => Order.id o ∉ ids) (Venue.resting (venue w))
    ++ imap (fun i r => Venue.place (Venue.nextId (venue w) + i) r) batch.
Proof.
  intros L keep place ids batch w'. subst w'.
  unfold syncActiveOrders, syncActiveOrders_try, send. cbn.
  fold (strategyOrders dir (venue w)). fold L.
  rewrite partitionTargets_spec. cbn [app]. fold keep place. fold ids. fold batch.
  destruct ids as [|id ids'] eqn:Eids; destruct batch as [|r batch'] eqn:Ebatch; cbn.
  - split; [done|]. rewrite app_nil_r, filter_all; [done|]. intros ? _. apply not_elem_of_nil.
  - split; [by rewrite <- app_assoc|]. rewrite filter_all; [done|]. intros ? _. apply not_elem_of_nil.
  - split; [by rewrite <- app_assoc|]. by rewrite app_nil_r.
  - split; [by rewrite <- !app_assoc|]. done.
Qed.

Lemma matchesTarget_spec target o :
  matchesTarget target o = true <->
  (Qabs (Order.price o - Target.price target) < 1 # 100000000)%Q /\
  Order.tradeSide o = Action_tag (Target.action target).
Proof.
  unfold matchesTarget, num_lt, Math_abs. rewrite andb_true_iff, String.eqb_eq.
  destruct (Qlt_le_dec _ _) as [Hlt|Hge]; split; intros [? ?]; try done.
  apply Qle_not_lt in Hge. done.
Qed.

Lemma Action_tag_inj a b : Action_tag a = Action_tag b -> a = b.
Proof. by destruct a, b. Qed.

Lemma matchesTarget_place symbol dir n t t' :
  matchesTarget t (Venue.place n (toRequest symbol dir t')) = true <-> clash t' t.
Proof.
  rewrite matchesTarget_spec. unfold clash. cbn. split.
  - intros [? ?%Action_tag_inj]. done.
  - intros [-> ?]. done.
Qed.

Lemma clash_refl t : clash t t.
Proof.
  split; [done|]. apply Qabs_case; intros _.
  - assert (Target.price t - Target.price t == 0)%Q as -> by ring. done.
  - assert (- (Target.price t - Target.price t) == 0)%Q as -> by ring. done.
Qed.

Lemma ofStrategy_place symbol dir n t :
  ofStrategy dir (Venue.place n (toRequest symbol dir t)) = true.
Proof. by destruct dir. Qed.

Lemma separated_filter (P : Target.t -> Prop) `{!forall t, Decision (P t)} targets :
  separated targets -> separated (filter P targets).
Proof.
  induction targets as [|t rest IH]; [done|]. intros [Hhead Hrest].
  destruct (decide (P t)).
  - rewrite filter_cons_True by done. split; [|by apply IH].
    rewrite Forall_forall in Hhead. apply Forall_forall.
    intros x [_ Hx]%list_elem_of_filter. by apply Hhead.
  - rewrite filter_cons_False by done. by apply IH.
Qed.

Lemma separated_lookup targets : forall i j t1 t2,
  separated targets -> (i < j)%nat ->
  targets !! i = Some t1 -> targets !! j = Some t2 -> ~ clash t1 t2.
Proof.
  induction targets as [|t rest IH]; intros i j t1 t2 Hsep Hij H1 H2; [done|].
  destruct Hsep as [Hhead Hrest]. destruct j as [|j]; [lia|]. cbn in H2.
  destruct i as [|i]; cbn in H1.
  - inversion H1; subst. rewrite Forall_forall in Hhead.
    apply Hhead. by eapply list_elem_of_lookup_2.
  - eapply IH; [done| |done..]. lia.
Qed.

Section SecondPass.
Context (symbol : string) (dir : GridDirection) (targets : list Target.t).
Context (L0 : list Order.t) (n0 : nat).

Local Abbreviation keep := (omap (fun t => fst <$> found L0 t) targets) (only parsing).
Local Abbreviation toPlace := (filter (fun t => found L0 t = None) targets) (only parsing).
Local Abbreviation ids := (map Order.id (ordersToDispose L0 keep)) (only parsing).
Local Abbreviation survivors := (filter (fun o => Order.id o ∉ ids) L0) (only parsing).
Local Abbreviation placed :=
  (imap (fun i r => Venue.place (n0 + i) r) (map (toRequest symbol dir) toPlace))
  (only parsing).

(** A surviving order was the first match of some target. *)
Lemma survivor_found o :
  o ∈ survivors -> exists t i, t ∈ targets /\ found L0 t = Some (i, o).
Proof.
  intros [Hid Ho]%list_elem_of_filter.
  apply list_elem_of_lookup in Ho as [i Hi].
  destruct (decide (i ∈ keep)) as [Hk|Hk].
  - apply list_elem_of_omap in Hk as (t & Ht & Hf).
    destruct (found L0 t) as [[i' o']|] eqn:E; [|done]. cbn in Hf. inversion Hf; subst i'.
    exists t, i. split; [done|].
    pose proof E as (Hi' & _)%list_find_Some. rewrite Hi in Hi'. by simplify_eq.
  - exfalso. apply Hid. apply list_elem_of_fmap. exists o. split; [done|].
    apply ordersToDispose_elem. eauto.
Qed.

(** With distinct ids, the first match of a target survives the cancel. *)
Lemma found_survives t i o :
  NoDup (map Order.id L0) -> t ∈ targets -> found L0 t = Some (i, o) -> o ∈ survivors.
Proof.
  intros Hnd Ht Hf. pose proof Hf as (Hi & _)%list_find_Some.
  apply list_elem_of_filter. split; [|by eapply list_elem_of_lookup_2].
  intros (o' & Hid & (i' & Hi' & Hk)%ordersToDispose_elem)%list_elem_of_fmap.
  assert (i = i').
  { eapply NoDup_lookup; [exact Hnd| |].
    - by rewrite list_lookup_fmap, Hi.
    - by rewrite list_lookup_fmap, Hi', Hid. }
  subst i'. apply Hk. apply list_elem_of_omap. exists t. split; [done|]. by rewrite Hf.
Qed.

Lemma found_again t i o :
  found L0 t = Some (i, o) -> o ∈ survivors ->
  exists p, survivors !! p = Some o /\ found (survivors ++ placed) t = Some (p, o).
Proof.
  intros (Hi & Hm & Hfirst)%list_find_Some [Hid _]%list_elem_of_filter.
  assert (Hsplit : survivors =
            filter (fun o => Order.id o ∉ ids) (take i L0)
            ++ o :: filter (fun o => Order.id o ∉ ids) (drop (S i) L0)).
  { rewrite <- (take_drop_middle _ _ _ Hi) at 1.
    by rewrite filter_app, filter_cons_True by done. }
  exists (length (filter (fun o => Order.id o ∉ ids) (take i L0))).
  split; [rewrite Hsplit; by apply list_lookup_middle|].
  apply list_find_Some. rewrite Hsplit.
  split_and!.
  - rewrite <- app_assoc. cbn [app]. by apply list_lookup_middle.
  - done.
  - intros j y Hj Hlt.
    rewrite <- app_assoc, lookup_app_l in Hj by done.
    apply list_elem_of_lookup_2 in Hj. apply list_elem_of_filter in Hj as [_ Hy].
    apply list_elem_of_lookup in Hy as [j' Hj'].
    pose proof (lookup_lt_Some _ _ _ Hj') as Hlen. rewrite length_take in Hlen.
    rewrite lookup_take_lt in Hj' by lia. eapply Hfirst; [done|lia].
Qed.

Lemma placed_lookup k t :
  toPlace !! k = Some t -> placed !! k = Some (Venue.place (n0 + k) (toRequest symbol dir t)).
Proof. intros H. by rewrite list_lookup_imap, list_lookup_fmap, H. Qed.

Lemma placed_found k t :
  separated targets -> toPlace !! k = Some t ->
  found (survivors ++ placed) t =
    Some ((length survivors + k)%nat, Venue.place (n0 + k) (toRequest symbol dir t)).
Proof.
  intros Hsep Hk.
  assert (Hnone : found L0 t = None).
  { apply list_elem_of_lookup_2 in Hk. by apply list_elem_of_filter in Hk as [? _]. }
  apply list_find_None in Hnone. rewrite Forall_forall in Hnone.
  apply list_find_Some. split_and!.
  - rewrite lookup_app_r by lia.
    replace (length survivors + k - length survivors)%nat with k by lia.
    by apply placed_lookup.
  - apply matchesTarget_place, clash_refl.
  - intros j y Hj Hlt. apply lookup_app_Some in Hj as [Hj|[Hge Hj]].
    + apply Hnone. apply list_elem_of_lookup_2 in Hj.
      by apply list_elem_of_filter in Hj as [_ ?].
    + rewrite list_lookup_imap, list_lookup_fmap in Hj.
      destruct (toPlace !! (j - length survivors)%nat) as [t'|] eqn:E; [|done].
      cbn in Hj. inversion Hj; subst y.
      rewrite matchesTarget_place.
      eapply (separated_lookup toPlace); [by apply separated_filter| |done..]. lia.
Qed.

Lemma second_pass_places_nothing :
  separated targets -> NoDup (map Order.id L0) ->
  filter (fun t => found (survivors ++ placed) t = None) targets = [].
Proof.
  intros Hsep Hnd.
  remember (filter (fun t => found (survivors ++ placed) t = None) targets) as l eqn:E.
  destruct l as [|t rest]; [done|]. exfalso.
  assert (Ht : t ∈ filter (fun t => found (survivors ++ placed) t = None) targets)
    by (rewrite <- E; left).
  apply list_elem_of_filter in Ht as [Hnone Ht].
  destruct (found L0 t) as [[i o]|] eqn:Hf.
  - destruct (found_again t i o Hf) as (p & _ & Hp); [by eapply found_survives|].
    by rewrite Hp in Hnone.
  - assert (Hin : t ∈ toPlace) by (by apply list_elem_of_filter).
    apply list_elem_of_lookup in Hin as [k Hk].
    by rewrite (placed_found k t Hsep Hk) in Hnone.
Qed.

Lemma second_pass_cancels_nothing :
  separated targets -> NoDup (map Order.id L0) ->
  ordersToDispose (survivors ++ placed)
    (omap (fun t => fst <$> found (survivors ++ placed) t) targets) = [].
Proof.
  intros Hsep Hnd. apply ordersToDispose_nil. intros j Hj.
  apply list_elem_of_omap.
  destruct (decide (j < length survivors)%nat) as [Hlt|Hge].
  - destruct (lookup_lt_is_Some_2 survivors j Hlt) as [o Ho].
    destruct (survivor_found o) as (t & i & Ht & Hf); [by eapply list_elem_of_lookup_2|].
    destruct (found_again t i o Hf) as (p & Hp & Hfound); [by eapply list_elem_of_lookup_2|].
    assert (j = p) as ->.
    { eapply NoDup_lookup; [|exact Ho|exact Hp].
      apply NoDup_filter. by eapply NoDup_fmap_1. }
    exists t. split; [done|]. by rewrite Hfound.
  - assert (Hlen : length placed = length toPlace)
      by (by rewrite length_imap, length_map).
    rewrite length_app, Hlen in Hj.
    destruct (lookup_lt_is_Some_2 toPlace (j - length survivors)%nat) as [t Hk]; [lia|].
    exists t. split.
    + apply list_elem_of_lookup_2 in Hk. by apply list_elem_of_filter in Hk as [_ ?].
    + rewrite (placed_found _ t Hsep Hk). cbn. f_equal. lia.
Qed.

End SecondPass.

Lemma NoDup_map_filter {A B} (f : A -> B) (P : A -> Prop)
    `{!forall x, Decision (P x)} (l : list A) :
  NoDup (map f l) -> NoDup (map f (filter P l)).
Proof.
  induction l as [|x l IH]; [done|]. cbn [map]. intros [Hx Hl]%NoDup_cons.
  destruct (decide (P x)).
  - rewrite filter_cons_True by done. cbn [map]. apply NoDup_cons. split; [|by apply IH].
    intros (y & Hy & Hin)%list_elem_of_fmap. apply Hx.
    apply list_elem_of_fmap. exists y. split; [done|].
    by apply list_elem_of_filter in Hin as [_ ?].
  - rewrite filter_cons_False by done. by apply IH.
Qed.

Lemma strategyOrders_after symbol dir (ids : list string) batch (R : list Order.t) n0 :
  filter (fun o => ofStrategy dir o = true)
    (filter (fun o => Order.id o ∉ ids) R
     ++ imap (fun i r => Venue.place (n0 + i) r) (map (toRequest symbol dir) batch)) =
  filter (fun o => Order.id o ∉ ids) (filter (fun o => ofStrategy dir o = true) R)
  ++ imap (fun i r => Venue.place (n0 + i) r) (map (toRequest symbol dir) batch).
Proof.
  rewrite filter_app. f_equal.
  - rewrite !list_filter_filter. apply list_filter_iff. intros o. tauto.
  - apply filter_all. intros o [k Hk]%list_elem_of_lookup.
    rewrite list_lookup_imap, list_lookup_fmap in Hk.
    destruct (batch !! k); [|done]. cbn in Hk. inversion Hk. apply ofStrategy_place.
Qed.

(** C7, amended. On a venue that executes every batch it is sent and
    whose resting orders bear distinct ids, for every target set in which no
    two targets have the same action and prices closer than 1e-8: a second
    [syncActiveOrders] with the same target set, right after the first,
    sends the fetch of the open orders and nothing else, neither a cancel
    nor a create. *)
Theorem syncActiveOrders_idempotent symbol dir targets w :
  separated targets ->
  NoDup (map Order.id (Venue.resting (venue w))) ->
  let w1 := (syncActiveOrders Venue.ideal symbol dir targets w).2 in
  let w2 := (syncActiveOrders Venue.ideal symbol dir targets w1).2 in
  calls w2 = calls w1 ++ [FetchOpenOrders symbol].
Proof.
  intros Hsep Hnd w1 w2.
  destruct (syncActiveOrders_ideal symbol dir targets w) as [_ Hrest].
  destruct (syncActiveOrders_ideal symbol dir targets w1) as [Hcalls _].
  fold w1 in Hrest. fold w2 in Hcalls. rewrite Hcalls. f_equal.
  unfold strategyOrders in *. rewrite Hrest, strategyOrders_after.
  assert (Hnd0 : NoDup (map Order.id (filter (fun o => ofStrategy dir o = true)
                                             (Venue.resting (venue w))))).
  { by apply NoDup_map_filter. }
  rewrite second_pass_cancels_nothing, second_pass_places_nothing by done.
  done.
Qed.

(** C7, counterexample. A target set that holds the same target twice:
    the first call places two orders; in the second call both targets find
    the first of them, and the other one is cancelled. *)
Lemma syncActiveOrders_duplicate_target_cancels :
  let t := Target.mk 100 1 open in
  let w1 := (syncActiveOrders Venue.ideal "SOL/USDT:USDT" LONG [t; t] (emptyWorld emptyVenue)).2 in
  let w2 := (syncActiveOrders Venue.ideal "SOL/USDT:USDT" LONG [t; t] w1).2 in
  calls w2 = calls w1 ++ [FetchOpenOrders "SOL/USDT:USDT"; CancelOrders ["1"] "SOL/USDT:USDT"].
Proof. vm_compute. reflexivity. Qed.

(** C7, witness: two open targets at 99 and 98 on the empty venue. *)
Lemma syncActiveOrders_idempotent_witness :
  let targets := [Target.mk 99 1 open; Target.mk 98 1 open] in
  let w1 := (syncActiveOrders Venue.ideal "SOL/USDT:USDT" LONG targets (emptyWorld emptyVenue)).2 in
  let w2 := (syncActiveOrders Venue.ideal "SOL/USDT:USDT" LONG targets w1).2 in
  calls w2 = calls w1 ++ [FetchOpenOrders "SOL/USDT:USDT"].
Proof.
  apply (syncActiveOrders_idempotent "SOL/USDT:USDT" LONG
           [Target.mk 99 1 open; Target.mk 98 1 open] (emptyWorld emptyVenue)).
  - cbn. split; [|split; [|done]]; repeat constructor. intros [_ Hprice]. by vm_compute in Hprice.
  - cbn. constructor.
Defined.

End IdempotenceFacts.

(** ** No close order is requested while close is disabled *)

Section CloseDisabledFacts.
Import GridContext OrderExecutor BotEngine.

Lemma cancelEach_closeFree {V} (g : Gateway V) ids symbol : forall w,
  Forall closeFree (calls w) -> Forall closeFree (calls (cancelEach g ids symbol w)).
Proof.
  induction ids as [|id rest IH]; intros w Hw; [done|]. cbn [cancelEach]. apply IH.
  unfold send. destruct (cancelOrder g id symbol (venue w)). cbn.
  apply Forall_app. split; [done|]. by repeat constructor.
Qed.

Lemma syncActiveOrders_closeFree {V} (g : Gateway V) symbol dir targets w :
  Forall (fun t => Target.action t <> close) targets ->
  Forall closeFree (calls w) ->
  Forall closeFree (calls (syncActiveOrders g symbol dir targets w).2).
Proof.
  intros Htargets Hw.
  assert (Hsend : forall A (c : Call) (f : V -> completion A * V) (w0 : World V),
            closeFree c -> Forall closeFree (calls w0) ->
            Forall closeFree (calls (send c f w0).2)).
  { intros A c f w0 Hc Hw0. unfold send. destruct (f (venue w0)). cbn.
    apply Forall_app. split; [done|]. by repeat constructor. }
  unfold syncActiveOrders, syncActiveOrders_try. cbv zeta.
  set (w0 := mkWorld _ (venue w) (calls w)).
  pose proof (Hsend _ (FetchOpenOrders symbol) (fetchOpenOrders g symbol) w0 I Hw) as H1.
  destruct (send (FetchOpenOrders symbol) (fetchOpenOrders g symbol) w0) as [[openOrders|e] w1];
    [|exact H1].
  cbn in H1. rewrite partitionTargets_spec. cbn [app].
  set (ids := map Order.id _). set (batch := map (toRequest symbol dir) _).
  set (w2 := mkWorld _ (venue w1) (calls w1)).
  assert (Hbatch : closeFree (CreateOrders batch)).
  { subst batch. cbn. apply Forall_fmap. apply Forall_forall.
    intros t [_ Ht]%list_elem_of_filter. rewrite Forall_forall in Htargets. by apply Htargets. }
  set (w3 := if (0 <? length ids)%nat then _ else w2).
  assert (H3 : Forall closeFree (calls w3)).
  { subst w3. destruct (0 <? length ids)%nat; [|exact H1].
    pose proof (Hsend _ (CancelOrders ids symbol) (cancelOrders g ids symbol) w2 I H1) as H2.
    destruct (send (CancelOrders ids symbol) (cancelOrders g ids symbol) w2) as [[?|?] w']; cbn in H2;
      [exact H2|by apply cancelEach_closeFree]. }
  clearbody w3.
  destruct (0 <? length batch)%nat; [|exact H3].
  pose proof (Hsend _ (CreateOrders batch) (createOrders g batch) w3 Hbatch H3) as H4.
  destruct (send (CreateOrders batch) (createOrders g batch) w3) as [[newOrders|e] w4]; cbn in H4.
  - exact H4.
  - by destruct (isNoPosition e).
Qed.

(** While [closeDisabled] is set, a refresh sends the venue no request for a
    close order. *)
Lemma refresh_sends_no_close {V} (g : Gateway V) fuel ctx order_window st w r st' w' :
  closeDisabled st (keyOf ctx) = true ->
  Forall closeFree (calls w) ->
  refreshGridOrdersByAnchor (S fuel) g ctx order_window st w = Some (r, st', w') ->
  Forall closeFree (calls w').
Proof.
  intros Hdis Hw. unfold refreshGridOrdersByAnchor. cbn [refreshLoop].
  destruct (anchorIndices st !! keyOf ctx) as [anchorIndex|]; [|by intros [= _ _ <-]].
  rewrite Hdis.
  destruct (buildTargets _ _ _ _ _) as [targets|e] eqn:Hb; [|by intros [= _ _ <-]].
  destruct (level _ _) as [l|e]; [|by intros [= _ _ <-]].
  apply buildTargets_no_close in Hb.
  pose proof (syncActiveOrders_closeFree g (symbol (Ctx.config ctx))
                (direction (Ctx.config ctx)) targets w Hb Hw) as Hsync.
  pose proof (syncActiveOrders_never_throws g (symbol (Ctx.config ctx))
                (direction (Ctx.config ctx)) targets w) as Hnever.
  destruct (syncActiveOrders _ _ _ _ _) as [[?|e] w1]; cbn in Hsync, Hnever; [|done].
  by intros [= _ _ <-].
Qed.

End CloseDisabledFacts.

(** ** The ledger file *)

Section LedgerFacts.
Import GridContext JsString.

Lemma string_app_nil_l (b : string) : "" +:+ b = b.
Proof. reflexivity. Qed.

Lemma string_app_cons (c : ascii) (a b : string) : String c a +:+ b = String c (a +:+ b).
Proof. reflexivity. Qed.

Lemma string_app_nil_r (a : string) : a +:+ "" = a.
Proof. induction a as [|c a IH]; [done|]. by rewrite string_app_cons, IH. Qed.

Lemma string_app_assoc (a b c : string) : (a +:+ b) +:+ c = a +:+ (b +:+ c).
Proof. induction a as [|x a IH]; [done|]. by rewrite !string_app_cons, IH. Qed.

Lemma chars_app a b : chars (a +:+ b) = chars a ++ chars b.
Proof. induction a as [|c a IH]; [done|]. rewrite string_app_cons. cbn. by rewrite IH. Qed.

Lemma split_no_sep sep a : sep ∉ chars a -> split sep a = [a].
Proof.
  induction a as [|c a IH]; [done|]. cbn. intros H.
  apply not_elem_of_cons in H as [Hc Ha].
  destruct (Ascii.eqb_spec c sep) as [->|_]; [done|]. by rewrite IH.
Qed.

Lemma split_app sep a b :
  sep ∉ chars a -> split sep (a +:+ String sep b) = a :: split sep b.
Proof.
  induction a as [|c a IH].
  - intros _. rewrite string_app_nil_l. cbn. by rewrite Ascii.eqb_refl.
  - rewrite string_app_cons. cbn. intros H. apply not_elem_of_cons in H as [Hc Ha].
    destruct (Ascii.eqb_spec c sep) as [->|_]; [done|]. by rewrite IH.
Qed.

Lemma join_cons2 sep p q rest :
  join sep (p :: q :: rest) = p +:+ sep +:+ join sep (q :: rest).
Proof. reflexivity. Qed.

Lemma split_join sep parts :
  parts <> [] -> Forall (fun p => sep ∉ chars p) parts ->
  split sep (join (String sep EmptyString) parts) = parts.
Proof.
  induction parts as [|p rest IH]; [done|]. intros _ Hall.
  apply Forall_cons in Hall as [Hp Hrest].
  destruct rest as [|q rest]; [by apply split_no_sep|].
  rewrite join_cons2, string_app_cons, string_app_nil_l.
  rewrite split_app by done. f_equal. by apply IH.
Qed.

Lemma lastChar_cons c s :
  lastChar (String c s) = match s with EmptyString => Some c | _ => lastChar s end.
Proof. by destruct s. Qed.

Lemma lastChar_app a b :
  b <> EmptyString -> lastChar (a +:+ b) = lastChar b.
Proof.
  intros Hb. induction a as [|c a IH]; [done|].
  rewrite string_app_cons, lastChar_cons, IH.
  destruct (a +:+ b) eqn:E; [|done].
  destruct a; [by rewrite string_app_nil_l in E|by rewrite string_app_cons in E].
Qed.

Lemma trimEnd_clean s : endsClean s -> trimEnd s = s.
Proof.
  unfold endsClean. induction s as [|c s IH]; [done|]. intros H. cbn.
  destruct s as [|d s].
  - cbn. by rewrite (H c eq_refl).
  - rewrite IH by (intros x Hx; by apply H). done.
Qed.

Lemma trimEnd_app_space a c :
  is_space c = true -> trimEnd (a +:+ String c EmptyString) = trimEnd a.
Proof.
  intros Hc. induction a as [|d a IH].
  - rewrite string_app_nil_l. cbn. by rewrite Hc.
  - rewrite string_app_cons. cbn. by rewrite IH.
Qed.

Lemma startsWith_cons a p c s :
  String.prefix (String a p) (String c s) =
    if ascii_dec a c then String.prefix p s else false.
Proof. reflexivity. Qed.

Lemma startsWith_app p s : String.prefix p (p +:+ s) = true.
Proof.
  induction p as [|c p IH]; [by destruct s|].
  rewrite string_app_cons, startsWith_cons. destruct (ascii_dec c c); [done|congruence].
Qed.

Lemma string_drop_app p s : drop (String.length p) (p +:+ s) = s.
Proof. induction p as [|c p IH]; [done|]. exact IH. Qed.

Lemma isField_comma s : isField s = true -> comma ∉ chars s.
Proof.
  unfold isField. rewrite forallb_forall. intros H Hin.
  apply list_elem_of_In, H in Hin. by rewrite Ascii.eqb_refl in Hin.
Qed.

Lemma isField_LF s : isField s = true -> LF ∉ chars s.
Proof.
  unfold isField. rewrite forallb_forall. intros H Hin.
  apply list_elem_of_In, H in Hin. rewrite (Ascii.eqb_refl LF) in Hin.
  by rewrite andb_false_r in Hin.
Qed.

Lemma isIndexText_field s : isIndexText s = true -> isField s = true.
Proof.
  unfold isIndexText, isField. intros [_ H]%andb_prop.
  rewrite forallb_forall in *. intros c Hc. specialize (H c Hc).
  destruct (Ascii.eqb_spec c comma) as [->|_]; [done|].
  destruct (Ascii.eqb_spec c LF) as [->|_]; done.
Qed.

Lemma isIndexText_head s :
  isIndexText s = true ->
  exists c s', s = String c s' /\ c <> "#"%char /\ c <> "i"%char.
Proof.
  unfold isIndexText. intros [Hne H]%andb_prop.
  destruct s as [|c s']; [done|]. exists c, s'. split; [done|].
  cbn in H. apply andb_prop in H as [H _].
  split; intros ->; done.
Qed.

Lemma isField_app a b : isField a = true -> isField b = true -> isField (a +:+ b) = true.
Proof. unfold isField. rewrite chars_app, forallb_app. by intros -> ->. Qed.

Section LedgerRoundTrip.
Context (rt : JsRuntime).

Lemma row_split l :
  storable rt l ->
  split comma (row rt l) =
    [int_toString rt (index l); num_toString rt (price l); buyOrderId l; sellOrderId l].
Proof.
  intros (Hi & _ & Hp & _ & Hb & Hs). unfold row.
  change "," with (String comma EmptyString).
  rewrite !string_app_cons, !string_app_nil_l.
  rewrite split_app by (by apply isField_comma, isIndexText_field).
  rewrite split_app by (by apply isField_comma).
  rewrite split_app by (by apply isField_comma).
  rewrite split_no_sep by (by apply isField_comma). done.
Qed.

Lemma parseRow_row l : storable rt l -> parseRow rt (row rt l) = Some l.
Proof.
  intros Hl. unfold parseRow. rewrite (row_split l Hl). cbn.
  destruct Hl as (_ & -> & _ & -> & _). cbn. by destruct l.
Qed.

Lemma no_LF_app a b : LF ∉ chars a -> LF ∉ chars b -> LF ∉ chars (a +:+ b).
Proof. rewrite chars_app, elem_of_app. tauto. Qed.

Lemma noLF_spec s :
  forallb (fun c => negb (Ascii.eqb c LF)) (chars s) = true -> LF ∉ chars s.
Proof.
  rewrite forallb_forall. intros H Hin.
  apply list_elem_of_In, H in Hin. by rewrite Ascii.eqb_refl in Hin.
Qed.

Lemma no_LF_comma : LF ∉ chars ",".
Proof. by apply noLF_spec. Qed.

Lemma row_no_LF l : storable rt l -> LF ∉ chars (row rt l).
Proof.
  intros (Hi%isIndexText_field%isField_LF & _ & Hp%isField_LF & _ & Hb%isField_LF & Hs%isField_LF).
  unfold row. repeat (apply no_LF_app; [done || apply no_LF_comma|]). done.
Qed.

Lemma row_head l :
  storable rt l ->
  negb (startsWith (row rt l) "#") && negb (startsWith (row rt l) "index,") = true.
Proof.
  intros (Hi & _). apply isIndexText_head in Hi as (c & s' & Hi & H1 & H2).
  unfold row, startsWith. rewrite Hi, !string_app_cons, !startsWith_cons.
  destruct (ascii_dec "#" c) as [<-|_]; [done|].
  destruct (ascii_dec "i" c) as [<-|_]; [done|]. done.
Qed.

Lemma saveToCsv_lines config levels :
  saveToCsv rt config levels =
    metaLine rt config +:+ String LF (headerLine +:+ String LF (join nl (map (row rt) levels))).
Proof.
  unfold saveToCsv, configMeta, header, metaLine, nl. cbv zeta.
  rewrite !string_app_assoc. reflexivity.
Qed.

Lemma metaLine_no_LF config :
  fingerprintable rt (upperPrice config) -> fingerprintable rt (lowerPrice config) ->
  fingerprintable rt (gridSpread config) -> LF ∉ chars (metaLine rt config).
Proof.
  intros [Hu%isField_LF _] [Hl%isField_LF _] [Hs%isField_LF _]. unfold metaLine.
  apply no_LF_app; [by apply noLF_spec|].
  repeat (apply no_LF_app; [done || apply no_LF_comma|]). done.
Qed.


Lemma headerLine_no_LF : LF ∉ chars headerLine.
Proof. by apply noLF_spec. Qed.

Lemma string_app_nonempty_l (a b : string) : a <> EmptyString -> a +:+ b <> EmptyString.
Proof. destruct a; [done|]. by rewrite string_app_cons. Qed.

Lemma string_app_nonempty_r (a b : string) : b <> EmptyString -> a +:+ b <> EmptyString.
Proof. destruct a; [done|]. by rewrite string_app_cons. Qed.

Lemma row_nonempty l : row rt l <> EmptyString.
Proof. unfold row. apply string_app_nonempty_r, string_app_nonempty_l. done. Qed.

Lemma join_rows_nonempty l levels : join nl (map (row rt) (l :: levels)) <> EmptyString.
Proof.
  destruct levels as [|l' levels]; cbn [map].
  - apply row_nonempty.
  - rewrite join_cons2. apply string_app_nonempty_l, row_nonempty.
Qed.

Lemma endsClean_app a b : b <> EmptyString -> endsClean b -> endsClean (a +:+ b).
Proof. intros Hb Hc c. rewrite lastChar_app by done. apply Hc. Qed.

Lemma endsClean_cons c s : s <> EmptyString -> endsClean s -> endsClean (String c s).
Proof. intros Hs Hc x. rewrite lastChar_cons. destruct s; [done|]. apply Hc. Qed.

Lemma endsClean_row l : endsClean (sellOrderId l) -> endsClean (row rt l).
Proof.
  intros Hs. unfold row. rewrite <- !string_app_assoc.
  destruct (sellOrderId l) as [|c s] eqn:E.
  - rewrite string_app_nil_r. apply endsClean_app; [done|]. intros c [= <-]. done.
  - apply endsClean_app; [done|exact Hs].
Qed.

Lemma endsClean_rows levels :
  (forall l, last levels = Some l -> endsClean (sellOrderId l)) ->
  endsClean (join nl (map (row rt) levels)).
Proof.
  induction levels as [|l levels IH]; intros H; [by intros c|].
  destruct levels as [|l' levels].
  - apply endsClean_row, H. done.
  - cbn [map]. rewrite join_cons2. rewrite <- string_app_assoc.
    apply endsClean_app; [apply (join_rows_nonempty l' levels)|].
    apply IH. intros x Hx. apply H. done.
Qed.

Lemma trim_saveToCsv config l levels :
  (forall x, last (l :: levels) = Some x -> endsClean (sellOrderId x)) ->
  trim (saveToCsv rt config (l :: levels)) = saveToCsv rt config (l :: levels).
Proof.
  intros Hlast. unfold trim.
  assert (Hstart : trimStart (saveToCsv rt config (l :: levels)) = saveToCsv rt config (l :: levels)).
  { rewrite saveToCsv_lines. unfold metaLine. by rewrite string_app_cons. }
  rewrite Hstart. apply trimEnd_clean.
  rewrite saveToCsv_lines.
  pose proof (join_rows_nonempty l levels) as Hne.
  apply endsClean_app; [done|]. apply endsClean_cons; [by apply string_app_nonempty_r|].
  apply endsClean_app; [done|]. apply endsClean_cons; [done|].
  by apply endsClean_rows.
Qed.

Lemma split_saveToCsv config l levels :
  fingerprintable rt (upperPrice config) -> fingerprintable rt (lowerPrice config) ->
  fingerprintable rt (gridSpread config) ->
  Forall (storable rt) (l :: levels) ->
  split LF (saveToCsv rt config (l :: levels)) =
    metaLine rt config :: headerLine :: map (row rt) (l :: levels).
Proof.
  intros Hu Hl Hs Hall. rewrite saveToCsv_lines.
  rewrite split_app by (by apply metaLine_no_LF).
  rewrite split_app by apply headerLine_no_LF.
  do 2 f_equal. apply split_join; [done|].
  apply Forall_fmap. eapply Forall_impl; [exact Hall|]. intros x. apply row_no_LF.
Qed.

Lemma parse_rows levels :
  Forall (storable rt) levels -> mapM (parseRow rt) (map (row rt) levels) = Some levels.
Proof.
  intros Hall. apply mapM_Some_2. induction Hall as [|l levels Hl _ IH]; constructor; [|done].
  by apply parseRow_row.
Qed.

Lemma keep_rows levels :
  Forall (storable rt) levels ->
  filter (fun line => negb (startsWith line "#") && negb (startsWith line "index,") = true)
         (map (row rt) levels) = map (row rt) levels.
Proof.
  intros Hall. apply filter_all. intros line (l & -> & Hl)%list_elem_of_fmap.
  apply row_head. rewrite Forall_forall in Hall. by apply Hall.
Qed.

Lemma metaLine_head config : startsWith (metaLine rt config) "#" = true.
Proof. unfold metaLine, startsWith. by rewrite string_app_cons. Qed.

Lemma loadFromCsv_saveToCsv config levels :
  fingerprintable rt (upperPrice config) -> fingerprintable rt (lowerPrice config) ->
  fingerprintable rt (gridSpread config) ->
  Forall (storable rt) levels ->
  (forall l, last levels = Some l -> endsClean (sellOrderId l)) ->
  loadFromCsv rt (saveToCsv rt config levels) = Some levels.
Proof.
  intros Hu Hl Hs Hall Hlast. unfold loadFromCsv. cbv zeta.
  destruct levels as [|l levels].
  - assert (E : trim (saveToCsv rt config []) = metaLine rt config +:+ String LF headerLine).
    { unfold trim. rewrite saveToCsv_lines. cbn [map]. unfold join. cbn [concat].
      assert (Hstart : forall s, trimStart (metaLine rt config +:+ s) = metaLine rt config +:+ s)
        by (intros s; unfold metaLine; by rewrite string_app_cons).
      rewrite Hstart. change (String.concat nl []) with EmptyString.
      change (String LF (headerLine +:+ String LF "")) with
        ((String LF headerLine) +:+ String LF "").
      rewrite <- string_app_assoc, trimEnd_app_space by done.
      apply trimEnd_clean. apply endsClean_app; [done|]. intros c [= <-]. done. }
    rewrite E, split_app by (by apply metaLine_no_LF).
    rewrite split_no_sep by apply headerLine_no_LF.
    rewrite filter_cons_False by (rewrite metaLine_head; done).
    rewrite filter_cons_False by done. done.
  - rewrite trim_saveToCsv by done. rewrite split_saveToCsv by done.
    rewrite filter_cons_False by (rewrite metaLine_head; done).
    rewrite filter_cons_False by done.
    rewrite keep_rows by done. by apply parse_rows.
Qed.

Lemma num_eq_refl x : num_eq x x = true.
Proof. unfold num_eq. apply Qeq_bool_iff. reflexivity. Qed.

Lemma first_line config levels :
  fingerprintable rt (upperPrice config) -> fingerprintable rt (lowerPrice config) ->
  fingerprintable rt (gridSpread config) ->
  split LF (saveToCsv rt config levels) !! 0%nat = Some (metaLine rt config).
Proof.
  intros Hu Hl Hs. rewrite saveToCsv_lines.
  by rewrite split_app by (by apply metaLine_no_LF).
Qed.

Lemma checkConfigMatch_saveToCsv config levels :
  fingerprintable rt (upperPrice config) -> fingerprintable rt (lowerPrice config) ->
  fingerprintable rt (gridSpread config) ->
  checkConfigMatch rt config (saveToCsv rt config levels) = true.
Proof.
  intros Hu Hl Hs. unfold checkConfigMatch. cbv zeta.
  rewrite first_line by done. cbn [default from_option id].
  assert (Hpre : startsWith (metaLine rt config) "# config:" = true) by apply startsWith_app.
  rewrite Hpre. cbn [negb].
  assert (Hrep : replace (metaLine rt config) "# config:" "" =
                 num_toString rt (upperPrice config) +:+ ","
                   +:+ num_toString rt (lowerPrice config) +:+ ","
                   +:+ num_toString rt (gridSpread config)).
  { unfold metaLine at 1. set (rest := _ +:+ "," +:+ _).
    assert (E : forall s p, String.prefix p s = true ->
                replace s p "" = drop (String.length p) s).
    { intros s p H. destruct s; simpl in H |- *; by rewrite H. }
    rewrite E by apply startsWith_app. apply string_drop_app. }
  rewrite Hrep. destruct Hu as [Hu1 Hu2], Hl as [Hl1 Hl2], Hs as [Hs1 Hs2].
  change "," with (String comma EmptyString). rewrite !string_app_cons, !string_app_nil_l.
  rewrite split_app by (by apply isField_comma).
  rewrite split_app by (by apply isField_comma).
  rewrite split_no_sep by (by apply isField_comma).
  cbn. rewrite Hu2, Hl2, Hs2. by rewrite !num_eq_refl.
Qed.


End LedgerRoundTrip.



End LedgerFacts.

(** ** Refreshes of one strategy never overlap *)

Section SchedulerFacts.
Import Scheduler.

Lemma moveTo_lookup s i src key p lock j t :
  (i < length (tasks s))%nat ->
  tasks (moveTo s i src key p lock) !! j = Some t ->
  (j = i /\ t = mkTask src key p) \/ (j <> i /\ tasks s !! j = Some t).
Proof.
  intros Hi. cbn. destruct (decide (j = i)) as [->|Hne].
  - rewrite list_lookup_insert_eq by done. intros [= <-]. by left.
  - rewrite list_lookup_insert_ne by done. by right.
Qed.

Lemma locked_moveTo_same s i src key p b : locked (moveTo s i src key p (Some b)) key = b.
Proof. unfold locked. cbn. by rewrite lookup_insert_eq. Qed.

Lemma locked_moveTo_other s i src key p b key' :
  key' <> key -> locked (moveTo s i src key p (Some b)) key' = locked s key'.
Proof. intros H. unfold locked. cbn. by rewrite lookup_insert_ne. Qed.

Lemma locked_moveTo_none s i src key p key' : locked (moveTo s i src key p None) key' = locked s key'.
Proof. done. Qed.

Lemma exclusive_initial : exclusive initial.
Proof. split; intros *; cbn; by rewrite lookup_nil. Qed.

Ltac holder_cases H Hlen :=
  apply moveTo_lookup in H as [[-> ->]|[? H]]; [| |exact Hlen].

Lemma exclusive_step s s' : exclusive s -> step s s' -> exclusive s'.
Proof.
  intros [Huniq Hlock] Hstep.
  destruct Hstep as [src key|i src key Hi Hfree|i src key Hi|i src key Hi|i src key Hi|i src key Hi].
  - (* trigger *)
    split.
    + intros i j ti tj Hti Htj Hhi Hhj Hkey. cbn in Hti, Htj.
      apply lookup_app_Some in Hti as [Hti|[_ Hti]];
        [|apply list_lookup_singleton_Some in Hti as [_ <-]; by destruct Hhi].
      apply lookup_app_Some in Htj as [Htj|[_ Htj]];
        [|apply list_lookup_singleton_Some in Htj as [_ <-]; by destruct Hhj].
      eauto.
    + intros i t Ht Hh. cbn in Ht.
      apply lookup_app_Some in Ht as [Ht|[_ Ht]];
        [|apply list_lookup_singleton_Some in Ht as [_ <-]; by destruct Hh].
      by apply (Hlock i).
  - (* acquire *)
    pose proof (lookup_lt_Some _ _ _ Hi) as Hlen.
    assert (Hnone : forall j t, tasks s !! j = Some t -> holding t -> stratKey t <> key).
    { intros j t Ht Hh Hk. specialize (Hlock j t Ht Hh). rewrite Hk in Hlock. congruence. }
    split.
    + intros a b ta tb Hta Htb Hha Hhb Hkey.
      holder_cases Hta Hlen; holder_cases Htb Hlen; cbn in *; try done.
      * symmetry in Hkey. by apply Hnone in Htb.
      * by apply Hnone in Hta.
      * eauto.
    + intros a t Ht Hh. holder_cases Ht Hlen; cbn.
      * apply locked_moveTo_same.
      * rewrite locked_moveTo_other; [by apply (Hlock a)|]. by eapply Hnone.
  - (* sync *)
    pose proof (lookup_lt_Some _ _ _ Hi) as Hlen.
    assert (Hold : holding (mkTask src key Building)) by (by left).
    split.
    + intros a b ta tb Hta Htb Hha Hhb Hkey.
      holder_cases Hta Hlen; holder_cases Htb Hlen; cbn in *; try done.
      * symmetry. by apply (Huniq b i tb (mkTask src key Building)).
      * by apply (Huniq a i ta (mkTask src key Building)).
      * eauto.
    + intros a t Ht Hh. rewrite locked_moveTo_none. holder_cases Ht Hlen; cbn.
      * by apply (Hlock i (mkTask src key Building)).
      * by apply (Hlock a).
  - (* leave *)
    pose proof (lookup_lt_Some _ _ _ Hi) as Hlen.
    assert (Hold : holding (mkTask src key Building)) by (by left).
    split.
    + intros a b ta tb Hta Htb Hha Hhb Hkey.
      holder_cases Hta Hlen; [by destruct Hha|].
      holder_cases Htb Hlen; [by destruct Hhb|]. eauto.
    + intros a t Ht Hh. holder_cases Ht Hlen; [by destruct Hh|].
      rewrite locked_moveTo_other; [by apply (Hlock a)|].
      intros Hk. by apply (Huniq a i t (mkTask src key Building)) in Hk.
  - (* retry *)
    pose proof (lookup_lt_Some _ _ _ Hi) as Hlen.
    assert (Hold : holding (mkTask src key Syncing)) by (by right).
    split.
    + intros a b ta tb Hta Htb Hha Hhb Hkey.
      holder_cases Hta Hlen; holder_cases Htb Hlen; cbn in *; try done.
      * symmetry. by apply (Huniq b i tb (mkTask src key Syncing)).
      * by apply (Huniq a i ta (mkTask src key Syncing)).
      * eauto.
    + intros a t Ht Hh. rewrite locked_moveTo_none. holder_cases Ht Hlen; cbn.
      * by apply (Hlock i (mkTask src key Syncing)).
      * by apply (Hlock a).
  - (* finish *)
    pose proof (lookup_lt_Some _ _ _ Hi) as Hlen.
    assert (Hold : holding (mkTask src key Syncing)) by (by right).
    split.
    + intros a b ta tb Hta Htb Hha Hhb Hkey.
      holder_cases Hta Hlen; [by destruct Hha|].
      holder_cases Htb Hlen; [by destruct Hhb|]. eauto.
    + intros a t Ht Hh. holder_cases Ht Hlen; [by destruct Hh|].
      rewrite locked_moveTo_other; [by apply (Hlock a)|].
      intros Hk. by apply (Huniq a i t (mkTask src key Syncing)) in Hk.
Qed.

Lemma reachable_exclusive s : reachable s -> exclusive s.
Proof.
  unfold reachable. intros H.
  eapply (rtc_ind_r (R := step) exclusive initial); [apply exclusive_initial| |exact H].
  intros y z _ Hstep IH. by eapply exclusive_step.
Qed.

(** C9. In every reachable state of the interleaving, two calls of
    [refreshGridOrdersByAnchor] for one strategy key are never both between
    [acquire()] and [release()]; in particular at most one of them has a
    [syncActiveOrders] call in flight. *)
Theorem refresh_serialized s :
  reachable s ->
  (forall i j ti tj,
     tasks s !! i = Some ti -> tasks s !! j = Some tj ->
     stratKey ti = stratKey tj -> holding ti -> holding tj -> i = j) /\
  (forall i j src1 src2 key,
     tasks s !! i = Some (mkTask src1 key Syncing) ->
     tasks s !! j = Some (mkTask src2 key Syncing) -> i = j).
Proof.
  intros [Huniq _]%reachable_exclusive. split.
  - intros i j ti tj Hi Hj Hkey Hhi Hhj. by eapply Huniq.
  - intros i j src1 src2 key Hi Hj. eapply Huniq; [exact Hi|exact Hj|by right|by right|done].
Qed.

(** C9, witness: two triggers for one key; the first call is syncing, the
    second still waits for the lock. *)
Lemma refresh_serialized_witness :
  let key := "SOL/USDT:USDT_LONG" in
  let s1 := mkSystem ∅ [mkTask OnFill key Acquiring] in
  let s2 := mkSystem ∅ [mkTask OnFill key Acquiring; mkTask OnDrift key Acquiring] in
  let s3 := moveTo s2 0 OnFill key Building (Some true) in
  let s4 := moveTo s3 0 OnFill key Syncing None in
  reachable s4 /\
  forall j src, tasks s4 !! j = Some (mkTask src key Syncing) -> j = 0%nat.
Proof.
  intros key s1 s2 s3 s4.
  assert (Hreach : reachable s4).
  { unfold reachable.
    eapply rtc_l; [apply (step_trigger initial OnFill key)|].
    eapply rtc_l; [apply (step_trigger s1 OnDrift key)|].
    eapply rtc_l; [apply (step_acquire s2 0 OnFill key); reflexivity|].
    eapply rtc_l; [apply (step_sync s3 0 OnFill key); reflexivity|].
    apply rtc_refl. }
  split; [exact Hreach|].
  intros j src Hj. symmetry.
  eapply (proj2 (refresh_serialized s4 Hreach) 0%nat j OnFill src key); [reflexivity|exact Hj].
Defined.
End SchedulerFacts.

(** ** Nearest levels *)

Section NearestFacts.
Import GridContext BotEngine.

Lemma ascending_lookup levels : forall i a b,
  ascending levels -> levels !! i = Some a -> levels !! S i = Some b ->
  (price a <= price b)%Q.
Proof.
  induction levels as [|x [|y rest] IH]; intros i a b Hasc Ha Hb; [done..|].
  destruct Hasc as [Hxy Hrest].
  destruct i as [|i]; cbn in Ha, Hb.
  - by simplify_eq.
  - by eapply (IH i).
Qed.

Lemma ascending_intro levels :
  (forall i a b, levels !! i = Some a -> levels !! S i = Some b -> (price a <= price b)%Q) ->
  ascending levels.
Proof.
  induction levels as [|x [|y rest] IH]; intros H; [done..|].
  split.
  - by apply (H 0%nat).
  - apply IH. intros i a b Ha Hb. by apply (H (S i)).
Qed.

Lemma ascending_le levels : forall i j a b,
  ascending levels -> (i <= j)%nat -> levels !! i = Some a -> levels !! j = Some b ->
  (price a <= price b)%Q.
Proof.
  intros i j a b Hasc Hij Ha. revert b.
  induction Hij as [|j Hij IH]; intros b Hb.
  - simplify_eq. apply Qle_refl.
  - destruct (lookup_lt_is_Some_2 levels j) as [c Hc].
    { apply lookup_lt_Some in Hb. lia. }
    eapply Qle_trans; [by apply IH|]. by eapply ascending_lookup.
Qed.

Lemma indexed_lookup levels i l :
  indexed levels -> levels !! i = Some l -> index l = Z.of_nat i.
Proof.
  unfold indexed. intros H Hl.
  assert (E : map index levels !! i = Some (index l)) by (by rewrite list_lookup_fmap, Hl).
  rewrite H, list_lookup_fmap in E.
  rewrite lookup_seq_lt in E by (by eapply lookup_lt_Some). cbn in E. by simplify_eq.
Qed.

Lemma indexed_intro levels :
  (forall i l, levels !! i = Some l -> index l = Z.of_nat i) -> indexed levels.
Proof.
  intros H. unfold indexed. apply list_eq. intros i.
  rewrite !list_lookup_fmap.
  destruct (levels !! i) as [l|] eqn:E; cbn.
  - rewrite lookup_seq_lt by (by eapply lookup_lt_Some). cbn. by rewrite (H i l).
  - rewrite lookup_seq_ge; [done|]. by apply lookup_ge_None.
Qed.

Lemma num_ge_spec a b : num_ge a b = true <-> (b <= a)%Q.
Proof. unfold num_ge. apply Qle_bool_iff. Qed.

Lemma num_le_spec a b : num_le a b = true <-> (a <= b)%Q.
Proof. unfold num_le. apply Qle_bool_iff. Qed.


Lemma bracket_scan_Some levels p : forall lo hi,
  bracket_scan levels p = Some (lo, hi) ->
  exists i, levels !! i = Some lo /\ levels !! S i = Some hi /\
    (price lo <= p)%Q /\ (p <= price hi)%Q /\
    forall j a b, (j < i)%nat -> levels !! j = Some a -> levels !! S j = Some b ->
      ~ ((price a <= p)%Q /\ (p <= price b)%Q).
Proof.
  induction levels as [|x [|y rest] IH]; intros lo hi H; [done..|].
  cbn [bracket_scan] in H.
  destruct (num_ge p (price x) && num_le p (price y)) eqn:E.
  - simplify_eq. apply andb_true_iff in E as [E1%num_ge_spec E2%num_le_spec].
    exists 0%nat. split_and!; [done..|]. intros; lia.
  - apply IH in H as (i & Hlo & Hhi & H1 & H2 & Hfirst).
    exists (S i). split_and!; [done..|].
    intros [|j] a b Hj Ha Hb [Hpa Hpb].
    + cbn in Ha, Hb. simplify_eq.
      apply andb_false_iff in E as [E|E].
      * apply not_true_iff_false in E. apply E. by apply num_ge_spec.
      * apply not_true_iff_false in E. apply E. by apply num_le_spec.
    + apply (Hfirst j a b); [lia|done|done|done].
Qed.

Lemma bracket_scan_covers levels p : forall first last,
  ascending levels ->
  (2 <= length levels)%nat ->
  head levels = Some first -> list.last levels = Some last ->
  (price first <= p)%Q -> (p <= price last)%Q ->
  is_Some (bracket_scan levels p).
Proof.
  induction levels as [|x [|y rest] IH]; intros first last Hasc Hlen Hfirst Hlast Hlo Hhi;
    [cbn in Hlen; lia..|].
  cbn [bracket_scan].
  destruct (num_ge p (price x) && num_le p (price y)) eqn:E; [by eexists|].
  cbn in Hfirst. simplify_eq.
  assert (Hy : (price y < p)%Q).
  { apply andb_false_iff in E as [E|E].
    - apply not_true_iff_false in E. exfalso. apply E. by apply num_ge_spec.
    - apply not_true_iff_false in E.
      destruct (Qlt_le_dec (price y) p) as [|Hle]; [done|].
      exfalso. apply E. by apply num_le_spec. }
  destruct Hasc as [_ Hrest].
  destruct rest as [|z rest].
  - cbn in Hlast. simplify_eq. lra.
  - apply (IH y last); [done|cbn; lia|done|done|lra|done].
Qed.

Lemma getNearestLevels_Some config levels p lo hi :
  getNearestLevels config levels p = Some (lo, hi) ->
  (lowerPrice config < p)%Q /\ (p < upperPrice config)%Q /\
  exists i, levels !! i = Some lo /\ levels !! S i = Some hi /\
    (price lo <= p)%Q /\ (p <= price hi)%Q /\
    forall j a b, (j < i)%nat -> levels !! j = Some a -> levels !! S j = Some b ->
      ~ ((price a <= p)%Q /\ (p <= price b)%Q).
Proof.
  unfold getNearestLevels. intros H.
  destruct (length levels <? 2)%nat; [done|].
  destruct (num_ge p (upperPrice config) || num_le p (lowerPrice config)) eqn:E; [done|].
  apply orb_false_iff in E as [E1 E2].
  apply not_true_iff_false in E1, E2.
  rewrite num_ge_spec in E1. rewrite num_le_spec in E2.
  split_and!; [lra|lra|].
  by apply bracket_scan_Some.
Qed.

Lemma getNearestLevels_outside config levels p :
  (p <= lowerPrice config)%Q \/ (upperPrice config <= p)%Q \/ (length levels < 2)%nat ->
  getNearestLevels config levels p = None.
Proof.
  unfold getNearestLevels. intros H.
  destruct (Nat.ltb_spec (length levels) 2); [done|].
  destruct H as [H|[H|H]]; [| |lia].
  - apply num_le_spec in H. rewrite H. by rewrite orb_true_r.
  - apply num_ge_spec in H. by rewrite H.
Qed.

(** X1. [getNearestLevels] answers with two adjacent levels that bracket
    the price, the first such pair of the ladder, and only for a price
    strictly inside the configured band; for a price on a bound of the band
    or beyond it, and on a ladder of fewer than two levels, it answers
    [null]. *)
Theorem getNearestLevels_bracket config levels p :
  (forall lo hi, getNearestLevels config levels p = Some (lo, hi) ->
     (lowerPrice config < p)%Q /\ (p < upperPrice config)%Q /\
     exists i, levels !! i = Some lo /\ levels !! S i = Some hi /\
       (price lo <= p)%Q /\ (p <= price hi)%Q /\
       forall j a b, (j < i)%nat -> levels !! j = Some a -> levels !! S j = Some b ->
         ~ ((price a <= p)%Q /\ (p <= price b)%Q)) /\
  ((p <= lowerPrice config)%Q \/ (upperPrice config <= p)%Q \/ (length levels < 2)%nat ->
   getNearestLevels config levels p = None).
Proof.
  split.
  - intros lo hi H. by apply getNearestLevels_Some.
  - apply getNearestLevels_outside.
Qed.

(** X1, witness: the price 19 on the ladder of the band [16, 32]. *)
Lemma getNearestLevels_bracket_witness :
  let config := demoConfig 16 32 (1 # 8) in
  let levels := BotEngine.Ctx.levels (demoCtx 6 config) in
  exists i lo hi, levels !! i = Some lo /\ levels !! S i = Some hi /\
    (price lo <= 19)%Q /\ (19 <= price hi)%Q.
Proof.
  intros config levels.
  destruct (getNearestLevels config levels 19) as [[lo hi]|] eqn:E; [|by vm_compute in E].
  destruct (proj1 (getNearestLevels_bracket config levels 19) lo hi E)
    as (_ & _ & i & H1 & H2 & H3 & H4 & _).
  by exists i, lo, hi.
Defined.

(** The prices of a ladder built by [calculateLevels] for a valid band. *)
Lemma calculateLevels_ascending config t fuel levels :
  (lowerPrice config < upperPrice config)%Q -> (0 < gridSpread config)%Q -> (0 < t)%Q ->
  calculateLevels fuel config t = Some levels ->
  ascending levels /\ indexed levels.
Proof.
  intros Hlu Hs Ht Hrun.
  destruct (calculateLevels_shape config t fuel levels Hlu Hs Ht Hrun) as (_ & Hadj & n & _ & _ & _ & Hk).
  split.
  - apply ascending_intro. intros i a b Ha Hb. by destruct (Hadj i a b Ha Hb).
  - apply indexed_intro. intros i l Hl. by destruct (Hk i l Hl).
Qed.

(** X2. On the ladder of a valid band whose bounds the tick rounding does not
    push inwards (as when both bounds are multiples of the tick size), every
    price strictly inside the band has nearest levels. *)
Theorem getNearestLevels_covers_band config t fuel levels p :
  (lowerPrice config < upperPrice config)%Q -> (0 < gridSpread config)%Q -> (0 < t)%Q ->
  (roundToTick t (lowerPrice config) <= lowerPrice config)%Q ->
  (upperPrice config <= roundToTick t (upperPrice config))%Q ->
  calculateLevels fuel config t = Some levels ->
  (lowerPrice config < p)%Q -> (p < upperPrice config)%Q ->
  is_Some (getNearestLevels config levels p).
Proof.
  intros Hlu Hs Ht Hlo Hhi Hrun Hp1 Hp2.
  destruct (calculateLevels_ascending config t fuel levels Hlu Hs Ht Hrun) as [Hasc _].
  destruct (calculateLevels_shape config t fuel levels Hlu Hs Ht Hrun)
    as ((first & Hfirst & Hfp) & _ & n & Hlen & Hstop & Hbelow & Hk).
  assert (Hn : (1 <= n)%nat).
  { destruct n as [|n]; [|lia]. cbn in Hstop. lra. }
  destruct (lookup_lt_is_Some_2 levels n) as [last Hlast]; [lia|].
  destruct (Hk n last Hlast) as [_ Hlp].
  unfold getNearestLevels.
  destruct (Nat.ltb_spec (length levels) 2); [lia|].
  replace (num_ge p (upperPrice config)) with false; cycle 1.
  { symmetry. apply not_true_iff_false. rewrite num_ge_spec. lra. }
  replace (num_le p (lowerPrice config)) with false; cycle 1.
  { symmetry. apply not_true_iff_false. rewrite num_le_spec. lra. }
  cbn [orb].
  apply (bracket_scan_covers levels p first last); [done|lia| | | |].
  - by rewrite head_lookup.
  - rewrite last_lookup, Hlen. exact Hlast.
  - rewrite Hfp. lra.
  - rewrite Hlp.
    pose proof (roundToTick_mono t _ _ Ht Hstop). lra.
Qed.

(** X2, witness: the price 31.5 on the ladder of the band [16, 32]. *)
Lemma getNearestLevels_covers_band_witness :
  is_Some (getNearestLevels (demoConfig 16 32 (1 # 8))
             (BotEngine.Ctx.levels (demoCtx 6 (demoConfig 16 32 (1 # 8)))) (63 # 2)).
Proof.
  apply (getNearestLevels_covers_band (demoConfig 16 32 (1 # 8)) 1 6); try done.
Defined.

End NearestFacts.

Section NearestFacts2.
Import GridContext BotEngine.



End NearestFacts2.

Section ExtentFacts.
Import GridContext.





End ExtentFacts.

(** ** What one reconciliation sends and achieves *)

Section ReconcilerCalls.
Import OrderExecutor BotEngine.

Lemma cancelEach_calls {V} (g : Gateway V) ids symbol : forall w,
  calls (cancelEach g ids symbol w) = calls w ++ map (fun id => CancelOrder id symbol) ids.
Proof.
  induction ids as [|id rest IH]; intros w; cbn [cancelEach map].
  - by rewrite app_nil_r.
  - rewrite IH. unfold send. destruct (cancelOrder g id symbol (venue w)). cbn.
    by rewrite <- app_assoc.
Qed.

(** X6. The calls of one [syncActiveOrders], whatever the venue answers: the
    fetch of the open orders; then, when some order of the strategy is the
    first match of no target, one batch cancel of the ids of exactly those
    orders, followed by one single cancel per id when the batch cancel is
    rejected; then, when some target matches no order, one batch create for
    exactly those targets. A rejected fetch ends the call; a rejected cancel
    does not keep the create from being sent. *)
Theorem syncActiveOrders_calls {V} (g : Gateway V) symbol dir targets w :
  let w' := (syncActiveOrders g symbol dir targets w).2 in
  match fetchOpenOrders g symbol (venue w) with
  | (Throw _, _) => calls w' = calls w ++ [FetchOpenOrders symbol]
  | (Normal openOrders, v1) =>
      let L := filter (fun o => ofStrategy dir o = true) openOrders in
      let ids := map Order.id (ordersToDispose L (omap (fun t => fst <$> found L t) targets)) in
      let batch := map (toRequest symbol dir) (filter (fun t => found L t = None) targets) in
      let cancels :=
        match ids with
        | [] => []
        | _ => match cancelOrders g ids symbol v1 with
               | (Normal _, _) => [CancelOrders ids symbol]
               | (Throw _, _) =>
                   CancelOrders ids symbol :: map (fun id => CancelOrder id symbol) ids
               end
        end in
      let creates := match batch with [] => [] | _ => [CreateOrders batch] end in
      calls w' = calls w ++ [FetchOpenOrders symbol] ++ cancels ++ creates
  end.
Proof.
  intros w'. subst w'.
  unfold syncActiveOrders, syncActiveOrders_try, send. cbn [venue calls localOrderCache].
  destruct (fetchOpenOrders g symbol (venue w)) as [[openOrders|e] v1]; [|done].
  cbv zeta. rewrite partitionTargets_spec. cbn [app].
  set (L := filter _ openOrders).
  set (ids := map Order.id _). set (batch := map (toRequest symbol dir) _).
  cbn [venue calls localOrderCache].
  assert (Hc : forall cache v cs,
            calls (cancelEach g ids symbol (mkWorld cache v cs)) =
            cs ++ map (fun id => CancelOrder id symbol) ids).
  { intros. by rewrite cancelEach_calls. }
  destruct ids as [|id ids'] eqn:Eids.
  - cbn [length Nat.ltb Nat.leb app].
    destruct batch as [|r batch'] eqn:Ebatch; [by cbn; rewrite ?app_nil_r|].
    cbn [length Nat.ltb Nat.leb venue calls localOrderCache].
    destruct (createOrders g (r :: batch') v1) as [[newOrders|e] v2]; cbn.
    + by rewrite <- ?app_assoc.
    + destruct (isNoPosition e); cbn; by rewrite <- ?app_assoc.
  - rewrite <- Eids in *. replace (0 <? length ids)%nat with true by (by rewrite Eids).
    destruct (cancelOrders g ids symbol v1) as [[[]|e] v2].
    + cbn [venue calls localOrderCache].
      destruct batch as [|r batch'] eqn:Ebatch; [by cbn; rewrite ?app_nil_r, <- ?app_assoc|].
      cbn [length Nat.ltb Nat.leb venue calls localOrderCache].
      destruct (createOrders g (r :: batch') v2) as [[newOrders|e] v3]; cbn.
      * by rewrite <- ?app_assoc.
      * destruct (isNoPosition e); cbn; by rewrite <- ?app_assoc.
    + destruct batch as [|r batch'] eqn:Ebatch.
      * cbn [length Nat.ltb Nat.leb snd]. rewrite Hc. cbn. by rewrite ?app_nil_r, <- ?app_assoc.
      * cbn [length Nat.ltb Nat.leb venue calls localOrderCache].
        destruct (createOrders g (r :: batch') _) as [[newOrders|e'] v3]; cbn.
        -- rewrite Hc. cbn. by rewrite <- ?app_assoc.
        -- destruct (isNoPosition e'); cbn; rewrite Hc; cbn; by rewrite <- ?app_assoc.
Qed.


(** X7. The local order cache is write-only: neither the outcome of a
    reconciliation, nor the calls it sends, nor the venue afterwards depend
    on what the cache holds. *)
Theorem syncActiveOrders_ignores_cache {V} (g : Gateway V) symbol dir targets w cache :
  let r1 := syncActiveOrders_try g symbol dir targets w in
  let r2 := syncActiveOrders_try g symbol dir targets (mkWorld cache (venue w) (calls w)) in
  r1.1 = r2.1 /\ venue r1.2 = venue r2.2 /\ calls r1.2 = calls r2.2.
Proof.
  assert (Hce : forall ids c1 c2 v cs,
            venue (cancelEach g ids symbol (mkWorld c1 v cs)) =
              venue (cancelEach g ids symbol (mkWorld c2 v cs)) /\
            calls (cancelEach g ids symbol (mkWorld c1 v cs)) =
              calls (cancelEach g ids symbol (mkWorld c2 v cs))).
  { induction ids as [|id rest IH]; intros c1 c2 v cs; [done|].
    cbn [cancelEach]. unfold send. cbn [venue calls localOrderCache].
    destruct (cancelOrder g id symbol v). cbn [snd]. apply IH. }
  intros r1 r2. subst r1 r2.
  unfold syncActiveOrders_try, send. cbn [venue calls localOrderCache].
  destruct (fetchOpenOrders g symbol (venue w)) as [[openOrders|e] v1]; [|by cbn].
  cbv zeta. rewrite !partitionTargets_spec. cbn [app].
  set (L := filter _ openOrders).
  set (ids := map Order.id _). set (batch := map (toRequest symbol dir) _).
  cbn [venue calls localOrderCache].
  destruct (0 <? length ids)%nat.
  - destruct (cancelOrders g ids symbol v1) as [[[]|e] v2].
    + cbn [venue calls localOrderCache].
      destruct (0 <? length batch)%nat; [|by cbn].
      destruct (createOrders g batch v2) as [[newOrders|e] v3]; [by cbn|].
      by destruct (isNoPosition e); cbn.
    + set (c1 := <[_:=_]> _). set (c2 := <[_:=_]> _).
      destruct (Hce ids c1 c2 v2 ((calls w ++ [FetchOpenOrders symbol]) ++ [CancelOrders ids symbol]))
        as [Hv Hc].
      set (w1 := cancelEach g ids symbol (mkWorld c1 _ _)) in *.
      set (w2 := cancelEach g ids symbol (mkWorld c2 _ _)) in *.
      clearbody w1 w2.
      destruct (0 <? length batch)%nat; [|by cbn].
      rewrite Hv, Hc.
      destruct (createOrders g batch (venue w2)) as [[newOrders|e'] v3]; [by cbn|].
      by destruct (isNoPosition e'); cbn.
  - destruct (0 <? length batch)%nat; [|by cbn].
    cbn [venue calls localOrderCache].
    destruct (createOrders g batch v1) as [[newOrders|e] v3]; [by cbn|].
    by destruct (isNoPosition e); cbn.
Qed.

Lemma filter_none {A} (P : A -> Prop) `{!forall x, Decision (P x)} (l : list A) :
  (forall x, x ∈ l -> ~ P x) -> filter P l = [].
Proof.
  induction l as [|x l IH]; intros Hall; [done|].
  rewrite filter_cons_False by (apply Hall; left). apply IH. intros y Hy. apply Hall. by right.
Qed.

Lemma filter_ext_elem {A} (P Q : A -> Prop)
    `{!forall x, Decision (P x), !forall x, Decision (Q x)} (l : list A) :
  (forall x, x ∈ l -> P x <-> Q x) -> filter P l = filter Q l.
Proof.
  induction l as [|x l IH]; intros Hall; [done|].
  assert (Hx : P x <-> Q x) by (apply Hall; left).
  assert (Hl : filter P l = filter Q l) by (apply IH; intros y Hy; apply Hall; by right).
  destruct (decide (P x)).
  - rewrite !filter_cons_True by tauto. by rewrite Hl.
  - rewrite !filter_cons_False by tauto. done.
Qed.

Lemma NoDup_map_elem {A B} (f : A -> B) (l : list A) x y :
  NoDup (map f l) -> x ∈ l -> y ∈ l -> f x = f y -> x = y.
Proof.
  intros Hnd [i Hi]%list_elem_of_lookup [j Hj]%list_elem_of_lookup Hf.
  assert (i = j).
  { eapply NoDup_lookup; [exact Hnd| |].
    - by rewrite list_lookup_fmap, Hi.
    - by rewrite list_lookup_fmap, Hj, Hf. }
  subst j. rewrite Hi in Hj. by simplify_eq.
Qed.

Lemma syncActiveOrders_agrees symbol dir targets w :
  NoDup (map Order.id (Venue.resting (venue w))) ->
  let v' := venue (syncActiveOrders Venue.ideal symbol dir targets w).2 in
  (forall t, t ∈ targets ->
     exists o, o ∈ strategyOrders dir v' /\ matchesTarget t o = true) /\
  (forall o, o ∈ strategyOrders dir v' ->
     exists t, t ∈ targets /\ matchesTarget t o = true) /\
  filter (fun o => ofStrategy dir o <> true) (Venue.resting v') =
    filter (fun o => ofStrategy dir o <> true) (Venue.resting (venue w)).
Proof.
  intros Hnd v'.
  destruct (syncActiveOrders_ideal symbol dir targets w) as [_ Hrest].
  cbv zeta in Hrest. fold v' in Hrest.
  set (L0 := strategyOrders dir (venue w)) in *.
  set (keep := omap (fun t => fst <$> found L0 t) targets) in *.
  set (toPlace := filter (fun t => found L0 t = None) targets) in *.
  set (ids := map Order.id (ordersToDispose L0 keep)) in *.
  set (n0 := Venue.nextId (venue w)) in *.
  assert (Hnd0 : NoDup (map Order.id L0)) by (by apply NoDup_map_filter).
  assert (Hstrat : strategyOrders dir v' =
            filter (fun o => Order.id o ∉ ids) L0
            ++ imap (fun i r => Venue.place (n0 + i) r) (map (toRequest symbol dir) toPlace)).
  { unfold strategyOrders at 1. rewrite Hrest. apply strategyOrders_after. }
  split_and!.
  - intros t Ht. rewrite Hstrat.
    destruct (found L0 t) as [[i o]|] eqn:Ef.
    + exists o. split.
      * apply elem_of_app. left. by eapply found_survives.
      * by pose proof Ef as (_ & ? & _)%list_find_Some.
    + assert (Hin : t ∈ toPlace) by (by apply list_elem_of_filter).
      apply list_elem_of_lookup in Hin as [k Hk].
      exists (Venue.place (n0 + k) (toRequest symbol dir t)). split.
      * apply elem_of_app. right. apply list_elem_of_lookup. exists k.
        by apply placed_lookup.
      * apply matchesTarget_place, clash_refl.
  - intros o. rewrite Hstrat, elem_of_app. intros [Ho|Ho].
    + apply survivor_found in Ho as (t & i & Ht & Hf).
      exists t. split; [done|].
      by pose proof Hf as (_ & ? & _)%list_find_Some.
    + apply list_elem_of_lookup in Ho as [k Hk].
      rewrite list_lookup_imap, list_lookup_fmap in Hk.
      destruct (toPlace !! k) as [t|] eqn:Et; [|done]. cbn in Hk. simplify_eq.
      exists t. split.
      * apply list_elem_of_lookup_2 in Et. by apply list_elem_of_filter in Et as [_ ?].
      * apply matchesTarget_place, clash_refl.
  - rewrite Hrest, filter_app.
    rewrite (filter_none (fun o => ofStrategy dir o <> true) (imap _ _)); cycle 1.
    { intros o [k Hk]%list_elem_of_lookup.
      rewrite list_lookup_imap, list_lookup_fmap in Hk.
      destruct (toPlace !! k) as [t|]; [|done]. cbn in Hk. simplify_eq.
      intros Hne. apply Hne, ofStrategy_place. }
    rewrite app_nil_r, list_filter_filter.
    apply filter_ext_elem. intros o Ho. split; [by intros [? _]|].
    intros Hne. split; [done|].
    intros (o' & Hid & (i' & Hi' & _)%ordersToDispose_elem)%list_elem_of_fmap.
    apply list_elem_of_lookup_2, list_elem_of_filter in Hi' as [Hs Ho'].
    apply Hne. by rewrite (NoDup_map_elem Order.id _ o o' Hnd Ho Ho' Hid).
Qed.

(** X8. One reconciliation against a venue that executes what it is sent,
    and whose resting orders bear distinct ids, makes the strategy's side of
    the book agree with the target set: every target is met by a resting
    order, every resting order of the strategy meets a target, and the
    orders of the opposite position side are left as they were. With an
    empty target set the strategy's side of the book ends up empty. *)
Theorem syncActiveOrders_converges symbol dir targets w :
  NoDup (map Order.id (Venue.resting (venue w))) ->
  let v' := venue (syncActiveOrders Venue.ideal symbol dir targets w).2 in
  (forall t, t ∈ targets ->
     exists o, o ∈ strategyOrders dir v' /\ matchesTarget t o = true) /\
  (forall o, o ∈ strategyOrders dir v' ->
     exists t, t ∈ targets /\ matchesTarget t o = true) /\
  filter (fun o => ofStrategy dir o <> true) (Venue.resting v') =
    filter (fun o => ofStrategy dir o <> true) (Venue.resting (venue w)) /\
  (targets = [] -> strategyOrders dir v' = []).
Proof.
  intros Hnd v'.
  destruct (syncActiveOrders_agrees symbol dir targets w Hnd) as (Hmet & Hmeets & Hother).
  fold v' in Hmet, Hmeets, Hother.
  split_and!; [exact Hmet|exact Hmeets|exact Hother|].
  intros ->. destruct (strategyOrders dir v') as [|o rest] eqn:E; [done|].
  destruct (Hmeets o) as (t & Ht & _); [left|]. by apply not_elem_of_nil in Ht.
Qed.

(** X8, witness: two targets against a book that holds one order of each
    position side. *)
Lemma syncActiveOrders_converges_witness :
  let targets := [Target.mk 99 1 open; Target.mk 101 1 close] in
  let w := mkWorld ∅ (Venue.mk [Order.mk "7" 95 buy "long" "open";
                                Order.mk "8" 120 sell "short" "open"] 9) [] in
  let v' := venue (syncActiveOrders Venue.ideal "SOL/USDT:USDT" LONG targets w).2 in
  NoDup (map Order.id (Venue.resting (venue w))) /\
  exists o, o ∈ strategyOrders LONG v' /\ matchesTarget (Target.mk 99 1 open) o = true.
Proof.
  intros targets w.
  assert (Hids : NoDup (map Order.id (Venue.resting (venue w)))).
  { apply (bool_decide_unpack _). by vm_compute. }
  split; [exact Hids|].
  refine (proj1 (syncActiveOrders_converges "SOL/USDT:USDT" LONG targets w Hids)
                (Target.mk 99 1 open) _).
  subst targets. set_solver.
Defined.

End ReconcilerCalls.

(** ** The window, level by level *)

Section WindowShape.
Import GridContext OrderExecutor BotEngine.
Context (config : GridConfig) (levels : list GridLevel) (anchorIndex : Z).

Lemma level_array_get idx l : level levels idx = Normal l <-> array_get levels idx = Some l.
Proof. unfold level. destruct (array_get levels idx); split; intros; by simplify_eq. Qed.

Lemma array_get_range {A} (l : list A) idx x :
  array_get l idx = Some x -> 0 <= idx < Z.of_nat (length l).
Proof.
  unfold array_get. destruct (Z.ltb_spec idx 0); [done|].
  intros Hlt%lookup_lt_Some. lia.
Qed.

(** What the first loop appends. *)
Lemma lowerWindow_adds n : forall i targets r,
  lowerWindow n i config levels anchorIndex targets = Normal r ->
  exists added, r = targets ++ added /\ (length added <= n)%nat /\
    Forall (fun t => exists j l, i <= j < i + Z.of_nat n /\
              array_get levels (anchorIndex - j) = Some l /\
              t = Target.mk (price l) (quantityPerGrid config) (lowerAction config)) added.
Proof.
  induction n as [|n IH]; intros i targets r; cbn [lowerWindow].
  - intros [= <-]. exists []. by rewrite app_nil_r.
  - destruct (anchorIndex - i <? 0).
    { intros [= <-]. exists []. rewrite app_nil_r. split_and!; [done|cbn; lia|done]. }
    destruct (level levels (anchorIndex - i)) as [l|e] eqn:El; [|done].
    apply level_array_get in El.
    intros (added & -> & Hlen & Hall)%IH.
    eexists (_ :: added). split_and!.
    + by rewrite <- app_assoc.
    + cbn. lia.
    + constructor.
      * exists i, l. split_and!; [lia|lia|done|done].
      * eapply Forall_impl; [exact Hall|]. intros t (j & l' & ? & ? & ?).
        exists j, l'. split_and!; [lia|lia|done|done].
Qed.

(** What the second loop appends. *)
Lemma upperWindow_adds disabled n : forall i targets r,
  upperWindow n i config levels anchorIndex disabled targets = Normal r ->
  exists added, r = targets ++ added /\ (length added <= n)%nat /\
    Forall (fun t => exists j l, i <= j < i + Z.of_nat n /\
              array_get levels (anchorIndex + j) = Some l /\
              t = Target.mk (price l) (quantityPerGrid config) (upperAction config)) added.
Proof.
  induction n as [|n IH]; intros i targets r; cbn [upperWindow].
  - intros [= <-]. exists []. by rewrite app_nil_r.
  - destruct (Z.of_nat (length levels) <=? anchorIndex + i).
    { intros [= <-]. exists []. rewrite app_nil_r. split_and!; [done|cbn; lia|done]. }
    destruct (bool_decide (direction config = LONG) && disabled) eqn:E.
    { intros (added & -> & Hlen & Hall)%IH. exists added. split_and!; [done|lia|].
      eapply Forall_impl; [exact Hall|]. intros t (j & l' & ? & ? & ?).
      exists j, l'. split_and!; [lia|lia|done|done]. }
    destruct (level levels (anchorIndex + i)) as [l|e] eqn:El; [|done].
    apply level_array_get in El.
    intros (added & -> & Hlen & Hall)%IH.
    eexists (_ :: added). split_and!.
    + by rewrite <- app_assoc.
    + cbn. lia.
    + constructor.
      * exists i, l. split_and!; [lia|lia|done|].
        unfold upperAction. by destruct (direction config).
      * eapply Forall_impl; [exact Hall|]. intros t (j & l' & ? & ? & ?).
        exists j, l'. split_and!; [lia|lia|done|done].
Qed.

(** The first loop reaches every level below the anchor within its range. *)
Lemma lowerWindow_has n : forall i targets r j l,
  lowerWindow n i config levels anchorIndex targets = Normal r ->
  0 < i -> i <= j < i + Z.of_nat n ->
  array_get levels (anchorIndex - j) = Some l ->
  Target.mk (price l) (quantityPerGrid config) (lowerAction config) ∈ r.
Proof.
  induction n as [|n IH]; intros i targets r j l; cbn [lowerWindow]; [lia|].
  intros H Hi Hj Hl. pose proof (array_get_range _ _ _ Hl).
  destruct (Z.ltb_spec (anchorIndex - i) 0); [lia|].
  destruct (level levels (anchorIndex - i)) as [l0|e] eqn:El; [|done].
  apply level_array_get in El.
  destruct (decide (j = i)) as [->|Hne].
  - apply lowerWindow_adds in H as (added & -> & _).
    rewrite El in Hl. simplify_eq.
    rewrite !elem_of_app. left. right. by apply list_elem_of_singleton.
  - eapply (IH (i + 1) _ _ j); [exact H|lia|lia|done].
Qed.

Lemma upperWindow_has disabled n : forall i targets r j l,
  upperWindow n i config levels anchorIndex disabled targets = Normal r ->
  (direction config = LONG -> disabled = false) ->
  0 < i -> i <= j < i + Z.of_nat n ->
  array_get levels (anchorIndex + j) = Some l ->
  Target.mk (price l) (quantityPerGrid config) (upperAction config) ∈ r.
Proof.
  induction n as [|n IH]; intros i targets r j l; cbn [upperWindow]; [lia|].
  intros H Hdis Hi Hj Hl. pose proof (array_get_range _ _ _ Hl).
  destruct (Z.leb_spec (Z.of_nat (length levels)) (anchorIndex + i)); [lia|].
  replace (bool_decide (direction config = LONG) && disabled) with false in H; cycle 1.
  { symmetry. apply andb_false_iff. destruct (decide (direction config = LONG)) as [e|n0].
    - right. by apply Hdis.
    - left. by apply bool_decide_eq_false. }
  destruct (level levels (anchorIndex + i)) as [l0|e] eqn:El; [|done].
  apply level_array_get in El.
  destruct (decide (j = i)) as [->|Hne].
  - apply upperWindow_adds in H as (added & -> & _).
    rewrite El in Hl. simplify_eq.
    rewrite !elem_of_app. left. right. apply list_elem_of_singleton.
    unfold upperAction. by destruct (direction config).
  - eapply (IH (i + 1) _ _ j); [exact H|done|lia|lia|done].
Qed.

Lemma buildTargets_length order_window disabled targets :
  buildTargets config levels anchorIndex order_window disabled = Normal targets ->
  (length targets <= 2 * Z.to_nat (windowSize order_window))%nat.
Proof.
  unfold buildTargets. intros H.
  destruct (lowerWindow _ _ _ _ _ _) as [lo|e] eqn:Hlo; [|done].
  destruct (upperWindow _ _ _ _ _ _ _) as [up|e] eqn:Hup; [|done].
  revert H. intros [= <-].
  rewrite spliceLoop_filter by lia. rewrite take_0, drop_0, app_nil_l.
  pose proof (lowerWindow_adds _ _ _ _ Hlo) as (addedLo & -> & HlenLo & _).
  pose proof (upperWindow_adds _ _ _ _ _ Hup) as (addedUp & -> & HlenUp & _).
  rewrite app_nil_l in *.
  etrans; [apply length_filter|]. rewrite length_app. lia.
Qed.

Lemma buildTargets_shape order_window disabled targets :
  buildTargets config levels anchorIndex order_window disabled = Normal targets ->
  let n := windowSize order_window in
  (forall t, t ∈ targets -> exists j l, 1 <= j <= n /\
     ((array_get levels (anchorIndex - j) = Some l /\
       t = Target.mk (price l) (quantityPerGrid config) (lowerAction config)) \/
      (array_get levels (anchorIndex + j) = Some l /\
       t = Target.mk (price l) (quantityPerGrid config) (upperAction config)))) /\
  (forall j l, 1 <= j <= n -> array_get levels (anchorIndex - j) = Some l ->
     (lowerAction config = close -> disabled = false) ->
     Target.mk (price l) (quantityPerGrid config) (lowerAction config) ∈ targets) /\
  (forall j l, 1 <= j <= n -> array_get levels (anchorIndex + j) = Some l ->
     (upperAction config = close -> disabled = false) ->
     Target.mk (price l) (quantityPerGrid config) (upperAction config) ∈ targets).
Proof.
  intros H n. unfold buildTargets in H. subst n.
  destruct (lowerWindow _ _ _ _ _ _) as [lo|e] eqn:Hlo; [|done].
  destruct (upperWindow _ _ _ _ _ _ _) as [up|e] eqn:Hup; [|done].
  revert H. intros [= <-].
  rewrite spliceLoop_filter by lia. rewrite take_0, drop_0, app_nil_l.
  pose proof (lowerWindow_adds _ _ _ _ Hlo) as (addedLo & -> & HlenLo & HallLo).
  pose proof (upperWindow_adds _ _ _ _ _ Hup) as (addedUp & -> & HlenUp & HallUp).
  rewrite app_nil_l in *.
  rewrite Forall_forall in HallLo, HallUp.
  split_and!.
  - intros t [_ [Ht|Ht]%elem_of_app]%list_elem_of_filter.
    + destruct (HallLo t Ht) as (j & l & ? & ? & ?). exists j, l. split; [lia|by left].
    + destruct (HallUp t Ht) as (j & l & ? & ? & ?). exists j, l. split; [lia|by right].
  - intros j l Hj Hl Hdis. apply list_elem_of_filter. split.
    + unfold kept. cbn. intros (_ & Hc & ->). by specialize (Hdis Hc).
    + apply upperWindow_adds in Hup as (? & -> & _). apply elem_of_app. left.
      eapply (lowerWindow_has _ 1 [] _ j); [exact Hlo|lia|lia|done].
  - intros j l Hj Hl Hdis. apply list_elem_of_filter. split.
    + unfold kept. cbn. intros (_ & Hc & ->). by specialize (Hdis Hc).
    + eapply (upperWindow_has _ _ 1 _ _ j); [exact Hup| |lia|lia|done].
      intros HL. apply Hdis. unfold upperAction. by rewrite HL.
Qed.

(** X9. The target set of a refresh, level by level. With [n] the window
    size: the set holds at most [2 n] targets; each is priced at a level
    between 1 and [n] positions below the anchor, with the lower-side action
    (open for LONG, close for SHORT), or as many positions above it, with the
    upper-side action, and asks for [quantityPerGrid]; the anchor level
    itself is never a target. Conversely every level of the ladder within
    [n] positions of the anchor is a target, except that close targets are
    left out while close orders are disabled. *)
Theorem buildTargets_window order_window disabled targets :
  buildTargets config levels anchorIndex order_window disabled = Normal targets ->
  (length targets <= 2 * Z.to_nat (windowSize order_window))%nat /\
  let n := windowSize order_window in
  (forall t, t ∈ targets -> exists j l, 1 <= j <= n /\
     ((array_get levels (anchorIndex - j) = Some l /\
       t = Target.mk (price l) (quantityPerGrid config) (lowerAction config)) \/
      (array_get levels (anchorIndex + j) = Some l /\
       t = Target.mk (price l) (quantityPerGrid config) (upperAction config)))) /\
  (forall j l, 1 <= j <= n -> array_get levels (anchorIndex - j) = Some l ->
     (lowerAction config = close -> disabled = false) ->
     Target.mk (price l) (quantityPerGrid config) (lowerAction config) ∈ targets) /\
  (forall j l, 1 <= j <= n -> array_get levels (anchorIndex + j) = Some l ->
     (upperAction config = close -> disabled = false) ->
     Target.mk (price l) (quantityPerGrid config) (upperAction config) ∈ targets).
Proof.
  intros H. split.
  - by eapply buildTargets_length.
  - by apply buildTargets_shape.
Qed.

(** X10. On a ladder whose prices never decrease, the targets of the lower-side
    action are priced at or below the anchor level and those of the
    upper-side action at or above it: a LONG strategy opens at or below the
    anchor and closes at or above it, a SHORT strategy the other way round. *)
Theorem buildTargets_sides order_window disabled targets anchorLevel t :
  ascending levels ->
  array_get levels anchorIndex = Some anchorLevel ->
  buildTargets config levels anchorIndex order_window disabled = Normal targets ->
  t ∈ targets ->
  (Target.action t = lowerAction config -> (Target.price t <= price anchorLevel)%Q) /\
  (Target.action t = upperAction config -> (price anchorLevel <= Target.price t)%Q).
Proof.
  intros Hasc Ha Hb Ht.
  destruct (buildTargets_shape _ _ _ Hb) as (Hfrom & _).
  destruct (Hfrom t Ht) as (j & l & Hj & [[Hl ->]|[Hl ->]]); cbn.
  - pose proof (array_get_range _ _ _ Hl). pose proof (array_get_range _ _ _ Ha).
    unfold array_get in Hl, Ha.
    destruct (Z.ltb_spec (anchorIndex - j) 0); [lia|].
    destruct (Z.ltb_spec anchorIndex 0); [lia|].
    pose proof (ascending_le levels (Z.to_nat (anchorIndex - j)) (Z.to_nat anchorIndex) _ _ Hasc ltac:(lia) Hl Ha).
    split; [done|]. unfold lowerAction, upperAction. by destruct (direction config).
  - pose proof (array_get_range _ _ _ Hl). pose proof (array_get_range _ _ _ Ha).
    unfold array_get in Hl, Ha.
    destruct (Z.ltb_spec (anchorIndex + j) 0); [lia|].
    destruct (Z.ltb_spec anchorIndex 0); [lia|].
    pose proof (ascending_le levels (Z.to_nat anchorIndex) (Z.to_nat (anchorIndex + j)) _ _ Hasc ltac:(lia) Ha Hl).
    split; [|done]. unfold lowerAction, upperAction. by destruct (direction config).
Qed.

End WindowShape.

Section WindowWitnesses.
Import GridContext OrderExecutor BotEngine.

(** X9, witness: window 2 around anchor 3 of the seven-level ladder. *)
Lemma buildTargets_window_witness :
  let ctx := demoCtx 6 (demoConfig 16 32 (1 # 8)) in
  exists targets, buildTargets (Ctx.config ctx) (Ctx.levels ctx) 3 2 false = Normal targets /\
    (length targets <= 4)%nat.
Proof.
  intros ctx.
  destruct (buildTargets (Ctx.config ctx) (Ctx.levels ctx) 3 2 false) as [targets|e] eqn:E;
    [|by vm_compute in E].
  exists targets. split; [done|].
  exact (proj1 (buildTargets_window (Ctx.config ctx) (Ctx.levels ctx) 3 2 false targets E)).
Defined.

(** X10, witness: the open target at 20 below the anchor level 23. *)
Lemma buildTargets_sides_witness :
  let ctx := demoCtx 6 (demoConfig 16 32 (1 # 8)) in
  (Target.price (Target.mk 20 1 open) <= 23)%Q.
Proof.
  intros ctx.
  refine (proj1 (buildTargets_sides (Ctx.config ctx) (Ctx.levels ctx) 3 1 false
            [Target.mk 20 1 open; Target.mk 26 1 close] (mkLevel 3 23 "" "") (Target.mk 20 1 open)
            _ _ _ _) _).
  - vm_compute. repeat split; discriminate.
  - reflexivity.
  - reflexivity.
  - left.
  - reflexivity.
Defined.

End WindowWitnesses.

(** ** Strategy keys and the invariants of the engine *)

Section KeyFacts.
Import JsString BotEngine.

Lemma chars_inj a : forall b, chars a = chars b -> a = b.
Proof.
  induction a as [|c a IH]; intros [|d b]; cbn; intros H; try done.
  injection H as -> H. f_equal. by apply IH.
Qed.

Lemma directionTag_chars (d : GridDirection) :
  chars match d with LONG => "LONG" | SHORT => "SHORT" end =
    match d with LONG => ["L"; "O"; "N"; "G"] | SHORT => ["S"; "H"; "O"; "R"; "T"] end%char.
Proof. by destruct d. Qed.

(** X11. Two strategies have the same key only when they trade the same symbol
    in the same direction: the lock, the anchor, the cooldown clock and the
    close switch of a strategy are shared with no other (symbol, direction). *)
Theorem getStratKey_inj symbol1 direction1 symbol2 direction2 :
  getStratKey symbol1 direction1 = getStratKey symbol2 direction2 ->
  symbol1 = symbol2 /\ direction1 = direction2.
Proof.
  unfold getStratKey. intros H. apply (f_equal chars) in H.
  rewrite !chars_app, !directionTag_chars in H. cbn [chars] in H.
  assert (Hd : direction1 = direction2).
  { apply (f_equal reverse) in H. rewrite !reverse_app in H.
    destruct direction1, direction2; cbn in H; (done || by simplify_eq). }
  subst direction2. split; [|done].
  apply app_inv_tail in H. by apply chars_inj.
Qed.

(** X11, witness: a key compared with itself. *)
Lemma getStratKey_inj_witness :
  "SOL/USDT:USDT" = "SOL/USDT:USDT" /\ LONG = LONG.
Proof. apply getStratKey_inj. reflexivity. Defined.

End KeyFacts.

Section EngineFacts.
Import GridContext OrderExecutor BotEngine Engine.

Lemma refresh_keeps_state {V} (g : Gateway V) fuel ctx order_window st w r st' w' :
  refreshGridOrdersByAnchor (S fuel) g ctx order_window st w = Some (r, st', w') -> st' = st.
Proof.
  unfold refreshGridOrdersByAnchor.
  destruct (refreshLoop_single_pass g fuel ctx order_window st w) as (r0 & w0 & ->).
  by intros [= _ <- _].
Qed.

Lemma refreshCaught_spec {V} (g : Gateway V) fuel ctx order_window st w :
  exists w', refreshCaught (S fuel) g ctx order_window st w = Some (Normal tt, st, w').
Proof.
  unfold refreshCaught, refreshGridOrdersByAnchor.
  destruct (refreshLoop_single_pass g fuel ctx order_window st w) as (r0 & w0 & ->). eauto.
Qed.

Lemma closerIndex_cases nearest p :
  closerIndex nearest p = index nearest.1 \/ closerIndex nearest p = index nearest.2.
Proof. unfold closerIndex. destruct (num_lt _ _); auto. Qed.

(** The candidate anchor read off the nearest levels is a position of the
    ladder. *)
Lemma closerIndex_range config levels p nearest :
  indexed levels ->
  getNearestLevels config levels p = Some nearest ->
  (2 <= length levels)%nat /\
  0 <= index nearest.1 < Z.of_nat (length levels) /\
  0 <= closerIndex nearest p < Z.of_nat (length levels).
Proof.
  intros Hidx H. destruct nearest as [lo hi].
  apply getNearestLevels_Some in H as (_ & _ & i & Hlo & Hhi & _).
  pose proof (lookup_lt_Some _ _ _ Hhi).
  destruct (closerIndex_cases (lo, hi) p) as [->| ->]; cbn [fst snd];
    rewrite ?(indexed_lookup _ _ _ Hidx Hlo), ?(indexed_lookup _ _ _ Hidx Hhi); lia.
Qed.

Lemma finalAnchor_range ctx order newAnchor :
  indexed (Ctx.levels ctx) ->
  0 <= newAnchor < Z.of_nat (length (Ctx.levels ctx)) ->
  0 <= finalAnchor ctx order newAnchor < Z.of_nat (length (Ctx.levels ctx)).
Proof.
  intros Hidx Hn. unfold finalAnchor.
  destruct (isTriggeringStrat _ _); [|done].
  destruct (getNearestLevels _ _ _) as [filledNearest|] eqn:E; [|done].
  destruct (closerIndex_range _ _ _ _ Hidx E) as (_ & _ & ?).
  destruct (String.eqb _ _); [|done].
  destruct (direction _); lia.
Qed.

Lemma onFill_anchors ctx order referencePrice st key :
  anchorIndices (onFill ctx order referencePrice st).1 !! key =
    match getNearestLevels (Ctx.config ctx) (Ctx.levels ctx) referencePrice with
    | Some nearest =>
        if decide (key = keyOf ctx)
        then Some (finalAnchor ctx order (closerIndex nearest referencePrice))
        else anchorIndices st !! key
    | None => anchorIndices st !! key
    end.
Proof.
  unfold onFill. destruct (getNearestLevels _ _ _) as [nearest|]; [|done].
  cbv zeta.
  assert (E : forall m : gmap string Z,
             <[keyOf ctx := finalAnchor ctx order (closerIndex nearest referencePrice)]> m !! key =
             if decide (key = keyOf ctx)
             then Some (finalAnchor ctx order (closerIndex nearest referencePrice)) else m !! key).
  { intros m. destruct (decide (key = keyOf ctx)) as [->|].
    - apply lookup_insert_eq.
    - by apply lookup_insert_ne. }
  destruct (negb _ || _); [destruct (_ && _)|]; cbn; apply E.
Qed.

Lemma onFill_anchored ctx' order referencePrice st ctx :
  indexed (Ctx.levels ctx') ->
  (keyOf ctx = keyOf ctx' -> ctx = ctx') ->
  anchored ctx st -> anchored ctx (onFill ctx' order referencePrice st).1.
Proof.
  intros Hidx Hsame Hst a. rewrite onFill_anchors.
  destruct (getNearestLevels _ _ _) as [nearest|] eqn:E; [|apply Hst].
  destruct (decide (keyOf ctx = keyOf ctx')) as [Hk|]; [|apply Hst].
  specialize (Hsame Hk). subst ctx'. intros [= <-].
  destruct (closerIndex_range _ _ _ _ Hidx E) as (? & _ & ?).
  split; [done|]. by apply finalAnchor_range.
Qed.

Lemma onTicker_anchored ctx' currentPrice now st st' b ctx :
  indexed (Ctx.levels ctx') ->
  (keyOf ctx = keyOf ctx' -> ctx = ctx') ->
  onTicker ctx' currentPrice now st = Normal (st', b) ->
  anchored ctx st -> anchored ctx st'.
Proof.
  intros Hidx Hsame H Hst. destruct b.
  - apply onTicker_reset in H as (a0 & l0 & d & nearest & _ & _ & _ & _ & _ & E & _ & ->).
    intros a. cbn.
    destruct (decide (keyOf ctx = keyOf ctx')) as [Hk|Hk].
    + specialize (Hsame Hk). subst ctx'. rewrite lookup_insert_eq. intros [= <-].
      destruct (closerIndex_range _ _ _ _ Hidx E) as (? & _ & ?). done.
    + rewrite lookup_insert_ne by done. apply Hst.
  - by apply onTicker_no_reset in H as ->.
Qed.

(** With a valid anchor the drift handler reads no level outside the
    ladder. *)
Lemma onTicker_Normal ctx currentPrice now st :
  anchored ctx st -> exists r, onTicker ctx currentPrice now st = Normal r.
Proof.
  intros Hst. unfold onTicker.
  destruct (anchorIndices st !! keyOf ctx) as [a|] eqn:Ea; [|eauto].
  destruct (Hst a Ea) as [Hlen Ha].
  destruct (level_Normal (Ctx.levels ctx) a Ha) as [la ->].
  destruct (level_Normal (Ctx.levels ctx) 1) as [l1 ->]; [lia|].
  assert (Hd : exists d, currentGridDiff (Ctx.levels ctx) a = Normal d).
  { unfold currentGridDiff.
    destruct (Z.ltb_spec a (Z.of_nat (length (Ctx.levels ctx)) - 1)).
    - destruct (level_Normal (Ctx.levels ctx) (a + 1)) as [? ->]; [lia|].
      destruct (level_Normal (Ctx.levels ctx) a Ha) as [? ->]. eauto.
    - destruct (Z.ltb_spec 0 a); [|lia].
      destruct (level_Normal (Ctx.levels ctx) a Ha) as [? ->].
      destruct (level_Normal (Ctx.levels ctx) (a - 1)) as [? ->]; [lia|]. eauto. }
  destruct Hd as [d ->].
  destruct (num_gt _ _); [|eauto].
  destruct (_ <? 5000); [eauto|].
  destruct (getNearestLevels _ _ _); [|eauto].
  destruct (negb _); eauto.
Qed.

Lemma refresh_Normal {V} (g : Gateway V) fuel ctx order_window st w :
  anchored ctx st ->
  exists w', refreshGridOrdersByAnchor (S fuel) g ctx order_window st w = Some (Normal tt, st, w').
Proof.
  intros Hst. unfold refreshGridOrdersByAnchor. cbn [refreshLoop].
  destruct (anchorIndices st !! keyOf ctx) as [a|] eqn:Ea; [|eauto].
  destruct (Hst a Ea) as [Hlen Ha].
  destruct (buildTargets_total (Ctx.config ctx) (Ctx.levels ctx) a order_window
              (closeDisabled st (keyOf ctx)) Ha) as [targets ->].
  destruct (level_Normal (Ctx.levels ctx) a Ha) as [la ->].
  pose proof (syncActiveOrders_never_throws g (symbol (Ctx.config ctx))
                (direction (Ctx.config ctx)) targets w) as Hsync.
  destruct (syncActiveOrders _ _ _ _ _) as [[[]|e] w']; cbn in Hsync; [eauto|done].
Qed.

Lemma initialPositioning_spec {V} (g : Gateway V) fuel ctx order_window ticker st w :
  exists r st' w', initialPositioning (S fuel) g ctx order_window ticker st w = Some (r, st', w') /\
    isCloseDisabled st' = isCloseDisabled st /\
    forall key, anchorIndices st' !! key =
      match ticker with
      | Normal p =>
          match getNearestLevels (Ctx.config ctx) (Ctx.levels ctx) p with
          | Some nearest => if decide (key = keyOf ctx) then Some (index nearest.1)
                            else anchorIndices st !! key
          | None => anchorIndices st !! key
          end
      | Throw _ => anchorIndices st !! key
      end.
Proof.
  unfold initialPositioning. destruct ticker as [p|e]; [|by eauto 10].
  destruct (getNearestLevels _ _ _) as [nearest|]; [|by eauto 10].
  cbv zeta. unfold refreshGridOrdersByAnchor.
  destruct (refreshLoop_single_pass g fuel ctx order_window
              (mkState (<[keyOf ctx := index nearest.1]> (anchorIndices st))
                       (lastAnchorResetTime st) (isCloseDisabled st)) w) as (r0 & w0 & ->).
  eexists _, _, _. split_and!; [done|done|].
  intros key. cbn. destruct (decide (key = keyOf ctx)) as [->|].
  - apply lookup_insert_eq.
  - by apply lookup_insert_ne.
Qed.

Lemma react_total {V} (g : Gateway V) fuel order_window i st w :
  exists r st' w', react (S fuel) g order_window i st w = Some (r, st', w').
Proof.
  destruct i as [ctx ticker|ctx p now|ctx order p]; cbn [react].
  - destruct (initialPositioning_spec g fuel ctx order_window ticker st w)
      as (r & st' & w' & -> & _). eauto.
  - destruct (onTicker ctx p now st) as [[st' []]|e]; [|eauto..].
    destruct (refreshCaught_spec g fuel ctx order_window st' w) as [w' ->]. eauto.
  - destruct (onFill ctx order p st) as [st' []]; [|eauto].
    destruct (refreshCaught_spec g fuel ctx order_window st' w) as [w' ->]. eauto.
Qed.

Lemma react_anchored {V} (g : Gateway V) fuel order_window i st w r st' w' ctx :
  indexed (Ctx.levels (ctxOf i)) ->
  (keyOf ctx = keyOf (ctxOf i) -> ctx = ctxOf i) ->
  react (S fuel) g order_window i st w = Some (r, st', w') ->
  anchored ctx st -> anchored ctx st'.
Proof.
  intros Hidx Hsame H Hst.
  destruct i as [ctx' ticker|ctx' p now|ctx' order p]; cbn [react ctxOf] in *.
  - destruct (initialPositioning_spec g fuel ctx' order_window ticker st w)
      as (r0 & st0 & w0 & E & _ & Hanch).
    rewrite E in H. simplify_eq. intros a. rewrite Hanch.
    destruct ticker as [p|e]; [|apply Hst].
    destruct (getNearestLevels _ _ _) as [nearest|] eqn:En; [|apply Hst].
    destruct (decide (keyOf ctx = keyOf ctx')) as [Hk|]; [|apply Hst].
    specialize (Hsame Hk). subst ctx'. intros [= <-].
    destruct (closerIndex_range _ _ _ _ Hidx En) as (? & ? & _). done.
  - destruct (onTicker ctx' p now st) as [[st1 b]|e] eqn:E; [|by simplify_eq].
    assert (anchored ctx st1) by (by eapply onTicker_anchored).
    destruct b; [|by simplify_eq].
    destruct (refreshCaught_spec g fuel ctx' order_window st1 w) as [w1 E1].
    rewrite E1 in H. by simplify_eq.
  - pose proof (onFill_anchored ctx' order p st ctx Hidx Hsame Hst) as H1.
    destruct (onFill ctx' order p st) as [st1 b]. cbn in H1.
    destruct b; [|by simplify_eq].
    destruct (refreshCaught_spec g fuel ctx' order_window st1 w) as [w1 E1].
    rewrite E1 in H. by simplify_eq.
Qed.

Lemma react_closeDisabled {V} (g : Gateway V) fuel order_window i st w r st' w' :
  react (S fuel) g order_window i st w = Some (r, st', w') ->
  (forall key, closeDisabled st key = false) -> forall key, closeDisabled st' key = false.
Proof.
  intros H Hst.
  destruct i as [ctx' ticker|ctx' p now|ctx' order p]; cbn [react] in *.
  - destruct (initialPositioning_spec g fuel ctx' order_window ticker st w)
      as (r0 & st0 & w0 & E & Hd & _).
    rewrite E in H. simplify_eq. intros key. unfold closeDisabled. rewrite Hd. apply Hst.
  - destruct (onTicker ctx' p now st) as [[st1 b]|e] eqn:E; [|by simplify_eq].
    assert (forall key, closeDisabled st1 key = false).
    { destruct b.
      - apply onTicker_reset in E as (? & ? & ? & ? & _ & _ & _ & _ & _ & _ & _ & ->). apply Hst.
      - by apply onTicker_no_reset in E as ->. }
    destruct b; [|by simplify_eq].
    destruct (refreshCaught_spec g fuel ctx' order_window st1 w) as [w1 E1].
    rewrite E1 in H. by simplify_eq.
  - assert (H1 : forall key, closeDisabled (onFill ctx' order p st).1 key = false).
    { intros key. unfold onFill.
      destruct (getNearestLevels _ _ _); [|apply Hst]. cbv zeta.
      destruct (negb _ || _); [|apply Hst].
      destruct (_ && _); [|apply Hst].
      unfold closeDisabled. cbn.
      destruct (decide (key = keyOf ctx')) as [->|].
      - by rewrite lookup_insert_eq.
      - rewrite lookup_insert_ne by done. apply Hst. }
    destruct (onFill ctx' order p st) as [st1 b]. cbn in H1.
    destruct b; [|by simplify_eq].
    destruct (refreshCaught_spec g fuel ctx' order_window st1 w) as [w1 E1].
    rewrite E1 in H. by simplify_eq.
Qed.

Lemma runAll_total {V} (g : Gateway V) fuel order_window inputs : forall st w,
  exists r st' w', runAll (S fuel) g order_window inputs st w = Some (r, st', w').
Proof.
  induction inputs as [|i rest IH]; intros st w; cbn [runAll]; [eauto|].
  destruct (react_total g fuel order_window i st w) as (r & st1 & w1 & ->).
  destruct r; [apply IH|eauto].
Qed.

Lemma runAll_invariant {V} (g : Gateway V) fuel order_window (P : State -> Prop) inputs :
  forall st w r st' w',
  (forall i st w r st' w', i ∈ inputs ->
     react (S fuel) g order_window i st w = Some (r, st', w') -> P st -> P st') ->
  runAll (S fuel) g order_window inputs st w = Some (r, st', w') ->
  P st -> P st'.
Proof.
  induction inputs as [|i rest IH]; intros st w r st' w' Hstep; cbn [runAll].
  - by intros [= _ <- _].
  - destruct (react (S fuel) g order_window i st w) as [[[r1 st1] w1]|] eqn:E; [|done].
    intros H Hst.
    assert (P st1) by (eapply Hstep; [left|exact E|exact Hst]).
    destruct r1.
    + eapply IH; [|exact H|done]. intros. eapply Hstep; [by right|done|done].
    + by simplify_eq.
Qed.

(** X12. Every anchor that the engine stores is a position of the ladder it
    belongs to. For strategies with distinct keys whose ladders record their
    positions, in every state reached from the fresh engine by start-ups,
    tickers and fills: the anchor of each strategy, when set, is within its
    ladder; the drift handler completes without reading outside the ladder;
    and a refresh completes normally after a single pass. *)
Theorem engine_anchor_in_ladder {V} (g : Gateway V) fuel order_window ctxs inputs
    w r st w' ctx :
  NoDup (map keyOf ctxs) ->
  Forall (fun c => indexed (Ctx.levels c)) ctxs ->
  Forall (fun i => ctxOf i ∈ ctxs) inputs ->
  runAll (S fuel) g order_window inputs fresh w = Some (r, st, w') ->
  ctx ∈ ctxs ->
  (forall a, anchorIndices st !! keyOf ctx = Some a ->
     0 <= a < Z.of_nat (length (Ctx.levels ctx))) /\
  (forall currentPrice now, exists res, onTicker ctx currentPrice now st = Normal res) /\
  (forall w1, exists w2,
     refreshGridOrdersByAnchor (S fuel) g ctx order_window st w1 = Some (Normal tt, st, w2)).
Proof.
  intros Hnd Hidx Hin Hrun Hctx.
  assert (Hst : anchored ctx st).
  { eapply (runAll_invariant g fuel order_window (anchored ctx)); [|exact Hrun|].
    - intros i st0 w0 r0 st1 w1 Hi Hreact. rewrite Forall_forall in Hin. rewrite Forall_forall in Hidx.
      eapply (react_anchored g fuel order_window i st0 w0 r0 st1 w1 ctx);
        [by apply Hidx, Hin| |exact Hreact].
      intros Hk. eapply (NoDup_map_elem keyOf ctxs); [done|done|by apply Hin|done].
    - intros a. cbn. by rewrite lookup_empty. }
  split_and!.
  - intros a Ha. by destruct (Hst a Ha).
  - intros. by apply onTicker_Normal.
  - intros. by apply refresh_Normal.
Qed.

(** X12, witness: a start-up, a fill and a ticker of the demo strategy. *)
Lemma engine_anchor_in_ladder_witness :
  let ctx := demoCtx 6 (demoConfig 16 32 (1 # 8)) in
  let inputs := [Boot ctx (Normal 27%Q); Filled ctx (Fill.mk buy 26 "open") 26;
                 Ticker ctx 17 6000] in
  exists r st w',
    runAll 1 Venue.ideal 1 inputs fresh (emptyWorld emptyVenue) = Some (r, st, w') /\
    forall a, anchorIndices st !! keyOf ctx = Some a ->
      0 <= a < Z.of_nat (length (Ctx.levels ctx)).
Proof.
  intros ctx inputs.
  destruct (runAll_total Venue.ideal 0 1 inputs fresh (emptyWorld emptyVenue))
    as (r & st & w' & E).
  exists r, st, w'. split; [exact E|].
  refine (proj1 (engine_anchor_in_ladder Venue.ideal 0 1 [ctx] inputs
                   (emptyWorld emptyVenue) r st w' ctx _ _ _ E _)).
  - apply (bool_decide_unpack _). by vm_compute.
  - repeat constructor.
  - repeat constructor.
  - left.
Defined.

(** X13. No run of the engine ever disables close orders: the only assignment
    of [true] to [isCloseDisabled] sits in the handler of an exception that
    [syncActiveOrders] never lets through. *)
Theorem engine_never_disables_close {V} (g : Gateway V) fuel order_window inputs w r st w' key :
  runAll (S fuel) g order_window inputs fresh w = Some (r, st, w') ->
  closeDisabled st key = false.
Proof.
  intros Hrun. revert key.
  eapply (runAll_invariant g fuel order_window (fun st => forall key, closeDisabled st key = false));
    [|exact Hrun|].
  - intros i st0 w0 r0 st1 w1 _ Hreact. by eapply react_closeDisabled.
  - intros key. unfold closeDisabled. cbn. by rewrite lookup_empty.
Qed.

(** X13, witness: a start-up and a fill against the venue that rejects
    every create with "no position to close". *)
Lemma engine_never_disables_close_witness :
  let ctx := demoCtx 6 (demoConfig 16 32 (1 # 8)) in
  let inputs := [Boot ctx (Normal 27%Q); Filled ctx (Fill.mk buy 26 "open") 26] in
  exists r st w',
    runAll 1 noPositionVenue 1 inputs fresh (emptyWorld tt) = Some (r, st, w') /\
    closeDisabled st (keyOf ctx) = false.
Proof.
  intros ctx inputs.
  destruct (runAll_total noPositionVenue 0 1 inputs fresh (emptyWorld tt))
    as (r & st & w' & E).
  exists r, st, w'. split; [exact E|].
  exact (engine_never_disables_close noPositionVenue 0 1 inputs (emptyWorld tt) r st w'
           (keyOf ctx) E).
Defined.

End EngineFacts.

(** ** Shutdown and the start-up position *)

Section LifecycleFacts.
Import GridContext BotEngine Orders Lifecycle.

Lemma stopOne_calls {V} (cl : Client.t V) cancel close processed d ctx :
  let r := stopOne cl cancel close (processed, d) ctx in
  let s := symbol (Ctx.config ctx) in
  (s ∈ processed -> r = (processed, d)) /\
  (s ∉ processed -> r.1 = processed ++ [s] /\
                    Client.sent r.2 = Client.sent d ++ stopCalls cl cancel close s).
Proof.
  intros r s. subst r. unfold stopOne. fold s.
  split; intros Hs.
  - by rewrite bool_decide_eq_true_2.
  - rewrite bool_decide_eq_false_2 by done. cbn [fst snd]. split; [done|].
    unfold stopCalls, cancelAllOrders, flashClosePositions, Client.send.
    destruct cancel, close; cbn [app].
    + destruct (Client.cancelAllOrders cl s (Client.venue d)) as [r1 v1]. cbn [snd Client.venue Client.sent].
      destruct (getMarket cl s) as [id|e]; cbn [app]; [|done].
      destruct (Client.flashClosePositions cl id v1). cbn. by rewrite <- app_assoc.
    + destruct (Client.cancelAllOrders cl s (Client.venue d)) as [r1 v1]. done.
    + destruct (getMarket cl s) as [id|e]; [|by rewrite app_nil_r].
      destruct (Client.flashClosePositions cl id (Client.venue d)). done.
    + by rewrite app_nil_r.
Qed.

Lemma stop_fold {V} (cl : Client.t V) cancel close ctxs : forall processed d,
  NoDup processed ->
  exists fresh,
    NoDup (processed ++ fresh) /\
    (forall s, s ∈ fresh <-> (s ∉ processed) /\ s ∈ map (fun c => symbol (Ctx.config c)) ctxs) /\
    (fold_left (stopOne cl cancel close) ctxs (processed, d)).1 = processed ++ fresh /\
    Client.sent (fold_left (stopOne cl cancel close) ctxs (processed, d)).2 =
      Client.sent d ++ flat_map (stopCalls cl cancel close) fresh.
Proof.
  induction ctxs as [|ctx rest IH]; intros processed d Hnd; cbn [fold_left map].
  - exists []. rewrite !app_nil_r. split_and!; [done| |done|done].
    intros s. rewrite !elem_of_nil. tauto.
  - destruct (stopOne_calls cl cancel close processed d ctx) as [Hin Hout].
    set (s := symbol (Ctx.config ctx)) in *.
    destruct (decide (s ∈ processed)) as [Hs|Hs].
    + rewrite (Hin Hs). destruct (IH processed d Hnd) as (fresh & H1 & H2 & H3 & H4).
      exists fresh. split_and!; [done| |done|done].
      intros x. rewrite H2, elem_of_cons. split; [tauto|].
      intros [Hx [->|?]]; tauto.
    + destruct (Hout Hs) as [E1 E2].
      destruct (stopOne cl cancel close (processed, d) ctx) as [p1 d1]. cbn [fst snd] in E1, E2.
      subst p1.
      assert (Hnd1 : NoDup (processed ++ [s])).
      { apply NoDup_app. split_and!; [done| |apply NoDup_singleton].
        intros x Hx ->%list_elem_of_singleton. done. }
      destruct (IH (processed ++ [s]) d1 Hnd1) as (fresh & H1 & H2 & H3 & H4).
      exists (s :: fresh). split_and!.
      * by rewrite <- app_assoc in H1.
      * intros x. rewrite elem_of_cons, H2, elem_of_app, list_elem_of_singleton, elem_of_cons.
        destruct (decide (x = s)) as [->|]; [tauto|]. tauto.
      * by rewrite H3, <- app_assoc.
      * rewrite H4, E2. cbn [flat_map]. by rewrite <- app_assoc.
Qed.

(** X14. [stop] cleans up each traded symbol once, however many strategies
    trade it: the calls it sends are those of some duplicate-free list of
    exactly the symbols of the contexts, each symbol contributing its
    [cancelAllOrders] call (when [cancel_all_on_stop] is set) followed by
    its flash close (when [close_all_on_stop] is set and the market is
    known); whatever the venue answers, [stop] completes. *)
Theorem stop_once_per_symbol {V} (cl : Client.t V) cancel_all_on_stop close_all_on_stop
    gridContexts d :
  exists symbols,
    NoDup symbols /\
    (forall s, s ∈ symbols <-> s ∈ map (fun c => symbol (Ctx.config c)) gridContexts) /\
    Client.sent (stop cl cancel_all_on_stop close_all_on_stop gridContexts d) =
      Client.sent d ++ flat_map (stopCalls cl cancel_all_on_stop close_all_on_stop) symbols.
Proof.
  destruct (stop_fold cl cancel_all_on_stop close_all_on_stop gridContexts [] d (NoDup_nil_2))
    as (fresh & H1 & H2 & _ & H4).
  exists fresh. split_and!; [done| |done].
  intros s. rewrite H2. split; [tauto|]. intros ?. split; [apply not_elem_of_nil|done].
Qed.



(** The demo strategy at the price 27: the levels 29 and 32 above it need
    cover, and one market order for two units goes out; with an equity of 1
    the question is asked, and a refusal ends the process before any order. *)
Lemma checkAndBuildInitialPosition_example :
  let ctx := demoCtx 6 (demoConfig 16 32 (1 # 8)) in
  Client.created (Client.sent
    (checkAndBuildInitialPosition (paperClient 27 1000) true false ctx (Client.mkDesk tt [])).2) =
    [NewOrder.mk "SOL/USDT:USDT" "market" buy 2 None open None] /\
  checkAndBuildInitialPosition (paperClient 27 1) true false ctx (Client.mkDesk tt []) =
    (Exited, Client.mkDesk tt [Client.FetchPositions ["SOL/USDT:USDT"];
                               Client.FetchTicker "SOL/USDT:USDT"; Client.FetchBalance]).
Proof. split; vm_compute; reflexivity. Qed.

(** A LONG and a SHORT strategy on one symbol: one cancel, one flash close. *)
Lemma stop_example :
  let long := demoCtx 6 (demoConfig 16 32 (1 # 8)) in
  let short := Ctx.mk (mkConfig "SOL/USDT:USDT" SHORT 10 32 16 (1 # 8) 1) (Ctx.levels long) in
  Client.sent (stop (paperClient 27 1000) true true [long; short] (Client.mkDesk tt [])) =
    [Client.CancelAllOrders "SOL/USDT:USDT"; Client.FlashClosePositions "SOL/USDT:USDT"].
Proof. vm_compute. reflexivity. Qed.

End LifecycleFacts.

(** ** Restart and ledger updates *)

Section LedgerUpdates.
Import GridContext JsString.
Context (rt : JsRuntime).

Lemma endsClean_empty : endsClean "".
Proof. intros c [=]. Qed.

Lemma calculateLevels_ids fuel config t levels l :
  calculateLevels fuel config t = Some levels -> l ∈ levels ->
  buyOrderId l = "" /\ sellOrderId l = "".
Proof.
  intros Hrun Hl.
  apply calculateLevels_inv in Hrun as (n & _ & _ & _ & ->).
  apply list_elem_of_lookup in Hl as [i Hi].
  by apply calculateLevels_lookup in Hi as [_ ->].
Qed.

(** X16. Restarting on the ledger that a first [initialize] wrote gives back the
    same ladder and leaves the file alone, whatever tick size the exchange
    reports by then, and whatever the quantity, leverage, symbol or direction
    of the config by then, as long as its band and spread are the same. *)
Theorem initialize_restart config fuel t levels file config' fuel' t' :
  fingerprintable rt (upperPrice config) -> fingerprintable rt (lowerPrice config) ->
  fingerprintable rt (gridSpread config) ->
  initialize rt fuel config None t = Some (levels, file) ->
  Forall (storable rt) levels ->
  upperPrice config' = upperPrice config -> lowerPrice config' = lowerPrice config ->
  gridSpread config' = gridSpread config ->
  initialize rt fuel' config' (Some file) t' = Some (levels, file).
Proof.
  intros Hu Hl Hs Hinit Hall Eu El Es.
  unfold initialize in Hinit.
  destruct (calculateLevels fuel config t) as [ls|] eqn:Hrun; [|done].
  cbn in Hinit. injection Hinit as <- <-.
  assert (Hmatch : checkConfigMatch rt config' (saveToCsv rt config ls) = true).
  { pose proof (checkConfigMatch_saveToCsv rt config ls Hu Hl Hs) as H.
    unfold checkConfigMatch in *. by rewrite Eu, El, Es. }
  unfold initialize. rewrite Hmatch.
  rewrite (loadFromCsv_saveToCsv rt config ls Hu Hl Hs Hall); [done|].
  intros l Hlast.
  assert (Hin : l ∈ ls).
  { rewrite last_lookup in Hlast. by eapply list_elem_of_lookup_2. }
  destruct (calculateLevels_ids _ _ _ _ _ Hrun Hin) as [_ ->]. apply endsClean_empty.
Qed.

Lemma storable_set l buy orderId :
  storable rt l -> isField orderId = true ->
  storable rt (if buy : bool then mkLevel (index l) (price l) orderId (sellOrderId l)
               else mkLevel (index l) (price l) (buyOrderId l) orderId).
Proof.
  intros (H1 & H2 & H3 & H4 & H5 & H6) Ho.
  destruct buy; repeat split; done.
Qed.

(** X17. [updateOrder] with a position of the ladder records the id on that
    level alone, leaving every price, index and other id as it was, and
    rewrites the ledger so that reloading it returns the updated ladder
    (for an id without comma or line feed that does not end in white
    space); with any other position it changes neither the ladder nor the
    file. *)
Theorem updateOrder_persists config levels file idx buy orderId :
  fingerprintable rt (upperPrice config) -> fingerprintable rt (lowerPrice config) ->
  fingerprintable rt (gridSpread config) ->
  Forall (storable rt) levels ->
  (forall l, last levels = Some l -> endsClean (sellOrderId l)) ->
  isField orderId = true -> endsClean orderId ->
  let r := updateOrder rt config levels file idx buy orderId in
  (0 <= idx < Z.of_nat (length levels) ->
     exists l ledger,
       array_get levels idx = Some l /\
       array_get r.1 idx =
         Some (if buy then mkLevel (index l) (price l) orderId (sellOrderId l)
               else mkLevel (index l) (price l) (buyOrderId l) orderId) /\
       (forall j, j <> idx -> array_get r.1 j = array_get levels j) /\
       r.2 = Some ledger /\
       checkConfigMatch rt config ledger = true /\
       loadFromCsv rt ledger = Some r.1) /\
  (~ (0 <= idx < Z.of_nat (length levels)) -> r = (levels, file)).
Proof.
  intros Hu Hl Hs Hall Hlast Hfield Hclean r. subst r. unfold updateOrder.
  split.
  - intros Hidx.
    replace ((0 <=? idx) && (idx <? Z.of_nat (length levels))) with true
      by (symmetry; apply andb_true_iff; split; [apply Z.leb_le|apply Z.ltb_lt]; lia).
    cbn [fst snd].
    set (set := fun l : GridLevel =>
                  if buy then mkLevel (index l) (price l) orderId (sellOrderId l)
                  else mkLevel (index l) (price l) (buyOrderId l) orderId).
    set (n := Z.to_nat idx).
    destruct (lookup_lt_is_Some_2 levels n) as [l Hn]; [lia|].
    exists l, (saveToCsv rt config (alter set n levels)).
    assert (Hget : forall (ls : list GridLevel) j, 0 <= j -> array_get ls j = ls !! Z.to_nat j).
    { intros ls j Hj. unfold array_get. destruct (Z.ltb_spec j 0); [lia|done]. }
    split_and!.
    + by rewrite Hget by lia.
    + rewrite Hget by lia. fold n. by rewrite list_lookup_alter_eq, Hn.
    + intros j Hj. unfold array_get. destruct (Z.ltb_spec j 0); [done|].
      apply list_lookup_alter_ne. lia.
    + done.
    + by apply checkConfigMatch_saveToCsv.
    + apply loadFromCsv_saveToCsv; [done..| |].
      * apply Forall_forall. intros x [k Hk]%list_elem_of_lookup.
        rewrite Forall_forall in Hall.
        destruct (decide (n = k)) as [<-|Hne].
        -- rewrite list_lookup_alter_eq, Hn in Hk. cbn in Hk. simplify_eq.
           apply storable_set; [|done]. apply Hall. by eapply list_elem_of_lookup_2.
        -- rewrite list_lookup_alter_ne in Hk by done.
           apply Hall. by eapply list_elem_of_lookup_2.
      * intros x. rewrite last_lookup, length_alter.
        destruct (decide (n = pred (length levels))) as [E|Hne].
        -- rewrite <- E, list_lookup_alter_eq, Hn. cbn. intros [= <-].
           subst set. cbn. destruct buy; cbn; [|done].
           apply Hlast. by rewrite last_lookup, <- E.
        -- rewrite list_lookup_alter_ne by done. intros Hx. apply Hlast.
           by rewrite last_lookup.
  - intros Hout.
    replace ((0 <=? idx) && (idx <? Z.of_nat (length levels))) with false; [done|].
    symmetry. apply andb_false_iff.
    destruct (Z.leb_spec 0 idx); [|by left]. right. apply Z.ltb_ge. lia.
Qed.

Lemma first_line_prefix p : forall s,
  LF ∉ chars p ->
  String.prefix p (default EmptyString (split LF s !! 0%nat)) = String.prefix p s.
Proof.
  assert (Hnil : forall x, String.prefix EmptyString x = true) by (by intros []).
  induction p as [|a p IH]; intros s Hp; [by rewrite !Hnil|].
  cbn [chars] in Hp. apply not_elem_of_cons in Hp as [Ha Hp].
  destruct s as [|c s]; [done|].
  cbn [split]. destruct (Ascii.eqb_spec c LF) as [->|Hc].
  - cbn [lookup list_lookup default from_option id]. rewrite startsWith_cons.
    destruct (ascii_dec a LF); [congruence|done].
  - specialize (IH s Hp).
    destruct (split LF s) as [|h rest]; cbn [lookup list_lookup default from_option id] in *;
      rewrite !startsWith_cons; destruct (ascii_dec a c); try done.
Qed.

(** X18. A file that does not begin with the fingerprint mark "# config:"
    (a ledger of the older format, or anything else found at the path) is
    never loaded: [initialize] builds the ladder anew and overwrites the
    file, exactly as when no file exists. *)
Theorem initialize_discards_unmarked_file fuel config content t :
  startsWith content "# config:" = false ->
  checkConfigMatch rt config content = false /\
  initialize rt fuel config (Some content) t = initialize rt fuel config None t.
Proof.
  intros H.
  assert (E : checkConfigMatch rt config content = false).
  { unfold checkConfigMatch, startsWith in *.
    rewrite first_line_prefix by (by apply noLF_spec). by rewrite H. }
  split; [done|]. unfold initialize. by rewrite E.
Qed.

End LedgerUpdates.

Section LedgerUpdateWitnesses.
Import GridContext JsString.

(** X16, witness: the band [1, 4] with spread 1, restarted with another
    leverage, quantity and tick size. *)
Lemma initialize_restart_witness :
  let config := demoConfig 1 4 1 in
  exists levels file,
    initialize decimalRuntime 2 config None 1 = Some (levels, file) /\
    initialize decimalRuntime 0 (mkConfig "SOL/USDT:USDT" LONG 3 4 1 1 5) (Some file) (1 # 100) =
      Some (levels, file).
Proof.
  intros config.
  destruct (initialize decimalRuntime 2 config None 1) as [[levels file]|] eqn:E;
    [|by vm_compute in E].
  exists levels, file. split; [done|].
  apply (initialize_restart decimalRuntime config 2 1 levels file);
    [by vm_compute|by vm_compute|by vm_compute|exact E| |reflexivity..].
  vm_compute in E. injection E as <- _. repeat constructor.
Defined.

(** X17, witness: a buy id recorded on level 1 of a three-level ladder. *)
Lemma updateOrder_persists_witness :
  let config := demoConfig 1 4 1 in
  let levels := [mkLevel 0 1 "" ""; mkLevel 1 2 "" ""; mkLevel 2 4 "" ""] in
  let r := updateOrder decimalRuntime config levels None 1 true "1001" in
  exists ledger, r.2 = Some ledger /\ loadFromCsv decimalRuntime ledger = Some r.1.
Proof.
  intros config levels r.
  destruct (updateOrder_persists decimalRuntime config levels None 1 true "1001")
    as [Hin _].
  - by vm_compute.
  - by vm_compute.
  - by vm_compute.
  - repeat constructor.
  - intros l [= <-] c [=].
  - reflexivity.
  - intros c [= <-]. reflexivity.
  - destruct Hin as (l & ledger & _ & _ & _ & H1 & _ & H2); [by vm_compute|].
    by exists ledger.
Defined.

(** X18, witness: a ledger of the older format, which starts with the
    header line. *)
Lemma initialize_discards_unmarked_file_witness :
  let config := demoConfig 1 4 1 in
  initialize decimalRuntime 2 config (Some "index,price,buy_order_id,sell_order_id") 1 =
    initialize decimalRuntime 2 config None 1.
Proof.
  intros config.
  apply (initialize_discards_unmarked_file decimalRuntime 2 config). reflexivity.
Defined.

End LedgerUpdateWitnesses.

(** ** No lock is left behind *)

Section SchedulerProgress.
Import Scheduler.

Lemma moveTo_keeps s i src key p lock j t :
  j <> i -> tasks s !! j = Some t -> tasks (moveTo s i src key p lock) !! j = Some t.
Proof. intros Hne Ht. cbn. by rewrite list_lookup_insert_ne. Qed.

Lemma moveTo_at s i src key p lock t :
  tasks s !! i = Some t -> tasks (moveTo s i src key p lock) !! i = Some (mkTask src key p).
Proof.
  intros Ht. cbn. apply list_lookup_insert_eq. by eapply lookup_lt_Some.
Qed.

Lemma tight_initial : tight initial.
Proof. intros key. unfold locked. cbn. by rewrite lookup_empty. Qed.

Lemma tight_step s s' : tight s -> step s s' -> tight s'.
Proof.
  intros Htight Hstep.
  destruct Hstep as [src key|i src key Hi Hfree|i src key Hi|i src key Hi|i src key Hi|i src key Hi];
    intros key' Hlocked.
  - (* trigger *)
    destruct (Htight key' Hlocked) as (j & t & Hj & Hk & Hh).
    exists j, t. split; [|by split]. cbn. by apply lookup_app_l_Some.
  - (* acquire *)
    destruct (decide (key' = key)) as [->|Hne].
    + exists i, (mkTask src key Building). split; [by eapply moveTo_at|]. split; [done|by left].
    + rewrite locked_moveTo_other in Hlocked by done.
      destruct (Htight key' Hlocked) as (j & t & Hj & Hk & Hh).
      exists j, t. split; [|by split].
      apply moveTo_keeps; [|done]. intros ->. rewrite Hi in Hj. by simplify_eq.
  - (* sync *)
    rewrite locked_moveTo_none in Hlocked.
    destruct (Htight key' Hlocked) as (j & t & Hj & Hk & Hh).
    destruct (decide (j = i)) as [->|Hne].
    + rewrite Hi in Hj. simplify_eq.
      exists i, (mkTask src key Syncing). split; [by eapply moveTo_at|]. split; [done|by right].
    + exists j, t. split; [by apply moveTo_keeps|by split].
  - (* leave *)
    destruct (decide (key' = key)) as [->|Hne]; [by rewrite locked_moveTo_same in Hlocked|].
    rewrite locked_moveTo_other in Hlocked by done.
    destruct (Htight key' Hlocked) as (j & t & Hj & Hk & Hh).
    exists j, t. split; [|by split].
    apply moveTo_keeps; [|done]. intros ->. rewrite Hi in Hj. by simplify_eq.
  - (* retry *)
    rewrite locked_moveTo_none in Hlocked.
    destruct (Htight key' Hlocked) as (j & t & Hj & Hk & Hh).
    destruct (decide (j = i)) as [->|Hne].
    + rewrite Hi in Hj. simplify_eq.
      exists i, (mkTask src key Building). split; [by eapply moveTo_at|]. split; [done|by left].
    + exists j, t. split; [by apply moveTo_keeps|by split].
  - (* finish *)
    destruct (decide (key' = key)) as [->|Hne]; [by rewrite locked_moveTo_same in Hlocked|].
    rewrite locked_moveTo_other in Hlocked by done.
    destruct (Htight key' Hlocked) as (j & t & Hj & Hk & Hh).
    exists j, t. split; [|by split].
    apply moveTo_keeps; [|done]. intros ->. rewrite Hi in Hj. by simplify_eq.
Qed.

Lemma reachable_tight s : reachable s -> tight s.
Proof.
  unfold reachable. intros H.
  eapply (rtc_ind_r (R := step) tight initial); [apply tight_initial| |exact H].
  intros y z _ Hstep IH. by eapply tight_step.
Qed.

(** X19. No lock is left behind, and no refresh waits for ever. In every
    reachable state of the interleaving, a mutex that is taken is held by a
    call that is between [acquire()] and [release()]; and a call that waits
    in [acquire()] can always go on: some continuation of the run (the
    holder's release, then its own acquisition) brings it past
    [acquire()]. *)
Theorem refresh_lock_released s :
  reachable s ->
  (forall key, locked s key = true ->
     exists i t, tasks s !! i = Some t /\ stratKey t = key /\ holding t) /\
  (forall i src key, tasks s !! i = Some (mkTask src key Acquiring) ->
     exists s', rtc step s s' /\ tasks s' !! i = Some (mkTask src key Building)).
Proof.
  intros Hreach. pose proof (reachable_tight s Hreach) as Htight.
  split; [exact Htight|].
  intros i src key Hi.
  destruct (locked s key) eqn:Hlocked.
  - destruct (Htight key Hlocked) as (j & [srcj keyj pj] & Hj & Hk & Hh).
    cbn in Hk. subst keyj.
    assert (Hne : i <> j).
    { intros ->. rewrite Hi in Hj. simplify_eq. destruct Hh as [Hp|Hp]; by cbn in Hp. }
    assert (Hrel : exists s1, step s s1 /\ locked s1 key = false /\
                     tasks s1 !! i = Some (mkTask src key Acquiring)).
    { destruct Hh as [Hp|Hp]; cbn in Hp; subst pj.
      - exists (moveTo s j srcj key Released (Some false)). split_and!.
        + by apply step_leave.
        + apply locked_moveTo_same.
        + by apply moveTo_keeps.
      - exists (moveTo s j srcj key Released (Some false)). split_and!.
        + by apply step_finish.
        + apply locked_moveTo_same.
        + by apply moveTo_keeps. }
    destruct Hrel as (s1 & Hstep & Hfree & Hi1).
    exists (moveTo s1 i src key Building (Some true)). split.
    + eapply rtc_l; [exact Hstep|]. apply rtc_once. by apply step_acquire.
    + by eapply moveTo_at.
  - exists (moveTo s i src key Building (Some true)). split.
    + apply rtc_once. by apply step_acquire.
    + by eapply moveTo_at.
Qed.

(** X19, witness: the drift-triggered call waits while the fill-triggered
    call holds the lock, and gets it after the release. *)
Lemma refresh_lock_released_witness :
  let key := "SOL/USDT:USDT_LONG" in
  let s1 := mkSystem ∅ [mkTask OnFill key Acquiring] in
  let s2 := mkSystem ∅ [mkTask OnFill key Acquiring; mkTask OnDrift key Acquiring] in
  let s3 := moveTo s2 0 OnFill key Building (Some true) in
  reachable s3 /\
  exists s', rtc step s3 s' /\ tasks s' !! 1%nat = Some (mkTask OnDrift key Building).
Proof.
  intros key s1 s2 s3.
  assert (Hreach : reachable s3).
  { unfold reachable.
    eapply rtc_l; [apply (step_trigger initial OnFill key)|].
    eapply rtc_l; [apply (step_trigger s1 OnDrift key)|].
    eapply rtc_l; [apply (step_acquire s2 0 OnFill key); reflexivity|].
    apply rtc_refl. }
  split; [exact Hreach|].
  apply (proj2 (refresh_lock_released s3 Hreach) 1%nat OnDrift key). reflexivity.
Defined.

End SchedulerProgress.

(** ** Start-up, idle strategies and the whole refresh *)

Section StartupFacts.
Import GridContext OrderExecutor BotEngine Engine.

(** X20. Start-up of a strategy on a ladder whose levels record their
    positions. When the ladder has nearest levels for the current price,
    the anchor becomes the position of the lower one, so that the price lies
    between the anchor level and the next level, which exists; the refresh
    that follows completes normally. Otherwise nothing is stored and nothing
    is sent. *)
Theorem initialPositioning_anchor {V} (g : Gateway V) fuel ctx order_window p st w :
  indexed (Ctx.levels ctx) ->
  exists st' w',
    initialPositioning (S fuel) g ctx order_window (Normal p) st w = Some (Normal tt, st', w') /\
    match getNearestLevels (Ctx.config ctx) (Ctx.levels ctx) p with
    | None => st' = st /\ w' = w
    | Some (lo, hi) =>
        exists a, anchorIndices st' !! keyOf ctx = Some a /\
          array_get (Ctx.levels ctx) a = Some lo /\
          array_get (Ctx.levels ctx) (a + 1) = Some hi /\
          (price lo <= p)%Q /\ (p <= price hi)%Q
    end.
Proof.
  intros Hidx. unfold initialPositioning.
  destruct (getNearestLevels _ _ _) as [[lo hi]|] eqn:E; [|by eauto].
  cbv zeta. cbn [fst].
  set (st1 := mkState _ _ _).
  pose proof E as (_ & _ & i & Hlo & Hhi & H1 & H2 & _)%getNearestLevels_Some.
  pose proof (lookup_lt_Some _ _ _ Hhi) as Hlen.
  pose proof (indexed_lookup _ _ _ Hidx Hlo) as Hi.
  assert (Hanch : anchored ctx st1).
  { intros a. subst st1. cbn. rewrite lookup_insert_eq. intros [= <-]. lia. }
  destruct (refresh_Normal g fuel ctx order_window st1 w Hanch) as [w' ->].
  exists st1, w'. split; [done|].
  exists (Z.of_nat i). split_and!; [|..|done|done].
  - subst st1. cbn. by rewrite lookup_insert_eq, Hi.
  - unfold array_get. destruct (Z.ltb_spec (Z.of_nat i) 0); [lia|]. by rewrite Nat2Z.id.
  - unfold array_get. destruct (Z.ltb_spec (Z.of_nat i + 1) 0); [lia|].
    by replace (Z.to_nat (Z.of_nat i + 1)) with (S i) by lia.
Qed.

(** X20, witness: the demo strategy started at the price 27. *)
Lemma initialPositioning_anchor_witness :
  let ctx := demoCtx 6 (demoConfig 16 32 (1 # 8)) in
  exists st' w',
    initialPositioning 1 Venue.ideal ctx 1 (Normal 27%Q) fresh (emptyWorld emptyVenue) =
      Some (Normal tt, st', w') /\
    anchorIndices st' !! keyOf ctx = Some 4.
Proof.
  intros ctx.
  destruct (initialPositioning_anchor Venue.ideal 0 ctx 1 27 fresh (emptyWorld emptyVenue))
    as (st' & w' & E & H); [reflexivity|].
  exists st', w'. split; [exact E|].
  vm_compute in E. by injection E as <- _.
Defined.

(** X21. A strategy that starts while the price has no nearest levels (outside
    the band, for one) stays idle: whatever tickers its price loop receives
    later, also with the price back inside the band, the engine stores no
    anchor and sends the venue nothing. Only a fill could set an anchor. *)
Theorem engine_idle_outside_band {V} (g : Gateway V) fuel order_window inputs w :
  Forall quiet inputs ->
  runAll (S fuel) g order_window inputs fresh w = Some (Normal tt, fresh, w).
Proof.
  induction 1 as [|i rest Hi _ IH]; [done|].
  cbn [runAll].
  assert (E : react (S fuel) g order_window i fresh w = Some (Normal tt, fresh, w)).
  { destruct i as [ctx [p|e]|ctx p now|ctx order p]; cbn in Hi; [|done| |done].
    - cbn [react]. unfold initialPositioning. by rewrite Hi.
    - cbn [react]. unfold onTicker. cbn [anchorIndices fresh]. by rewrite lookup_empty. }
  by rewrite E.
Qed.

(** X21, witness: a start-up at 40, above the band, then two tickers
    inside the band. *)
Lemma engine_idle_outside_band_witness :
  let ctx := demoCtx 6 (demoConfig 16 32 (1 # 8)) in
  runAll 1 Venue.ideal 1 [Boot ctx (Normal 40%Q); Ticker ctx 24 1000; Ticker ctx 20 9000]
    fresh (emptyWorld emptyVenue) = Some (Normal tt, fresh, emptyWorld emptyVenue).
Proof.
  intros ctx. apply engine_idle_outside_band.
  repeat constructor.
Defined.

(** X22. A fill whose reference price is not strictly inside the band moves no
    anchor and asks for no refresh, also for the strategy whose own order was
    filled. On the ladder of a valid band whose bounds the tick rounding does
    not push inwards this is the case for a fill at the first level and for a
    fill at the last level, when the fill price is the reference price. *)
Theorem onFill_at_band_edge config t fuel levels l order st :
  (lowerPrice config < upperPrice config)%Q -> (0 < gridSpread config)%Q -> (0 < t)%Q ->
  (roundToTick t (lowerPrice config) <= lowerPrice config)%Q ->
  (upperPrice config <= roundToTick t (upperPrice config))%Q ->
  calculateLevels fuel config t = Some levels ->
  head levels = Some l \/ last levels = Some l ->
  Fill.price order = price l ->
  onFill (Ctx.mk config levels) order (Fill.price order) st = (st, false).
Proof.
  intros Hlu Hs Ht Hlo Hhi Hrun Hl Hp.
  destruct (calculateLevels_shape config t fuel levels Hlu Hs Ht Hrun)
    as ((first & Hfirst & Hfp) & _ & n & Hlen & Hstop & _ & Hk).
  unfold onFill. cbn [Ctx.config Ctx.levels].
  rewrite getNearestLevels_outside; [done|].
  rewrite Hp. destruct Hl as [Hl|Hl].
  - left. rewrite head_lookup in Hl. rewrite Hfirst in Hl. simplify_eq. by rewrite Hfp.
  - right. left. rewrite last_lookup, Hlen in Hl. cbn in Hl.
    destruct (Hk n l Hl) as [_ ->].
    pose proof (roundToTick_mono t _ _ Ht Hstop). lra.
Qed.

(** X22, witness: the close order at the last level, 32, is filled. *)
Lemma onFill_at_band_edge_witness :
  let config := demoConfig 16 32 (1 # 8) in
  let ctx := demoCtx 6 config in
  onFill ctx (Fill.mk sell 32 "close") 32 (anchoredAt ctx 5) = (anchoredAt ctx 5, false).
Proof.
  intros config ctx.
  apply (onFill_at_band_edge config 1 6 (Ctx.levels ctx) (mkLevel 6 32 "" "")
           (Fill.mk sell 32 "close") (anchoredAt ctx 5)); try done.
  by right.
Defined.

(** X23. A refresh against a venue that executes what it is sent, whose resting
    orders bear distinct ids: afterwards the strategy's side of the book
    holds, for every level within the window below the anchor and above it,
    an order at that level's price with that side's action (close orders
    excepted while they are disabled), and holds no order that meets no
    target of the window. *)
Theorem refresh_establishes_window fuel ctx order_window st w a :
  anchorIndices st !! keyOf ctx = Some a ->
  0 <= a < Z.of_nat (length (Ctx.levels ctx)) ->
  NoDup (map Order.id (Venue.resting (venue w))) ->
  let config := Ctx.config ctx in
  let disabled := closeDisabled st (keyOf ctx) in
  exists w' targets,
    refreshGridOrdersByAnchor (S fuel) Venue.ideal ctx order_window st w =
      Some (Normal tt, st, w') /\
    buildTargets config (Ctx.levels ctx) a order_window disabled = Normal targets /\
    (forall j l, 1 <= j <= windowSize order_window ->
       array_get (Ctx.levels ctx) (a - j) = Some l ->
       (lowerAction config = close -> disabled = false) ->
       exists o, o ∈ strategyOrders (direction config) (venue w') /\
         matchesTarget (Target.mk (price l) (quantityPerGrid config) (lowerAction config)) o = true) /\
    (forall j l, 1 <= j <= windowSize order_window ->
       array_get (Ctx.levels ctx) (a + j) = Some l ->
       (upperAction config = close -> disabled = false) ->
       exists o, o ∈ strategyOrders (direction config) (venue w') /\
         matchesTarget (Target.mk (price l) (quantityPerGrid config) (upperAction config)) o = true) /\
    (forall o, o ∈ strategyOrders (direction config) (venue w') ->
       exists t, t ∈ targets /\ matchesTarget t o = true).
Proof.
  intros Ha Hrange Hnd config disabled.
  destruct (buildTargets_total config (Ctx.levels ctx) a order_window disabled Hrange)
    as [targets Hb].
  destruct (buildTargets_shape config (Ctx.levels ctx) a order_window disabled targets Hb)
    as (_ & Hlower & Hupper).
  destruct (syncActiveOrders_agrees (symbol config) (direction config) targets w Hnd)
    as (Hmet & Hmeets & _).
  pose proof (syncActiveOrders_never_throws Venue.ideal (symbol config) (direction config)
                targets w) as Hnever.
  exists (syncActiveOrders Venue.ideal (symbol config) (direction config) targets w).2, targets.
  split_and!.
  - unfold refreshGridOrdersByAnchor. cbn [refreshLoop]. rewrite Ha.
    fold config disabled. rewrite Hb.
    destruct (level_Normal (Ctx.levels ctx) a Hrange) as [la ->].
    destruct (syncActiveOrders _ _ _ _ _) as [[[]|e] w']; cbn in Hnever; done.
  - done.
  - intros j l Hj Hl Hdis. apply Hmet. by eapply Hlower.
  - intros j l Hj Hl Hdis. apply Hmet. by eapply Hupper.
  - exact Hmeets.
Qed.

(** X23, witness: the first refresh of the demo strategy, anchored at 3. *)
Lemma refresh_establishes_window_witness :
  let ctx := demoCtx 6 (demoConfig 16 32 (1 # 8)) in
  exists w' o,
    refreshGridOrdersByAnchor 1 Venue.ideal ctx 1 (anchoredAt ctx 3) (emptyWorld emptyVenue) =
      Some (Normal tt, anchoredAt ctx 3, w') /\
    o ∈ strategyOrders LONG (venue w') /\
    matchesTarget (Target.mk 26 1 close) o = true.
Proof.
  intros ctx.
  destruct (refresh_establishes_window 0 ctx 1 (anchoredAt ctx 3) (emptyWorld emptyVenue) 3)
    as (w' & targets & E & _ & _ & Hup & _).
  - reflexivity.
  - by vm_compute.
  - constructor.
  - destruct (Hup 1 (mkLevel 4 26 "" "")) as (o & Ho & Hm); [by vm_compute|reflexivity|done|].
    by exists w', o.
Defined.

End StartupFacts.

(** ** The direction of a drift reset, and single orders *)

Section DriftDirection.
Import GridContext OrderExecutor BotEngine Engine.

(** X24. A drift reset follows the price: on a ladder whose prices never
    decrease and whose levels record their positions, the new anchor lies
    above the old one when the ticker price is above the old anchor's price,
    and below it when the ticker price is below. *)
Theorem drift_reset_follows_price ctx currentPrice now st st' a anchorLevel :
  ascending (Ctx.levels ctx) -> indexed (Ctx.levels ctx) ->
  onTicker ctx currentPrice now st = Normal (st', true) ->
  anchorIndices st !! keyOf ctx = Some a ->
  array_get (Ctx.levels ctx) a = Some anchorLevel ->
  exists a', anchorIndices st' !! keyOf ctx = Some a' /\
    ((price anchorLevel < currentPrice)%Q -> a < a') /\
    ((currentPrice < price anchorLevel)%Q -> a' < a).
Proof.
  intros Hasc Hidx H Ha Hl.
  apply onTicker_reset in H
    as (a0 & l0 & d & [lo hi] & Ha0 & _ & _ & _ & _ & Hn & Hne & ->).
  rewrite Ha in Ha0. injection Ha0 as <-.
  exists (closerIndex (lo, hi) currentPrice). split; [cbn; apply lookup_insert_eq|].
  apply getNearestLevels_Some in Hn as (_ & _ & i & Hlo & Hhi & H1 & H2 & _).
  pose proof (indexed_lookup _ _ _ Hidx Hlo) as Ei.
  pose proof (indexed_lookup _ _ _ Hidx Hhi) as Ei'.
  pose proof (array_get_range _ _ _ Hl) as Hr.
  unfold array_get in Hl. destruct (Z.ltb_spec a 0); [lia|].
  assert (Hcases : closerIndex (lo, hi) currentPrice = Z.of_nat i \/
                   closerIndex (lo, hi) currentPrice = Z.of_nat (S i)).
  { destruct (closerIndex_cases (lo, hi) currentPrice) as [E|E]; rewrite E; cbn [fst snd]; auto. }
  split.
  - intros Hup.
    assert (a < Z.of_nat (S i)).
    { destruct (Z.lt_ge_cases a (Z.of_nat (S i))) as [|Hge]; [done|].
      pose proof (ascending_le _ (S i) (Z.to_nat a) hi anchorLevel Hasc ltac:(lia) Hhi Hl). lra. }
    destruct Hcases as [E|E]; rewrite E in *; lia.
  - intros Hdown.
    assert (Z.of_nat i < a).
    { destruct (Z.lt_ge_cases (Z.of_nat i) a) as [|Hge]; [done|].
      pose proof (ascending_le _ (Z.to_nat a) i anchorLevel lo Hasc ltac:(lia) Hl Hlo). lra. }
    destruct Hcases as [E|E]; rewrite E in *; lia.
Qed.

(** X24, witness: the anchor at level 3 (23) and a ticker at 16.5. *)
Lemma drift_reset_follows_price_witness :
  let ctx := demoCtx 6 (demoConfig 16 32 (1 # 8)) in
  exists st' a', onTicker ctx (33 # 2) 5000 (anchoredAt ctx 3) = Normal (st', true) /\
    anchorIndices st' !! keyOf ctx = Some a' /\ a' < 3.
Proof.
  intros ctx.
  destruct (onTicker ctx (33 # 2) 5000 (anchoredAt ctx 3)) as [[st' b]|e] eqn:E;
    [|by vm_compute in E].
  assert (b = true) as -> by (vm_compute in E; by injection E as _ <-).
  destruct (drift_reset_follows_price ctx (33 # 2) 5000 (anchoredAt ctx 3) st' 3
              (mkLevel 3 23 "" "")) as (a' & Ha' & _ & Hdown).
  - vm_compute. repeat split; discriminate.
  - reflexivity.
  - exact E.
  - reflexivity.
  - reflexivity.
  - exists st', a'. split_and!; [done|done|]. apply Hdown. reflexivity.
Defined.

End DriftDirection.

Section SingleOrderFacts.
Import JsString OrderExecutor Orders.

(** X25. [placeGridOrder] sends one [createOrder], with the very parameters that
    [syncActiveOrders] puts in a batch for the same target. A rejection whose
    message mentions a cancelled post-only order gives [null]; any other
    rejection reaches the caller, with the venue's message and coded
    NO_POSITION exactly when the message (or the venue's own code) says
    so, which [syncActiveOrders] never lets happen. *)
Theorem placeGridOrder_outcome {V} (cl : Client.t V) symbol direction (target : Target.t) d :
  let request := toRequest symbol direction target in
  let order := NewOrder.mk (Request.symbol request) (Request.type request)
                 (Request.side request) (Request.amount request)
                 (Some (Request.price request)) (Request.tradeSide request)
                 (Some (Request.timeInForce request)) in
  let r := placeGridOrder cl symbol (Target.price target) (Target.amount target)
             direction (Target.action target) d in
  Client.sent r.2 = Client.sent d ++ [Client.CreateOrder order] /\
  match (Client.createOrder cl order (Client.venue d)).1 with
  | Normal o => r.1 = Normal (Some o)
  | Throw e =>
      let postOnly := includes (message e) "Post only order" || includes (message e) "post_only" in
      (postOnly = true -> r.1 = Normal None) /\
      (postOnly = false ->
         exists e', r.1 = Throw e' /\ message e' = message e /\
           (code e' = "NO_POSITION" <-> isNoPosition e = true \/ code e = "NO_POSITION"))
  end.
Proof.
  intros request order r. subst r. unfold placeGridOrder, Client.send.
  change (NewOrder.mk symbol "limit" match direction with LONG => buy | SHORT => sell end
            (Target.amount target) (Some (Target.price target)) (Target.action target)
            (Some "post_only")) with order.
  destruct (Client.createOrder cl order (Client.venue d)) as [[o|e] v]; cbn [fst snd]; [done|].
  split.
  - by destruct (_ || _); [|destruct (_ || _)].
  - cbv zeta. fold (isNoPosition e).
    destruct (includes (message e) "Post only order" || includes (message e) "post_only");
      cbn [fst snd]; split; try done.
    intros _. destruct (isNoPosition e) eqn:E; cbn [fst].
    + eexists. split_and!; [done|done|]. cbn. tauto.
    + eexists. split_and!; [done|done|]. split; [by right|]. by intros [?|?].
Qed.

End SingleOrderFacts.

Section QuietHandlers.
Import GridContext OrderExecutor BotEngine Engine.

(** X26. The handlers change the tables of the engine only together with
    a refresh of the orders: when the fill handler asks for no refresh (no
    nearest levels, or a fill of the other side that leaves the anchor where
    it is) the tables are as before, and so they are when the drift handler
    completes without a reset; the reaction of the engine then sends the
    venue nothing. A fill of the strategy's own side with nearest levels
    always asks for a refresh. *)
Theorem handlers_change_state_only_with_refresh {V} (g : Gateway V) fuel order_window ctx st w :
  (forall order referencePrice,
     (onFill ctx order referencePrice st).2 = false ->
     (onFill ctx order referencePrice st).1 = st /\
     react (S fuel) g order_window (Filled ctx order referencePrice) st w =
       Some (Normal tt, st, w)) /\
  (forall order referencePrice,
     isTriggeringStrat order (Ctx.config ctx) = true ->
     is_Some (getNearestLevels (Ctx.config ctx) (Ctx.levels ctx) referencePrice) ->
     (onFill ctx order referencePrice st).2 = true) /\
  (forall currentPrice now st',
     onTicker ctx currentPrice now st = Normal (st', false) ->
     st' = st /\
     react (S fuel) g order_window (Ticker ctx currentPrice now) st w =
       Some (Normal tt, st, w)).
Proof.
  split_and!.
  - intros order referencePrice Hno.
    assert (E : (onFill ctx order referencePrice st).1 = st).
    { revert Hno. unfold onFill.
      destruct (getNearestLevels _ _ _) as [nearest|]; [|done]. cbv zeta.
      destruct (isTriggeringStrat order (Ctx.config ctx)) eqn:Et.
      { by rewrite orb_true_r. }
      rewrite orb_false_r.
      destruct (bool_decide_reflect
                  (anchorIndices st !! keyOf ctx = Some (closerIndex nearest referencePrice)))
        as [Hsame|]; [|done].
      intros _. cbn [fst negb].
      unfold finalAnchor. rewrite Et.
      rewrite insert_id by done. by destruct st. }
    split; [done|]. cbn [react].
    destruct (onFill ctx order referencePrice st) as [st1 b]. cbn in Hno, E. by subst.
  - intros order referencePrice Ht [nearest Hn]. unfold onFill. rewrite Hn. cbv zeta.
    rewrite Ht, orb_true_r. by destruct (_ && _).
  - intros currentPrice now st' H.
    pose proof (onTicker_no_reset _ _ _ _ _ H) as ->.
    split; [done|]. cbn [react]. by rewrite H.
Qed.

End QuietHandlers.
